(** * image-weaving: the slice / flip / stack / repeat pipeline

    A shallow embedding of [src/components/ImageEditor.tsx]
    ([handleInputChange], [createCanvas], [processAndDownload]), of
    [src/components/ImageEditorBackup.tsx] ([splitImage],
    [mergeAndDownload]), of [src/components/ImageUpload.tsx] and of the
    browser operations they call (number arithmetic, [parseFloat], the 2D
    canvas), followed by the properties of the pipeline.

    Conventions of the embedding.
    - A JavaScript number is [NaN], an infinity or a rational; the
      operators [*] and [/] and [parseFloat] round their exact result to
      the nearest binary64 value, ties to even ([binary64]), overflow to an
      infinity and underflow to zero.  The two zeros are identified.
    - Sizes, coordinates, loop counters and array lengths are integers and
      their sums and products are exact: they stay below 2^53 in every run
      that a browser can finish.
    - A bitmap is a width, a height and a pixel function; the pixels that
      count are those with [0 <= x < width] and [0 <= y < height].
    - [canvas.width] and [canvas.height] are [unsigned long] attributes:
      the number assigned is truncated and reduced modulo 2^32, and a
      result of 2^31 or more selects the default size.  The largest canvas
      that a browser will allocate is browser-specific and not modelled.
    - [getContext("2d")] always yields a context, so the [if (!ctx)] guards
      of the source never fire. *)

From Stdlib Require Import ZArith QArith Qround Qabs Ascii String List Lia Lqa Bool
  Permutation.
From stdpp Require Import gmap strings.

Set Default Proof Using "Type".
Local Open Scope Z_scope.

(** ** Numbers *)

Module Number.

Inductive number : Type :=
| NaN
| Infinity (negative : bool)
| Finite (q : Q).

Definition of_Z (z : Z) : number := Finite (inject_Z z).

Definition Qneg (q : Q) : bool := if Qlt_le_dec q 0 then true else false.
Definition Qpos (q : Q) : bool := if Qlt_le_dec 0 q then true else false.
Definition Qzero (q : Q) : bool := Qeq_bool q 0.

(** The integer nearest to [x], ties to the even one. *)
Definition round_half_even (x : Q) : Z :=
  let f := Qfloor x in
  match (x - inject_Z f ?= 1 # 2)%Q with
  | Lt => f
  | Gt => f + 1
  | Eq => if Z.even f then f else f + 1
  end.

(** The binary64 value nearest to [a >= 0], counted in units of 2^-1074,
    the smallest positive value of the format.  [x] is [a] in these
    units; a significand has 53 bits, so its last bit is worth [2 ^ e]
    units, and the significand is [x / 2 ^ e] rounded to an integer. *)
Definition nearest_multiple (a : Q) : Z :=
  let x := (a * inject_Z (2 ^ 1074))%Q in
  let e := Z.max (Z.log2 (Qfloor x) - 52) 0 in
  round_half_even (x / inject_Z (2 ^ e)) * 2 ^ e.

(** The Number value for a real: round to nearest, ties to even; a
    magnitude that rounds to 2^1024 or more becomes an infinity. *)
Definition binary64 (q : Q) : number :=
  let n := nearest_multiple (Qabs q) in
  if 2 ^ 2098 <=? n then Infinity (Qneg q)
  else Finite (Qred (Qmake (if Qneg q then - n else n) (2 ^ 1074))).

(** A value of the binary64 format: at most 53 significant bits, the last
    of them worth 2^-1074 or more, and a magnitude below 2^1024. *)
Definition double (q : Q) : Prop :=
  exists m e,
    0 <= e /\ Z.abs m < 2 ^ 53 /\ Z.abs m * 2 ^ e < 2 ^ 2098
    /\ (q == Qmake (m * 2 ^ e) (2 ^ 1074))%Q.

(** [a * b] *)
Definition mul (a b : number) : number :=
  match a, b with
  | NaN, _ | _, NaN => NaN
  | Infinity s, Infinity t => Infinity (xorb s t)
  | Infinity s, Finite q | Finite q, Infinity s =>
      if Qzero q then NaN else Infinity (xorb s (Qneg q))
  | Finite p, Finite q => binary64 (p * q)
  end.

(** [a / b] *)
Definition div (a b : number) : number :=
  match a, b with
  | NaN, _ | _, NaN => NaN
  | Infinity _, Infinity _ => NaN
  | Infinity s, Finite q => Infinity (xorb s (Qneg q))
  | Finite _, Infinity _ => Finite 0
  | Finite p, Finite q =>
      if Qzero q then (if Qzero p then NaN else Infinity (Qneg p))
      else binary64 (p / q)
  end.

(** The integral part of [q] (rounding towards zero). *)
Definition truncate (q : Q) : Z := if Qneg q then Qceiling q else Qfloor q.

(** [Math.floor(a)] *)
Definition floor (a : number) : number :=
  match a with
  | Finite q => of_Z (Qfloor q)
  | _ => a
  end.

(** [a < b] *)
Definition lt (a b : number) : bool :=
  match a, b with
  | NaN, _ | _, NaN => false
  | Infinity s, Infinity t => s && negb t
  | Infinity s, Finite _ => s
  | Finite _, Infinity t => negb t
  | Finite p, Finite q => if Qlt_le_dec p q then true else false
  end.

(** [a > b] *)
Definition gt (a b : number) : bool := lt b a.

(** [a <= b] *)
Definition le (a b : number) : bool :=
  match a, b with
  | NaN, _ | _, NaN => false
  | Infinity s, Infinity t => s || negb t
  | Infinity s, Finite _ => s
  | Finite _, Infinity t => negb t
  | Finite p, Finite q => if Qlt_le_dec q p then false else true
  end.

Definition isNaN (a : number) : bool :=
  match a with NaN => true | _ => false end.

Definition isFinite (a : number) : bool :=
  match a with Finite _ => true | _ => false end.

End Number.
Export Number.

(** ** [parseFloat]

    ECMAScript [parseFloat]: leading white space is skipped, the longest
    prefix that is a [StrDecimalLiteral] is read, anything after it is
    ignored, and [NaN] is returned when no prefix qualifies; the result
    is the Number value for the decimal that was read.  Strings are byte
    strings here, so only the ASCII white space is recognised. *)

Module ParseFloat.

Definition is_white_space (c : ascii) : bool :=
  let n := nat_of_ascii c in
  (Nat.eqb n 9 || Nat.eqb n 10 || Nat.eqb n 11 || Nat.eqb n 12 || Nat.eqb n 13
   || Nat.eqb n 32)%bool.

Definition digit_value (c : ascii) : option Z :=
  let n := nat_of_ascii c in
  if (Nat.leb 48 n && Nat.leb n 57)%bool then Some (Z.of_nat (n - 48)) else None.

Fixpoint trim_start (s : string) : string :=
  match s with
  | String c s' => if is_white_space c then trim_start s' else s
  | EmptyString => s
  end.

(** [DecimalDigits] at the head of [s]: the value read so far, the number of
    digits read, and what follows them. *)
Fixpoint decimal_digits (s : string) (acc : Z) (count : nat) : Z * nat * string :=
  match s with
  | String c s' =>
      match digit_value c with
      | Some d => decimal_digits s' (10 * acc + d) (S count)
      | None => (acc, count, s)
      end
  | EmptyString => (acc, count, s)
  end.

(** [ExponentPart], when one is there; otherwise the exponent is 0. *)
Definition exponent_part (s : string) : Z :=
  match s with
  | String c s' =>
      if (Ascii.eqb c "e"%char || Ascii.eqb c "E"%char)%bool then
        match s' with
        | String "-"%char s'' =>
            let '(v, n, _) := decimal_digits s'' 0 0 in
            if Nat.eqb n 0 then 0 else - v
        | String "+"%char s'' =>
            let '(v, n, _) := decimal_digits s'' 0 0 in
            if Nat.eqb n 0 then 0 else v
        | _ =>
            let '(v, n, _) := decimal_digits s' 0 0 in
            if Nat.eqb n 0 then 0 else v
        end
      else 0
  | EmptyString => 0
  end.

(** [m * 10 ^ e] *)
Definition scale10 (m e : Z) : Q :=
  if 0 <=? e then inject_Z (m * 10 ^ e)
  else Qred (Qmake m (Z.to_pos (10 ^ (- e)))).

Definition str_unsigned_decimal_literal (s : string) : option number :=
  if String.prefix "Infinity" s then Some (Infinity false)
  else
    let '(ip, ni, r1) := decimal_digits s 0 0 in
    match r1 with
    | String "."%char r2 =>
        let '(fp, nf, r3) := decimal_digits r2 0 0 in
        if (Nat.eqb ni 0 && Nat.eqb nf 0)%bool then None
        else
          let m := ip * 10 ^ Z.of_nat nf + fp in
          Some (binary64 (scale10 m (exponent_part r3 - Z.of_nat nf)))
    | _ =>
        if Nat.eqb ni 0 then None
        else Some (binary64 (scale10 ip (exponent_part r1)))
    end.

Definition negate (a : number) : number :=
  match a with
  | NaN => NaN
  | Infinity s => Infinity (negb s)
  | Finite q => Finite (- q)
  end.

Definition parseFloat (input : string) : number :=
  match trim_start input with
  | String "-"%char s =>
      match str_unsigned_decimal_literal s with
      | Some v => negate v
      | None => NaN
      end
  | String "+"%char s =>
      match str_unsigned_decimal_literal s with
      | Some v => v
      | None => NaN
      end
  | s =>
      match str_unsigned_decimal_literal s with
      | Some v => v
      | None => NaN
      end
  end.

End ParseFloat.
Export ParseFloat.

(** ** Editor state and [handleInputChange]

    [EditorState] is a JavaScript object; [handleInputChange] writes it
    through the computed key [[id]], so it is a finite map from property
    names to numbers.  A property that is absent reads as [undefined],
    which is [NaN] in arithmetic. *)

Record ChangeEvent := { target_id : string; target_value : string }.

Definition initialState : gmap string number :=
  <["scale" := of_Z 6]> (<["numSplits" := of_Z 1]> (<["horizontalRepeat" := of_Z 1]> ∅)).

Definition field (st : gmap string number) (key : string) : number :=
  match st !! key with
  | Some v => v
  | None => NaN
  end.

(** The updater handed to [setEditorState]. *)
Definition handleInputChange (event : ChangeEvent) (prev : gmap string number)
  : gmap string number :=
  let id := target_id event in
  let value := target_value event in
  let numValue := parseFloat value in
  <[ id := if gt numValue (of_Z 0) then numValue else of_Z 1 ]> prev.

(** ** Pixels, bitmaps and data URLs *)

Module Canvas2D.

Record RGBA := { red : Z; green : Z; blue : Z; alpha : Z }.

Definition white : RGBA := {| red := 255; green := 255; blue := 255; alpha := 255 |}.
Definition transparent_black : RGBA := {| red := 0; green := 0; blue := 0; alpha := 0 |}.

(** [a / b] rounded to the nearest integer. *)
Definition div_round (a b : Z) : Z := (2 * a + b) / (2 * b).

(** The default compositing operator, [source-over], on straight
    (unpremultiplied) 8-bit channels.  Browsers differ in how they round
    partially transparent pixels; an opaque source replaces the
    destination and a fully transparent one leaves an opaque destination
    alone in all of them, and only that is used below. *)
Definition source_over (src dst : RGBA) : RGBA :=
  let sa := alpha src in
  let da := alpha dst in
  let oa := sa + div_round (da * (255 - sa)) 255 in
  let mix (s d : Z) :=
    if oa =? 0 then 0
    else div_round (s * sa * 255 + d * da * (255 - sa)) (255 * oa) in
  {| red := mix (red src) (red dst);
     green := mix (green src) (green dst);
     blue := mix (blue src) (blue dst);
     alpha := oa |}.

Record Bitmap := { width : Z; height : Z; pixel : Z -> Z -> RGBA }.

(** What [toDataURL] returns: ["data:,"] for a bitmap without pixels,
    otherwise a PNG, which is lossless and is kept as its rows of pixels. *)
Inductive DataURL :=
| EmptyData
| PngData (w h : Z) (rows : list (list RGBA)).

Definition rows_of (b : Bitmap) : list (list RGBA) :=
  map (fun y => map (fun x => pixel b (Z.of_nat x) (Z.of_nat y))
                    (seq 0 (Z.to_nat (width b))))
      (seq 0 (Z.to_nat (height b))).

Definition toDataURL (canvas : Bitmap) : DataURL :=
  if (width canvas <=? 0) || (height canvas <=? 0) then EmptyData
  else PngData (width canvas) (height canvas) (rows_of canvas).

(** [new Image(); image.src = url]: [Some] is the bitmap that [onload]
    sees, [None] an image whose [load] event never fires ([error] does). *)
Definition load_image (url : DataURL) : option Bitmap :=
  match url with
  | EmptyData => None
  | PngData w h rows =>
      Some {| width := w; height := h;
              pixel := fun x y =>
                nth (Z.to_nat x) (nth (Z.to_nat y) rows nil) transparent_black |}
  end.

(** ** Abrupt completions *)

Inductive DOMException := InvalidStateError.

Inductive Abruption :=
| Thrown (e : DOMException)   (* inside an [async] handler: an unhandled rejection *)
| LoopForever                 (* a [for] loop whose test never fails *)
| LoadNeverFires              (* an awaited [onload] that is never called *)
| EarlyReturn.                (* a [return] before anything is drawn *)

Inductive completion (A : Type) :=
| Normal (a : A)
| Abrupt (r : Abruption).
Arguments Normal {A} a.
Arguments Abrupt {A} r.

Definition bind {A B} (c : completion A) (k : A -> completion B) : completion B :=
  match c with
  | Normal a => k a
  | Abrupt r => Abrupt r
  end.

Notation "'let*' x ':=' c 'in' k" := (bind c (fun x => k))
  (at level 10, x name, c at level 100, k at level 200).

(** ** [for (let i = 0; i < n; i++)] *)

Inductive LoopBound := Times (k : nat) | Unbounded.

(** How often the test [i < n] succeeds from [i = 0] on. *)
Definition iterations (n : number) : LoopBound :=
  match n with
  | Finite q => Times (Z.to_nat (Qceiling q))
  | Infinity false => Unbounded
  | _ => Times 0
  end.

Fixpoint iterate {S : Type} (k : nat) (i : Z) (body : Z -> S -> completion S) (s : S)
  : completion S :=
  match k with
  | O => Normal s
  | S k' => let* s' := body i s in iterate k' (i + 1) body s'
  end.

(** An unbounded loop is left only by an exception; its first iteration
    decides, because in both loops below the body throws at every index or
    at none ([slice_body_throws_uniformly], [repeat_body_throws_uniformly]). *)
Definition for_loop {S : Type} (n : number) (body : Z -> S -> completion S) (s : S)
  : completion S :=
  match iterations n with
  | Times k => iterate k 0 body s
  | Unbounded => let* s' := body 0 s in Abrupt LoopForever
  end.

(** ** The canvas element and its 2D context *)

(** The conversion of a number to an [unsigned long]: not finite gives 0,
    otherwise the integral part modulo 2^32. *)
Definition unsigned_long (v : number) : Z :=
  match v with
  | Finite q => truncate q mod 2 ^ 32
  | _ => 0
  end.

(** Setting [canvas.width] / [canvas.height]: the number is converted to
    an [unsigned long], and a value above 2^31 - 1 selects the attribute's
    default. *)
Definition dimension (default : Z) (v : number) : Z :=
  let t := unsigned_long v in
  if t <? 2 ^ 31 then t else default.

(** [fillRect(0, 0, width, height)]: no effect unless both are finite; a
    rectangle of positive size covers every pixel of a canvas that was
    sized by the same numbers, because the canvas is at most as wide and
    as high as they are ([dimension_le]). *)
Definition fill_covers (w h : number) : bool :=
  match w, h with
  | Finite a, Finite b => Qpos a && Qpos b
  | _, _ => false
  end.

Definition createCanvas (w h : number) : Bitmap :=
  {| width := dimension 300 w;
     height := dimension 150 h;
     pixel := fun _ _ => if fill_covers w h then white else transparent_black |}.

(** The current transformation matrix; the source uses the identity and
    [translate(0, T); scale(1, -1)]. *)
Inductive Transform := Identity | FlipAbout (T : Z).

Inductive CanvasImageSource :=
| ImageElement (b : Bitmap)
| CanvasElement (b : Bitmap).

Definition bitmap_of (s : CanvasImageSource) : Bitmap :=
  match s with ImageElement b | CanvasElement b => b end.

(** "Check the usability of the image argument": a canvas without pixels
    throws; an image element that has loaded is good. *)
Definition unusable (s : CanvasImageSource) : bool :=
  match s with
  | CanvasElement b => (width b <=? 0) || (height b <=? 0)
  | ImageElement _ => false
  end.

Definition value (a : number) : Q :=
  match a with Finite q => q | _ => 0%Q end.

Definition is_integer (q : Q) : bool := Qeq_bool q (inject_Z (Qfloor q)).

Record Rect := { rx : Q; ry : Q; rw : Q; rh : Q }.

Definition aligned (r : Rect) : bool :=
  is_integer (rx r) && is_integer (ry r) && is_integer (rw r) && is_integer (rh r).

Definition user_row (tr : Transform) (Y : Z) : Z :=
  match tr with
  | Identity => Y
  | FlipAbout T => T - 1 - Y
  end.

(** The colour that an unscaled, pixel-aligned [drawImage] brings to the
    canvas pixel [(X, Y)]: source pixel [(sx + X - dx, sy + Y' - dy)], for
    the part of the destination rectangle whose source lies in the image.
    (Rectangles of negative size, which the browser would mirror, do not
    arise from parameters that passed [handleInputChange]; they paint
    nothing here.) *)
Definition copied (image : Bitmap) (src dst : Rect) (tr : Transform) (X Y : Z)
  : option RGBA :=
  let Y' := user_row tr Y in
  let dx := Qfloor (rx dst) in
  let dy := Qfloor (ry dst) in
  let u := Qfloor (rx src) + (X - dx) in
  let v := Qfloor (ry src) + (Y' - dy) in
  if (dx <=? X) && (X <? dx + Qfloor (rw dst))
     && (dy <=? Y') && (Y' <? dy + Qfloor (rh dst))
     && (0 <=? u) && (u <? width image) && (0 <=? v) && (v <? height image)
  then Some (pixel image u v)
  else None.

Section Drawing.

(** The browser's resampling filter, for a [drawImage] that scales or is
    not pixel-aligned: the colour it brings to a canvas pixel, if any. *)
Variable resample : Bitmap -> Rect -> Rect -> Transform -> Z -> Z -> option RGBA.

Definition drawn (image : Bitmap) (src dst : Rect) (tr : Transform) (X Y : Z)
  : option RGBA :=
  if aligned src && aligned dst
     && Qeq_bool (rw src) (rw dst) && Qeq_bool (rh src) (rh dst)
  then copied image src dst tr X Y
  else resample image src dst tr X Y.

(** [ctx.drawImage(image, sx, sy, sw, sh, dx, dy, dw, dh)]: the image is
    checked first (a canvas without pixels throws whatever the other
    arguments are), then an argument that is not finite ends the call. *)
Definition drawImage9 (tr : Transform) (image : CanvasImageSource)
    (sx sy sw sh dx dy dw dh : number) (canvas : Bitmap) : completion Bitmap :=
  if unusable image then Abrupt (Thrown InvalidStateError)
  else if negb (forallb isFinite (sx :: sy :: sw :: sh :: dx :: dy :: dw :: dh :: nil))
  then Normal canvas
  else if Qzero (value sw) || Qzero (value sh) then Normal canvas
  else
    let src := {| rx := value sx; ry := value sy; rw := value sw; rh := value sh |} in
    let dst := {| rx := value dx; ry := value dy; rw := value dw; rh := value dh |} in
    Normal {| width := width canvas;
              height := height canvas;
              pixel := fun X Y =>
                match drawn (bitmap_of image) src dst tr X Y with
                | Some c => source_over c (pixel canvas X Y)
                | None => pixel canvas X Y
                end |}.

(** [ctx.drawImage(image, dx, dy, dw, dh)] *)
Definition drawImage5 (tr : Transform) (image : CanvasImageSource)
    (dx dy dw dh : number) (canvas : Bitmap) : completion Bitmap :=
  drawImage9 tr image (of_Z 0) (of_Z 0)
             (of_Z (width (bitmap_of image))) (of_Z (height (bitmap_of image)))
             dx dy dw dh canvas.

(** [ctx.drawImage(image, dx, dy)] *)
Definition drawImage3 (tr : Transform) (image : CanvasImageSource)
    (dx dy : number) (canvas : Bitmap) : completion Bitmap :=
  drawImage5 tr image dx dy
             (of_Z (width (bitmap_of image))) (of_Z (height (bitmap_of image)))
             canvas.

End Drawing.

(** A rectangle of whole pixels, and what a [drawImage] between two such
    rectangles of one size leaves at the canvas pixel [(X, Y)]. *)
Definition zrect (x y w h : Z) : Rect :=
  {| rx := inject_Z x; ry := inject_Z y; rw := inject_Z w; rh := inject_Z h |}.

Definition blit (image : Bitmap) (sx sy sw sh dx dy : Z) (tr : Transform)
    (canvas : Bitmap) (X Y : Z) : RGBA :=
  let Y' := user_row tr Y in
  let u := sx + (X - dx) in
  let v := sy + (Y' - dy) in
  if (dx <=? X) && (X <? dx + sw) && (dy <=? Y') && (Y' <? dy + sh)
     && (0 <=? u) && (u <? width image) && (0 <=? v) && (v <? height image)
  then source_over (pixel image u v) (pixel canvas X Y)
  else pixel canvas X Y.

End Canvas2D.
Export Canvas2D.

(** ** The pipeline: [processAndDownload] *)

(** [Promise.all] over the slices: every slice image is awaited, and the
    [onload] callbacks run one at a time in an order that the browser
    chooses.  The order is driven by a list of natural numbers: callback
    [m] is inserted among the callbacks [0 .. m-1] at the position given
    by entry [m], so every list yields an order of [0 .. n-1]. *)
Definition insert_at {A} (k : nat) (x : A) (l : list A) : list A :=
  firstn k l ++ x :: skipn k l.

Fixpoint arrival_order (sched : list nat) (n : nat) : list nat :=
  match n with
  | O => nil
  | S m => insert_at (Nat.modulo (nth m sched O) (S m)) m (arrival_order sched m)
  end.

Fixpoint load_all (urls : list DataURL) : completion (list Bitmap) :=
  match urls with
  | nil => Normal nil
  | u :: rest =>
      match load_image u with
      | Some b => let* bs := load_all rest in Normal (b :: bs)
      | None => Abrupt LoadNeverFires
      end
  end.

Section Pipeline.

Variable resample : Bitmap -> Rect -> Rect -> Transform -> Z -> Z -> option RGBA.
Variable sched : list nat.

(** 1. the scaled image (source lines 104-109) *)
Definition scaler (img : Bitmap) (scaledWidth : number) : completion Bitmap :=
  let scaledCanvas := createCanvas scaledWidth (of_Z (height img)) in
  drawImage5 resample Identity (ImageElement img)
             (of_Z 0) (of_Z 0) scaledWidth (of_Z (height img)) scaledCanvas.

(** 2. the slices (source lines 112-132) *)
Definition slice_body (img_height : Z) (scaledCanvas : Bitmap) (sliceWidth : number)
    (i : Z) (slices : list DataURL) : completion (list DataURL) :=
  let sliceCanvas := createCanvas sliceWidth (of_Z img_height) in
  let* sliceCanvas :=
    drawImage9 resample Identity (CanvasElement scaledCanvas)
               (mul (of_Z i) sliceWidth) (of_Z 0) sliceWidth (of_Z img_height)
               (of_Z 0) (of_Z 0) sliceWidth (of_Z img_height) sliceCanvas in
  Normal (slices ++ toDataURL sliceCanvas :: nil).

Definition slicer (img_height : Z) (scaledCanvas : Bitmap) (sliceWidth numSplits : number)
  : completion (list DataURL) :=
  for_loop numSplits (slice_body img_height scaledCanvas sliceWidth) nil.

(** 3. the vertical merge (source lines 135-163) *)
Definition draw_slice (img_height : Z) (i : nat) (sliceImg : Bitmap)
    (verticalCanvas : Bitmap) : completion Bitmap :=
  if Z.of_nat i mod 2 =? 1 then
    drawImage3 resample (FlipAbout ((Z.of_nat i + 1) * img_height))
               (ImageElement sliceImg) (of_Z 0) (of_Z 0) verticalCanvas
  else
    drawImage3 resample Identity (ImageElement sliceImg)
               (of_Z 0) (of_Z (Z.of_nat i * img_height)) verticalCanvas.

Definition on_load (img_height : Z) (images : list Bitmap)
    (acc : completion Bitmap) (i : nat) : completion Bitmap :=
  let* verticalCanvas := acc in
  match nth_error images i with
  | Some sliceImg => draw_slice img_height i sliceImg verticalCanvas
  | None => Normal verticalCanvas
  end.

Definition totalHeight (img_height : Z) (slices : list DataURL) : Z :=
  img_height * Z.of_nat (length slices).

Definition compositeVertical (img_height : Z) (sliceWidth : number)
    (slices : list DataURL) : completion Bitmap :=
  let verticalCanvas := createCanvas sliceWidth (of_Z (totalHeight img_height slices)) in
  let* images := load_all slices in
  fold_left (on_load img_height images)
            (arrival_order sched (length slices)) (Normal verticalCanvas).

(** 4. the horizontal repeat (source lines 166-175) *)
Definition repeatHorizontal (verticalCanvas : Bitmap) (sliceWidth : number)
    (total_height : Z) (horizontalRepeat : number) : completion Bitmap :=
  let finalCanvas := createCanvas (mul sliceWidth horizontalRepeat) (of_Z total_height) in
  for_loop horizontalRepeat
    (fun i finalCanvas =>
       drawImage3 resample Identity (CanvasElement verticalCanvas)
                  (mul (of_Z i) sliceWidth) (of_Z 0) finalCanvas)
    finalCanvas.

Definition scaledWidth_of (img : Bitmap) (editorState : gmap string number) : number :=
  mul (of_Z (width img)) (field editorState "scale").

Definition sliceWidth_of (img : Bitmap) (editorState : gmap string number) : number :=
  floor (div (scaledWidth_of img editorState) (field editorState "numSplits")).

(** The body of [img.onload]; [Normal href] is the download of [href]
    (step 5), an abrupt completion leaves the promise of
    [processAndDownload] pending and nothing is downloaded. *)
Definition processAndDownload (img : Bitmap) (editorState : gmap string number)
  : completion DataURL :=
  let numSplits := field editorState "numSplits" in
  let scaledWidth := scaledWidth_of img editorState in
  let sliceWidth := sliceWidth_of img editorState in
  let* scaledCanvas := scaler img scaledWidth in
  let* slices := slicer (height img) scaledCanvas sliceWidth numSplits in
  let* verticalCanvas := compositeVertical (height img) sliceWidth slices in
  let* finalCanvas :=
    repeatHorizontal verticalCanvas sliceWidth (totalHeight (height img) slices)
                     (field editorState "horizontalRepeat") in
  Normal (toDataURL finalCanvas).

End Pipeline.

(** ** ImageEditorBackup.tsx

    [handleInputChange], [createCanvas] and the scaling lines of
    [splitImage] are those of ImageEditor.tsx word for word. The vertical
    merge of [mergeAndDownload] (source lines 139-181) differs: it takes
    the slice size from the first slice and passes it to [drawImage]. *)

Module Backup.

Section Merge.

Variable resample : Bitmap -> Rect -> Rect -> Transform -> Z -> Z -> option RGBA.
Variable sched : list nat.

Definition draw_slice (sliceWidth sliceHeight : Z) (i : nat) (img : Bitmap)
    (verticalCanvas : Bitmap) : completion Bitmap :=
  if Z.of_nat i mod 2 =? 1 then
    drawImage5 resample (FlipAbout ((Z.of_nat i + 1) * sliceHeight))
               (ImageElement img) (of_Z 0) (of_Z 0)
               (of_Z sliceWidth) (of_Z sliceHeight) verticalCanvas
  else
    drawImage5 resample Identity (ImageElement img)
               (of_Z 0) (of_Z (Z.of_nat i * sliceHeight))
               (of_Z sliceWidth) (of_Z sliceHeight) verticalCanvas.

Definition on_load (sliceWidth sliceHeight : Z) (images : list Bitmap)
    (acc : completion Bitmap) (i : nat) : completion Bitmap :=
  let* verticalCanvas := acc in
  match nth_error images i with
  | Some img => draw_slice sliceWidth sliceHeight i img verticalCanvas
  | None => Normal verticalCanvas
  end.

Definition mergeVertical (imageSlices : list DataURL) : completion Bitmap :=
  match imageSlices with
  | nil => Abrupt EarlyReturn
  | first :: _ =>
      match load_image first with
      | None => Abrupt LoadNeverFires
      | Some firstImage =>
          let sliceWidth := width firstImage in
          let sliceHeight := height firstImage in
          let totalHeight := sliceHeight * Z.of_nat (length imageSlices) in
          let verticalCanvas := createCanvas (of_Z sliceWidth) (of_Z totalHeight) in
          let* images := load_all imageSlices in
          fold_left (on_load sliceWidth sliceHeight images)
                    (arrival_order sched (length imageSlices)) (Normal verticalCanvas)
      end
  end.

End Merge.

End Backup.

(** What the [onload] callback of slice [i] leaves at the canvas pixel
    [(X, Y)]: the slice drawn at its natural size, below the slices before
    it, upside down when [i] is odd. *)
Definition slice_blit (img_height : Z) (i : nat) (sliceImg canvas : Bitmap) (X Y : Z)
  : RGBA :=
  if Z.of_nat i mod 2 =? 1 then
    blit sliceImg 0 0 (width sliceImg) (height sliceImg) 0 0
         (FlipAbout ((Z.of_nat i + 1) * img_height)) canvas X Y
  else
    blit sliceImg 0 0 (width sliceImg) (height sliceImg) 0 (Z.of_nat i * img_height)
         Identity canvas X Y.

(** The canvas pixel [(X, Y)] once the callbacks listed in [order] have
    run: only the slice whose band holds row [Y] can have touched it. *)
Definition merged (img_height : Z) (images : list Bitmap) (order : list nat)
    (canvas : Bitmap) (X Y : Z) : RGBA :=
  let i := Z.to_nat (Y / img_height) in
  if existsb (Nat.eqb i) order then
    match nth_error images i with
    | Some sliceImg => slice_blit img_height i sliceImg canvas X Y
    | None => pixel canvas X Y
    end
  else pixel canvas X Y.

(** An image as it shows on a canvas that was painted white. *)
Definition over_white (img : Bitmap) : Bitmap :=
  {| width := width img;
     height := height img;
     pixel := fun x y => source_over (pixel img x y) white |}.

(** A single, fully transparent pixel. *)
Definition transparent_image : Bitmap :=
  {| width := 1; height := 1; pixel := fun _ _ => transparent_black |}.

(** A nearest-neighbour filter, to run the pipeline on concrete inputs. *)
Definition nearest (image : Bitmap) (src dst : Rect) (tr : Transform) (X Y : Z)
  : option RGBA :=
  let cx := (inject_Z X + (1 # 2))%Q in
  let cy := (inject_Z (user_row tr Y) + (1 # 2))%Q in
  if Qzero (rw dst) || Qzero (rh dst) then None
  else
    let u := Qfloor (rx src + (cx - rx dst) * rw src / rw dst) in
    let v := Qfloor (ry src + (cy - ry dst) * rh src / rh dst) in
    if Qle_bool (rx dst) cx && negb (Qle_bool (rx dst + rw dst) cx)
       && Qle_bool (ry dst) cy && negb (Qle_bool (ry dst + rh dst) cy)
       && (0 <=? u) && (u <? width image) && (0 <=? v) && (v <? height image)
    then Some (pixel image u v)
    else None.

Definition editor (scale numSplits horizontalRepeat : number) : gmap string number :=
  <["scale" := scale]> (<["numSplits" := numSplits]>
    (<["horizontalRepeat" := horizontalRepeat]> ∅)).

Definition grey (v : Z) : RGBA := {| red := v; green := v; blue := v; alpha := 255 |}.

(** A test image whose pixel [(x, y)] is the opaque grey [10 * y + x]. *)
Definition test_image (w h : Z) : Bitmap :=
  {| width := w; height := h; pixel := fun x y => grey (10 * y + x) |}.

Definition greys (u : completion DataURL) : list (list Z) :=
  match u with
  | Normal (PngData _ _ rows) => map (map red) rows
  | _ => nil
  end.

(** The decoded form of a slice that the Slicer can have made: [k] wide,
    [h] high and opaque, as every canvas that [createCanvas] painted white. *)
Definition slice_of_size (k h : Z) (u : DataURL) : Prop :=
  exists b,
    load_image u = Some b /\ width b = k /\ height b = h
    /\ forall x y, 0 <= x < k -> 0 <= y < h -> alpha (pixel b x y) = 255.


(** Two bitmaps that cannot be told apart. *)
Definition same_bitmap (b1 b2 : Bitmap) : Prop :=
  width b1 = width b2 /\ height b1 = height b2
  /\ forall X Y, pixel b1 X Y = pixel b2 X Y.

Definition same_completion (r1 r2 : completion Bitmap) : Prop :=
  match r1, r2 with
  | Normal c1, Normal c2 => same_bitmap c1 c2
  | Abrupt a1, Abrupt a2 => a1 = a2
  | _, _ => False
  end.

(** ** Sequences of input events *)

(** The value that [handleInputChange] stores for a parsed number. *)
Definition clamp (numValue : number) : number :=
  if gt numValue (of_Z 0) then numValue else of_Z 1.

(** The editor state after the change events of a list, oldest first. *)
Definition run_events (events : list ChangeEvent) (st : gmap string number)
  : gmap string number :=
  fold_left (fun st event => handleInputChange event st) events st.

(** The latest event of a list that targets the input [key]. *)
Definition last_for (key : string) (events : list ChangeEvent) : option ChangeEvent :=
  find (fun event => String.eqb (target_id event) key) (rev events).

(** ** The whole output, pixel by pixel *)

(** Output pixel [(X, Y)] in terms of the scaled canvas: band [Y / h]
    shows slice [Y / h], upside down when that index is odd; column
    [X mod k] of the slice is column [(Y / h) * k + X mod k] of the scaled
    canvas, or white beyond its last column. *)
Definition weave (scaledCanvas : Bitmap) (k h : Z) (X Y : Z) : RGBA :=
  let i := Y / h in
  let col := i * k + X mod k in
  let row := if Z.odd i then h - 1 - Y mod h else Y mod h in
  if col <? width scaledCanvas then pixel scaledCanvas col row else white.

(** ** ImageEditorBackup.tsx: [splitImage] and [mergeAndDownload]

    Both build their arrays with [Array.from({ length: n })]: the length
    is [n] without its fraction, not below 0, and a length of 2^32 or
    more throws a [RangeError]. *)

Module BackupEditor.

Inductive result (A : Type) :=
| Ran (c : completion A)
| RangeError.
Arguments Ran {A} c.
Arguments RangeError {A}.

Definition array_length (n : number) : option nat :=
  match n with
  | Finite q =>
      let t := truncate q in
      if t <? 0 then Some O
      else if t <? 2 ^ 32 then Some (Z.to_nat t)
      else None
  | Infinity false => None
  | _ => Some O
  end.

Section Flow.

Variable resample : Bitmap -> Rect -> Rect -> Transform -> Z -> Z -> option RGBA.
Variable sched : list nat.

(** [splitImage] (source lines 90-136): the value handed to
    [setImageSlices].  The hidden canvas of [canvasRef] is mounted, and
    [filter(Boolean)] keeps every slice, since no data URL is the empty
    string. *)
Definition splitImage (img : Bitmap) (editorState : gmap string number)
  : result (list DataURL) :=
  let numSplits := field editorState "numSplits" in
  let scaledWidth := scaledWidth_of img editorState in
  let sliceWidth := sliceWidth_of img editorState in
  match scaler resample img scaledWidth with
  | Abrupt r => Ran (Abrupt r)
  | Normal mainCanvas =>
      match array_length numSplits with
      | None => RangeError
      | Some len =>
          Ran (iterate len 0 (slice_body resample (height img) mainCanvas sliceWidth) nil)
      end
  end.

(** [mergeAndDownload] (source lines 138-201); [Ran (Normal href)] is the
    download of [href]. *)
Definition mergeAndDownload (imageSlices : list DataURL)
    (editorState : gmap string number) : result DataURL :=
  match imageSlices with
  | nil => Ran (Abrupt EarlyReturn)
  | first :: _ =>
      match load_image first with
      | None => Ran (Abrupt LoadNeverFires)
      | Some firstImage =>
          let sliceWidth := width firstImage in
          let sliceHeight := height firstImage in
          let totalHeight := sliceHeight * Z.of_nat (length imageSlices) in
          match Backup.mergeVertical resample sched imageSlices with
          | Abrupt r => Ran (Abrupt r)
          | Normal verticalCanvas =>
              let finalCanvas :=
                createCanvas (mul (of_Z sliceWidth) (field editorState "horizontalRepeat"))
                             (of_Z totalHeight) in
              match array_length (field editorState "horizontalRepeat") with
              | None => RangeError
              | Some count =>
                  Ran (let* finalCanvas :=
                         iterate count 0
                           (fun i finalCanvas =>
                              drawImage3 resample Identity (CanvasElement verticalCanvas)
                                         (mul (of_Z i) (of_Z sliceWidth)) (of_Z 0)
                                         finalCanvas)
                           finalCanvas in
                       Normal (toDataURL finalCanvas))
              end
          end
      end
  end.

End Flow.

End BackupEditor.

(** ** ImageUpload.tsx and the container component

    The page keeps the uploaded file ([Container], [useState<File | null>])
    and the preview URL ([ImageUpload], [useState<string | null>]); object
    URLs live in the browser's blob URL store, numbered here in the order
    of their creation. *)

Module Upload.

Section Page.

Variable File : Type.

Record Page := {
  imageFile : option File;
  preview : option nat;
  blobs : gmap nat File;
  next_url : nat
}.

Definition initialPage : Page :=
  {| imageFile := None; preview := None; blobs := ∅; next_url := O |}.

(** [URL.createObjectURL(file)] *)
Definition createObjectURL (file : File) (p : Page) : nat * Page :=
  (next_url p,
   {| imageFile := imageFile p; preview := preview p;
      blobs := <[next_url p := file]> (blobs p); next_url := S (next_url p) |}).

(** [URL.revokeObjectURL(url)] *)
Definition revokeObjectURL (url : nat) (p : Page) : Page :=
  {| imageFile := imageFile p; preview := preview p;
     blobs := delete url (blobs p); next_url := next_url p |}.

(** [event.target.files?.[0]] *)
Definition first_file (files : option (list File)) : option File :=
  match files with
  | Some (file :: _) => Some file
  | _ => None
  end.

(** [handleFileChange]: the page after the call, and the function that the
    handler returns, if it returns one. *)
Definition handleFileChange (files : option (list File)) (p : Page)
  : Page * option (Page -> Page) :=
  match first_file files with
  | Some file =>
      let uploaded :=
        {| imageFile := Some file; preview := preview p;
           blobs := blobs p; next_url := next_url p |} in
      let '(objectUrl, created) := createObjectURL file uploaded in
      ({| imageFile := imageFile created; preview := Some objectUrl;
          blobs := blobs created; next_url := next_url created |},
       Some (revokeObjectURL objectUrl))
  | None => (p, None)
  end.

(** The [onChange] of the file input: React calls the handler and drops
    what it returns. *)
Definition onChange (p : Page) (files : option (list File)) : Page :=
  fst (handleFileChange files p).

Definition after_changes (history : list (option (list File))) : Page :=
  fold_left onChange history initialPage.

(** [{imageFile && <ImageEditor imageFile={imageFile} />}] *)
Definition editor_rendered (p : Page) : bool :=
  match imageFile p with Some _ => true | None => false end.

(** A change of the file input that carries a file. *)
Definition has_file (files : option (list File)) : bool :=
  match first_file files with Some _ => true | None => false end.

(** Object URLs are fresh, and the preview shows the uploaded file. *)
Definition page_consistent (p : Page) : Prop :=
  (forall url, is_Some (blobs p !! url) -> (url < next_url p)%nat)
  /\ match preview p with
     | Some url => exists file, blobs p !! url = Some file /\ imageFile p = Some file
     | None => imageFile p = None
     end.

End Page.

End Upload.

(** ** Test data *)

Definition test_slices : list DataURL :=
  [ PngData 2 2 [[grey 0; grey 1]; [grey 10; grey 11]];
    PngData 2 2 [[grey 2; grey 3]; [grey 12; grey 13]] ].

Definition test_composite : Bitmap := test_image 2 3.

(** ** Tactics *)

(** Boolean comparisons in the context, as propositions. *)
Ltac reflect_comparisons :=
  repeat match goal with
         | H : (_ && _) = true |- _ => apply andb_prop in H; destruct H
         | H : (_ <=? _) = true |- _ => apply Z.leb_le in H
         | H : (_ <=? _) = false |- _ => apply Z.leb_gt in H
         | H : (_ <? _) = true |- _ => apply Z.ltb_lt in H
         | H : (_ <? _) = false |- _ => apply Z.ltb_ge in H
         end.

(** * Properties *)

(** ** Concrete runs *)

Example parse_1 : parseFloat "2.5" = Finite (5 # 2).
Proof. reflexivity. Qed.
Example parse_2 : parseFloat "  -12.50e-1xyz" = Finite (- (5 # 4)).
Proof. reflexivity. Qed.
Example parse_3 : parseFloat "abc" = NaN.
Proof. reflexivity. Qed.
Example parse_4 : parseFloat "" = NaN.
Proof. reflexivity. Qed.
Example parse_5 : parseFloat ".5" = Finite (1 # 2).
Proof. reflexivity. Qed.
Example parse_6 : parseFloat "1e3" = Finite 1000.
Proof. reflexivity. Qed.
Example parse_7 : parseFloat "-Infinity" = Infinity true.
Proof. reflexivity. Qed.
Example parse_8 : parseFloat "3." = Finite 3.
Proof. reflexivity. Qed.
Example parse_9 : parseFloat "." = NaN.
Proof. reflexivity. Qed.
Example parse_10 : parseFloat "7e" = Finite 7.
Proof. reflexivity. Qed.

(** Rounding to binary64: in the text and in the operators. *)
Example parse_rounds : parseFloat "2.0000000000000001" = Finite 2.
Proof. vm_compute. reflexivity. Qed.
Example parse_underflow : parseFloat "1e-400" = Finite 0.
Proof. vm_compute. reflexivity. Qed.
Example parse_overflow : parseFloat "1e400" = Infinity false.
Proof. vm_compute. reflexivity. Qed.
Example mul_rounds :
  parseFloat "1.3333333333333333" = Finite (6004799503160661 # 4503599627370496)
  /\ mul (of_Z 3) (Finite (6004799503160661 # 4503599627370496)) = of_Z 4.
Proof. vm_compute. split; reflexivity. Qed.
Example div_rounds :
  parseFloat "0.29" = Finite (5224175567749775 # 18014398509481984)
  /\ div (mul (of_Z 100) (Finite (5224175567749775 # 18014398509481984))) (of_Z 29)
     = Finite (9007199254740991 # 9007199254740992).
Proof. vm_compute. split; reflexivity. Qed.

Example run_2_splits_2_repeats :
  greys (processAndDownload nearest nil (test_image 4 2)
           (editor (of_Z 1) (of_Z 2) (of_Z 2)))
  = [[0; 1; 0; 1]; [10; 11; 10; 11]; [12; 13; 12; 13]; [2; 3; 2; 3]].
Proof. vm_compute. reflexivity. Qed.

Example run_fractional_splits :
  greys (processAndDownload nearest [3; 2; 1]%nat (test_image 5 2)
           (editor (of_Z 1) (Finite (5 # 2)) (of_Z 1)))
  = [[0; 1]; [10; 11]; [12; 13]; [2; 3]; [4; 255]; [14; 255]].
Proof. vm_compute. reflexivity. Qed.

(** The example of the specification at a tenth of its size: 10 x 5,
    scale 2, 4 splits, 3 repeats give slices of width 5 and a 15 x 20 image. *)
Example run_sizes :
  match processAndDownload nearest nil (test_image 10 5)
          (editor (of_Z 2) (of_Z 4) (of_Z 3)) with
  | Normal (PngData w h rows) => (w, h, length rows, map (@length RGBA) rows)
  | _ => (0, 0, O, nil)
  end = (15, 20, 20%nat, repeat 15%nat 20).
Proof. vm_compute. reflexivity. Qed.

Example run_scaled_width_below_one :
  processAndDownload nearest nil (test_image 1 2)
    (editor (Finite (1 # 2)) (of_Z 1) (of_Z 1))
  = Abrupt (Thrown InvalidStateError).
Proof. vm_compute. reflexivity. Qed.

Example run_unbounded_splits :
  processAndDownload nearest nil (test_image 3 2)
    (editor (of_Z 1) (Infinity false) (of_Z 1))
  = Abrupt LoopForever.
Proof. vm_compute. reflexivity. Qed.

Example run_fractional_repeat :
  greys (processAndDownload nearest nil (test_image 3 2)
           (editor (of_Z 1) (of_Z 1) (Finite (3 # 2))))
  = [[0; 1; 2; 0]; [10; 11; 12; 10]].
Proof. vm_compute. reflexivity. Qed.

Example run_arrival_order : arrival_order [5; 1; 0; 2; 7]%nat 5 = [2; 0; 4; 3; 1]%nat.
Proof. reflexivity. Qed.

(** ** Numbers *)

Lemma gt_zero_spec (v : number) :
  gt v (of_Z 0) = negb (isNaN v || le v (of_Z 0)).
Proof.
  destruct v as [|s|q]; simpl; try reflexivity.
  unfold gt, lt, le, of_Z. destruct (Qlt_le_dec (inject_Z 0) q); reflexivity.
Qed.

Lemma Qpos_true (q : Q) : (0 < q)%Q -> Qpos q = true.
Proof.
  intros H. unfold Qpos. destruct (Qlt_le_dec 0 q) as [_|Hle]; [reflexivity|].
  exfalso. apply (Qlt_not_le _ _ H Hle).
Qed.

Lemma Qneg_false (q : Q) : (0 <= q)%Q -> Qneg q = false.
Proof.
  intros H. unfold Qneg. destruct (Qlt_le_dec q 0) as [Hlt|_]; [|reflexivity].
  exfalso. apply (Qlt_not_le _ _ Hlt H).
Qed.

Lemma Qzero_false (q : Q) : ~ (q == 0)%Q -> Qzero q = false.
Proof.
  intros H. unfold Qzero. destruct (Qeq_bool q 0) eqn:E; [|reflexivity].
  exfalso. apply H. apply Qeq_bool_iff. exact E.
Qed.

Lemma inject_Z_pos (z : Z) : 0 < z -> (0 < inject_Z z)%Q.
Proof. intros H. change (inject_Z 0 < inject_Z z)%Q. rewrite <- Zlt_Qlt. exact H. Qed.

Lemma Qzero_inject_Z (z : Z) : z <> 0 -> Qzero (inject_Z z) = false.
Proof.
  intros H. apply Qzero_false. intros E. apply H.
  apply (eq_sym) in E. unfold Qeq in E. simpl in E. lia.
Qed.

Lemma is_integer_inject_Z (z : Z) : is_integer (inject_Z z) = true.
Proof. unfold is_integer. rewrite Qfloor_Z. apply Qeq_bool_iff. reflexivity. Qed.

(** ** Rounding to binary64 *)


Lemma round_half_even_bounds (x : Q) (a b : Z) :
  (inject_Z a <= x)%Q -> (x <= inject_Z b)%Q -> a <= round_half_even x <= b.
Proof.
  intros Ha Hb. unfold round_half_even.
  assert (H1 : a <= Qfloor x).
  { rewrite <- (Qfloor_Z a). apply Qfloor_resp_le. exact Ha. }
  assert (H2 : Qfloor x <= b).
  { rewrite <- (Qfloor_Z b). apply Qfloor_resp_le. exact Hb. }
  assert (H3 : (inject_Z (Qfloor x) < x)%Q -> Qfloor x + 1 <= b).
  { intros Hlt. assert (Qfloor x < b); [|lia].
    rewrite Zlt_Qlt. eapply Qlt_le_trans; [exact Hlt|exact Hb]. }
  destruct (Qcompare_spec (x - inject_Z (Qfloor x)) (1 # 2)) as [E|E|E].
  - destruct (Z.even (Qfloor x)); [lia|].
    split; [lia|]. apply H3. lra.
  - lia.
  - split; [lia|]. apply H3. lra.
Qed.

Lemma round_half_even_Z (z : Z) : round_half_even (inject_Z z) = z.
Proof.
  pose proof (round_half_even_bounds (inject_Z z) z z (Qle_refl _) (Qle_refl _)). lia.
Qed.

Lemma round_half_even_below (x : Q) (M : Z) :
  (x < inject_Z M - (1 # 2))%Q -> round_half_even x < M.
Proof.
  intros Hx. unfold round_half_even.
  pose proof (Qfloor_le x) as Hf.
  assert (H1 : Qfloor x < M).
  { rewrite Zlt_Qlt. lra. }
  assert (H2 : ((1 # 2) <= x - inject_Z (Qfloor x))%Q -> Qfloor x + 1 < M).
  { intros Hge. assert (Qfloor x < M - 1); [|lia].
    rewrite Zlt_Qlt. unfold Z.sub. rewrite inject_Z_plus, inject_Z_opp.
    change (inject_Z 1) with 1%Q. lra. }
  destruct (Qcompare_spec (x - inject_Z (Qfloor x)) (1 # 2)) as [E|E|E].
  - destruct (Z.even (Qfloor x)); [lia|]. apply H2. lra.
  - lia.
  - apply H2. lra.
Qed.

#[global] Instance round_half_even_comp : Proper (Qeq ==> eq) round_half_even.
Proof.
  intros x y E. unfold round_half_even. rewrite (Qfloor_comp x y E).
  rewrite (Qcompare_comp (x - inject_Z (Qfloor y))%Q (y - inject_Z (Qfloor y))%Q
             ltac:(lra) (1 # 2) (1 # 2) (Qeq_refl _)).
  reflexivity.
Qed.

Lemma exponent_range (F : Z) :
  0 <= F < 2 ^ 1127 -> 0 <= Z.max (Z.log2 F - 52) 0 <= 1074.
Proof.
  intros HF. destruct (Z.eq_dec F 0) as [->|Hne].
  - change (Z.log2 0) with 0. lia.
  - assert (Z.log2 F < 1127) by (apply Z.log2_lt_pow2; lia). lia.
Qed.

Lemma pow2_split (e : Z) : 0 <= e <= 1074 -> 2 ^ 1074 = 2 ^ (1074 - e) * 2 ^ e.
Proof. intros He. rewrite <- Z.pow_add_r by lia. f_equal. lia. Qed.

Lemma Qfloor_ge (x : Q) (z : Z) : (inject_Z z <= x)%Q -> z <= Qfloor x.
Proof. intros H. rewrite <- (Qfloor_Z z). apply Qfloor_resp_le. exact H. Qed.

Lemma Qfloor_le_Z (x : Q) (z : Z) : (x <= inject_Z z)%Q -> Qfloor x <= z.
Proof. intros H. rewrite <- (Qfloor_Z z). apply Qfloor_resp_le. exact H. Qed.

Lemma nearest_multiple_bounds (a : Q) (lo hi : Z) :
  0 <= lo -> (a < inject_Z (2 ^ 53))%Q ->
  (inject_Z lo <= a)%Q -> (a <= inject_Z hi)%Q ->
  lo * 2 ^ 1074 <= nearest_multiple a <= hi * 2 ^ 1074.
Proof.
  intros Hlo Hhi Ha1 Ha2. unfold nearest_multiple.
  set (x := (a * inject_Z (2 ^ 1074))%Q).
  assert (HS : 0 < 2 ^ 1074) by (apply Z.pow_pos_nonneg; lia).
  assert (Hx1 : (inject_Z (lo * 2 ^ 1074) <= x)%Q).
  { rewrite inject_Z_mult. unfold x. apply Qmult_le_compat_r; [exact Ha1|].
    change 0%Q with (inject_Z 0). rewrite <- Zle_Qle. lia. }
  assert (Hx2 : (x <= inject_Z (hi * 2 ^ 1074))%Q).
  { rewrite inject_Z_mult. unfold x. apply Qmult_le_compat_r; [exact Ha2|].
    change 0%Q with (inject_Z 0). rewrite <- Zle_Qle. lia. }
  pose proof (Qfloor_ge _ _ Hx1) as HF1. pose proof (Qfloor_le_Z _ _ Hx2) as HF2.
  assert (HF : 0 <= Qfloor x < 2 ^ 1127).
  { split; [nia|]. rewrite Zlt_Qlt. eapply Qle_lt_trans; [apply Qfloor_le|].
    change (2 ^ 1127) with (2 ^ 53 * 2 ^ 1074). rewrite inject_Z_mult. unfold x.
    apply Qmult_lt_compat_r; [|exact Hhi].
    change 0%Q with (inject_Z 0). rewrite <- Zlt_Qlt. exact HS. }
  pose proof (exponent_range _ HF) as He.
  set (e := Z.max (Z.log2 (Qfloor x) - 52) 0) in *.
  pose proof (pow2_split e He) as Hsplit.
  assert (HP : 0 < 2 ^ e) by (apply Z.pow_pos_nonneg; lia).
  assert (HR : 0 < 2 ^ (1074 - e)) by (apply Z.pow_pos_nonneg; lia).
  assert (HPq : (0 < inject_Z (2 ^ e))%Q).
  { change 0%Q with (inject_Z 0). rewrite <- Zlt_Qlt. exact HP. }
  destruct (round_half_even_bounds (x / inject_Z (2 ^ e))
              (lo * 2 ^ (1074 - e)) (hi * 2 ^ (1074 - e))) as [Hm1 Hm2].
  - apply Qle_shift_div_l; [exact HPq|]. rewrite <- inject_Z_mult.
    replace (lo * 2 ^ (1074 - e) * 2 ^ e) with (lo * 2 ^ 1074)
      by (rewrite Hsplit; ring).
    exact Hx1.
  - apply Qle_shift_div_r; [exact HPq|]. rewrite <- inject_Z_mult.
    replace (hi * 2 ^ (1074 - e) * 2 ^ e) with (hi * 2 ^ 1074)
      by (rewrite Hsplit; ring).
    exact Hx2.
  - rewrite Hsplit.
    set (m := round_half_even (x / inject_Z (2 ^ e))) in *.
    clearbody m. generalize dependent (2 ^ e). generalize dependent (2 ^ (1074 - e)).
    intros R HR Hm1 Hm2 P _ HP _. nia.
Qed.

Lemma round_half_even_lower (x : Q) (a : Z) :
  (inject_Z a <= x)%Q -> a <= round_half_even x.
Proof.
  intros Ha.
  destruct (round_half_even_bounds x a (Qceiling x) Ha (Qle_ceiling x)) as [H _].
  exact H.
Qed.

Lemma round_half_even_upper (x : Q) (b : Z) :
  (x <= inject_Z b)%Q -> round_half_even x <= b.
Proof.
  intros Hb.
  destruct (round_half_even_bounds x (Qfloor x) b (Qfloor_le x) Hb) as [_ H].
  exact H.
Qed.

Lemma inject_Z_nonneg (z : Z) : 0 <= z -> (0 <= inject_Z z)%Q.
Proof. intros H. change 0%Q with (inject_Z 0). rewrite <- Zle_Qle. exact H. Qed.

Lemma nearest_multiple_nonneg (a : Q) : (0 <= a)%Q -> 0 <= nearest_multiple a.
Proof.
  intros Ha. unfold nearest_multiple.
  set (x := (a * inject_Z (2 ^ 1074))%Q).
  set (e := Z.max (Z.log2 (Qfloor x) - 52) 0).
  assert (HP : 0 < 2 ^ e) by (apply Z.pow_pos_nonneg; lia).
  assert (Hx : (0 <= x)%Q).
  { unfold x. apply Qmult_le_0_compat; [exact Ha|].
    apply inject_Z_nonneg. apply Z.pow_nonneg. lia. }
  assert (0 <= round_half_even (x / inject_Z (2 ^ e))).
  { apply round_half_even_lower. apply Qle_shift_div_l; [apply inject_Z_pos; exact HP|].
    change (inject_Z 0) with 0%Q. lra. }
  nia.
Qed.

(** From 2^53 on the nearest double is a whole number. *)
Lemma nearest_multiple_large (a : Q) :
  (inject_Z (2 ^ 53) <= a)%Q ->
  exists z, nearest_multiple a = z * 2 ^ 1074 /\ 2 ^ 53 <= z.
Proof.
  intros Ha. unfold nearest_multiple.
  set (x := (a * inject_Z (2 ^ 1074))%Q).
  assert (Hx : (inject_Z (2 ^ 53 * 2 ^ 1074) <= x)%Q).
  { rewrite inject_Z_mult. unfold x. apply Qmult_le_compat_r; [exact Ha|].
    apply inject_Z_nonneg. apply Z.pow_nonneg. lia. }
  pose proof (Qfloor_ge _ _ Hx) as HF.
  change (2 ^ 53 * 2 ^ 1074) with (2 ^ 1127) in *.
  assert (HF0 : 0 < Qfloor x).
  { eapply Z.lt_le_trans; [|exact HF]. apply Z.pow_pos_nonneg; lia. }
  assert (HL : 1127 <= Z.log2 (Qfloor x)) by (apply Z.log2_le_pow2; [exact HF0|exact HF]).
  pose proof (Z.log2_spec _ HF0) as [HL1 _].
  set (L := Z.log2 (Qfloor x)) in *.
  replace (Z.max (L - 52) 0) with (L - 52) by lia.
  assert (HP : 0 < 2 ^ (L - 52)) by (apply Z.pow_pos_nonneg; lia).
  assert (Hsplit : 2 ^ L = 2 ^ 52 * 2 ^ (L - 52)).
  { rewrite <- Z.pow_add_r by lia. f_equal. lia. }
  assert (Hm : 2 ^ 52 <= round_half_even (x / inject_Z (2 ^ (L - 52)))).
  { apply round_half_even_lower. apply Qle_shift_div_l; [apply inject_Z_pos; exact HP|].
    rewrite <- inject_Z_mult, <- Hsplit.
    eapply Qle_trans; [|apply Qfloor_le]. rewrite <- Zle_Qle. exact HL1. }
  set (m := round_half_even (x / inject_Z (2 ^ (L - 52)))) in *. clearbody m.
  assert (Hq : 2 ^ (L - 52) = 2 ^ (L - 1126) * 2 ^ 1074).
  { rewrite <- Z.pow_add_r by lia. f_equal. lia. }
  assert (HQ : 2 ^ 1 <= 2 ^ (L - 1126)) by (apply Z.pow_le_mono_r; lia).
  exists (m * 2 ^ (L - 1126)). split; [rewrite Hq; ring|].
  change (2 ^ 53) with (2 ^ 52 * 2 ^ 1). nia.
Qed.

(** The nearest multiple has a significand of at most 53 bits. *)
Lemma nearest_multiple_form (a : Q) :
  (0 <= a)%Q ->
  exists m e, nearest_multiple a = m * 2 ^ e /\ 0 <= e /\ 0 <= m < 2 ^ 53.
Proof.
  intros Ha.
  assert (Hcore : exists m e, nearest_multiple a = m * 2 ^ e /\ 0 <= e /\ 0 <= m <= 2 ^ 53).
  { unfold nearest_multiple.
    set (x := (a * inject_Z (2 ^ 1074))%Q).
    assert (Hx : (0 <= x)%Q).
    { unfold x. apply Qmult_le_0_compat; [exact Ha|].
      apply inject_Z_nonneg. apply Z.pow_nonneg. lia. }
    pose proof (Qfloor_ge x 0 Hx) as HF.
    set (e := Z.max (Z.log2 (Qfloor x) - 52) 0).
    assert (He : 0 <= e) by lia.
    assert (HP : 0 < 2 ^ e) by (apply Z.pow_pos_nonneg; lia).
    exists (round_half_even (x / inject_Z (2 ^ e))), e.
    split; [reflexivity|]. split; [exact He|]. split.
    - apply round_half_even_lower. apply Qle_shift_div_l; [apply inject_Z_pos; exact HP|].
      change (inject_Z 0) with 0%Q. lra.
    - apply round_half_even_upper. apply Qle_shift_div_r; [apply inject_Z_pos; exact HP|].
      rewrite <- inject_Z_mult.
      apply Qle_trans with (inject_Z (Qfloor x + 1)); [apply Qlt_le_weak, Qlt_floor|].
      rewrite <- Zle_Qle.
      destruct (Z.eq_dec (Qfloor x) 0) as [E0|Hne].
      + rewrite E0. assert (1 <= 2 ^ 53) by lia. nia.
      + assert (HF0 : 0 < Qfloor x) by lia.
        pose proof (Z.log2_spec _ HF0) as [_ HL2].
        pose proof (Z.log2_nonneg (Qfloor x)) as HL0.
        assert (Hle : 2 ^ Z.succ (Z.log2 (Qfloor x)) <= 2 ^ (53 + e)).
        { apply Z.pow_le_mono_r; lia. }
        rewrite Z.pow_add_r in Hle by lia. lia. }
  destruct Hcore as (m & e & Hnm & He & Hm).
  destruct (Z.eq_dec m (2 ^ 53)) as [->|Hne].
  - exists (2 ^ 52), (e + 1). split; [|split; [lia|]].
    + rewrite Hnm, Z.pow_add_r by lia. change (2 ^ 53) with (2 ^ 52 * 2 ^ 1). ring.
    + split; [apply Z.pow_nonneg; lia|]. apply Z.pow_lt_mono_r; lia.
  - exists m, e. split; [exact Hnm|]. split; [exact He|]. lia.
Qed.

(** Dividing a double by a whole number never rounds up to the next
    integer: [c * g] is the dividend in units of 2^-1074, [g] its unit in
    the last place or the integer unit. *)
Lemma nearest_multiple_quotient (a : Q) (c g u n : Z) :
  0 <= c < 2 ^ 53 -> 0 < g -> 2 ^ 1074 = g * u -> 1 <= n ->
  (a * inject_Z (n * 2 ^ 1074) == inject_Z (c * g))%Q ->
  nearest_multiple a < (Qfloor a + 1) * 2 ^ 1074.
Proof.
  intros Hc Hg Hu Hn Ha.
  assert (HS : 2 ^ 54 <= 2 ^ 1074) by (apply Z.pow_le_mono_r; lia).
  assert (Hu0 : 0 < u) by nia.
  unfold nearest_multiple.
  set (x := (a * inject_Z (2 ^ 1074))%Q).
  assert (Hxn : (x * inject_Z n == inject_Z (c * g))%Q).
  { unfold x. rewrite <- Ha, inject_Z_mult. ring. }
  assert (Hnq : (0 < inject_Z n)%Q) by (apply inject_Z_pos; lia).
  assert (HSq : (0 < inject_Z (2 ^ 1074))%Q) by (apply inject_Z_pos; lia).
  assert (Ha0 : (0 <= a)%Q).
  { assert (H0 : (0 <= a * inject_Z (n * 2 ^ 1074))%Q).
    { rewrite Ha. apply inject_Z_nonneg. nia. }
    assert (Hpos : (0 < inject_Z (n * 2 ^ 1074))%Q) by (apply inject_Z_pos; nia).
    destruct (Qlt_le_dec a 0) as [Hneg|Hok]; [|exact Hok].
    exfalso. apply (Qlt_irrefl 0). eapply Qle_lt_trans; [exact H0|].
    rewrite <- (Qmult_0_l (inject_Z (n * 2 ^ 1074))).
    apply Qmult_lt_compat_r; assumption. }
  assert (Hx0 : (0 <= x)%Q).
  { unfold x. apply Qmult_le_0_compat; [exact Ha0|apply Qlt_le_weak; exact HSq]. }
  set (k := Qfloor a). set (F := Qfloor x).
  assert (Hk0 : 0 <= k) by (apply Qfloor_ge; exact Ha0).
  assert (HF0 : 0 <= F) by (apply Qfloor_ge; exact Hx0).
  (* (k + 1) n S > c g *)
  assert (Hk : c * g < (k + 1) * (n * 2 ^ 1074)).
  { rewrite Zlt_Qlt, (inject_Z_mult (k + 1) (n * 2 ^ 1074)), <- Ha.
    apply Qmult_lt_compat_r; [apply inject_Z_pos; nia|apply Qlt_floor]. }
  (* n F <= c g < n (F + 1) *)
  assert (HF1 : F * n <= c * g).
  { rewrite Zle_Qle, (inject_Z_mult F n), <- Hxn.
    apply Qmult_le_compat_r; [apply Qfloor_le|apply Qlt_le_weak; exact Hnq]. }
  assert (HF2 : c * g < (F + 1) * n).
  { rewrite Zlt_Qlt, (inject_Z_mult (F + 1) n), <- Hxn.
    apply Qmult_lt_compat_r; [exact Hnq|apply Qlt_floor]. }
  assert (HF : 0 <= F < 2 ^ 1127).
  { split; [exact HF0|]. change (2 ^ 1127) with (2 ^ 53 * 2 ^ 1074).
    rewrite Hu in *. nia. }
  pose proof (exponent_range _ HF) as He.
  set (e := Z.max (Z.log2 F - 52) 0) in *.
  pose proof (pow2_split e He) as Hsplit.
  assert (HP : 0 < 2 ^ e) by (apply Z.pow_pos_nonneg; lia).
  assert (HR : 0 < 2 ^ (1074 - e)) by (apply Z.pow_pos_nonneg; lia).
  (* the gap to the next integer is at least one unit of the dividend *)
  assert (HD : g <= (k + 1) * (n * 2 ^ 1074) - c * g).
  { rewrite Hu in *. assert (1 <= (k + 1) * n * u - c) by nia. nia. }
  (* one unit in the last place of the quotient is less than twice that *)
  assert (Hulp : 2 ^ e * n < 2 * ((k + 1) * (n * 2 ^ 1074) - c * g)).
  { destruct (Z.eq_dec F 0) as [E0|Hne].
    - unfold e. rewrite E0. change (Z.max (Z.log2 0 - 52) 0) with 0.
      change (2 ^ 0) with 1. rewrite E0 in HF2. nia.
    - assert (HFpos : 0 < F) by lia.
      pose proof (Z.log2_spec _ HFpos) as [HL1 HL2].
      pose proof (Z.log2_nonneg F) as HL0.
      destruct (Z_le_gt_dec (Z.log2 F) 52) as [Hsmall|Hbig].
      + unfold e. rewrite Z.max_r by lia. change (2 ^ 0) with 1.
        assert (HF53 : F + 1 <= 2 ^ 53).
        { assert (2 ^ Z.succ (Z.log2 F) <= 2 ^ 53) by (apply Z.pow_le_mono_r; lia). lia. }
        nia.
      + assert (Ee : e = Z.log2 F - 52) by (unfold e; lia).
        assert (HL : 2 ^ Z.log2 F = 2 ^ 52 * 2 ^ e).
        { rewrite Ee, <- Z.pow_add_r by lia. f_equal. lia. }
        rewrite HL in HL1.
        assert (2 ^ 52 * (2 ^ e * n) < 2 ^ 52 * (2 * g)); [|nia].
        change (2 ^ 52 * (2 * g)) with (2 ^ 52 * (2 * g)).
        assert (H53 : 2 ^ 53 = 2 ^ 52 * 2) by reflexivity.
        nia. }
  assert (Hm : round_half_even (x / inject_Z (2 ^ e)) < (k + 1) * 2 ^ (1074 - e)).
  { apply round_half_even_below.
    apply Qlt_shift_div_r; [apply inject_Z_pos; exact HP|].
    apply (Qmult_lt_r _ _ (inject_Z n) Hnq). rewrite Hxn.
    apply (Qmult_lt_l _ _ 2); [reflexivity|].
    assert (HZ : 2 * (c * g) + 2 ^ e * n < 2 * ((k + 1) * 2 ^ (1074 - e) * 2 ^ e * n)).
    { replace ((k + 1) * 2 ^ (1074 - e) * 2 ^ e * n) with ((k + 1) * (n * 2 ^ 1074))
        by (rewrite Hsplit; ring).
      lia. }
    rewrite Zlt_Qlt in HZ.
    rewrite inject_Z_plus, !inject_Z_mult in HZ.
    change (inject_Z 2) with 2%Q in HZ.
    rewrite !inject_Z_mult.
    set (cq := inject_Z c) in *. set (gq := inject_Z g) in *.
    set (Pq := inject_Z (2 ^ e)) in *. set (nq := inject_Z n) in *.
    set (Mq := (inject_Z (k + 1) * inject_Z (2 ^ (1074 - e)))%Q) in *.
    lra. }
  rewrite Hsplit. fold k.
  set (m := round_half_even (x / inject_Z (2 ^ e))) in *. clearbody m.
  replace ((k + 1) * (2 ^ (1074 - e) * 2 ^ e)) with ((k + 1) * 2 ^ (1074 - e) * 2 ^ e) by ring.
  apply Z.mul_lt_mono_pos_r; [exact HP|exact Hm].
Qed.

#[global] Instance nearest_multiple_comp : Proper (Qeq ==> eq) nearest_multiple.
Proof.
  intros a b E. unfold nearest_multiple.
  assert (Ex : (a * inject_Z (2 ^ 1074) == b * inject_Z (2 ^ 1074))%Q).
  { rewrite E. reflexivity. }
  rewrite (Qfloor_comp _ _ Ex).
  set (e := Z.max _ 0).
  assert (Ed : (a * inject_Z (2 ^ 1074) / inject_Z (2 ^ e)
                == b * inject_Z (2 ^ 1074) / inject_Z (2 ^ e))%Q).
  { rewrite Ex. reflexivity. }
  rewrite (round_half_even_comp _ _ Ed). reflexivity.
Qed.

Lemma Qneg_comp (a b : Q) : (a == b)%Q -> Qneg a = Qneg b.
Proof.
  intros E. unfold Qneg.
  destruct (Qlt_le_dec a 0) as [Ha|Ha]; destruct (Qlt_le_dec b 0) as [Hb|Hb];
    try reflexivity; exfalso; lra.
Qed.

#[global] Instance binary64_comp : Proper (Qeq ==> eq) binary64.
Proof.
  intros a b E. unfold binary64.
  assert (Eabs : (Qabs a == Qabs b)%Q) by (rewrite E; reflexivity).
  rewrite (nearest_multiple_comp _ _ Eabs), (Qneg_comp a b E). reflexivity.
Qed.

Lemma binary64_of_nonneg (q : Q) :
  (0 <= q)%Q ->
  binary64 q = if 2 ^ 2098 <=? nearest_multiple q then Infinity false
               else Finite (Qred (Qmake (nearest_multiple q) (2 ^ 1074))).
Proof.
  intros Hq. unfold binary64.
  rewrite (nearest_multiple_comp _ _ (Qabs_pos q Hq)), (Qneg_false q Hq). reflexivity.
Qed.

Lemma Qred_Qred (q : Q) : Qred (Qred q) = Qred q.
Proof. apply Qred_complete, Qred_correct. Qed.

Lemma Qred_inject_Z (z : Z) : Qred (inject_Z z) = inject_Z z.
Proof.
  unfold Qred, inject_Z.
  pose proof (Z.ggcd_gcd z 1) as Hg. pose proof (Z.ggcd_correct_divisors z 1) as Hd.
  destruct (Z.ggcd z 1) as (d, (aa, bb)). cbn [fst snd] in *.
  rewrite Z.gcd_1_r in Hg. subst d. destruct Hd as [H1 H2].
  rewrite Z.mul_1_l in H1, H2. subst aa bb. reflexivity.
Qed.

Lemma Zpos_pow2 : Zpos (2 ^ 1074) = 2 ^ 1074.
Proof. rewrite Pos2Z.inj_pow. reflexivity. Qed.

Lemma Qmake_unit (n : Z) : (Qmake n (2 ^ 1074) * inject_Z (2 ^ 1074) == inject_Z n)%Q.
Proof.
  unfold Qeq, Qmult, inject_Z. cbn [Qnum Qden]. rewrite Pos.mul_1_r, Zpos_pow2. ring.
Qed.

Lemma binary64_finite (q r : Q) :
  (0 <= q)%Q -> binary64 q = Finite r ->
  Qred r = r /\ (0 <= r)%Q /\ double r
  /\ (r * inject_Z (2 ^ 1074) == inject_Z (nearest_multiple q))%Q.
Proof.
  intros Hq H. rewrite (binary64_of_nonneg q Hq) in H.
  destruct (2 ^ 2098 <=? nearest_multiple q) eqn:E; [discriminate|].
  apply Z.leb_gt in E.
  assert (Er : Qred (Qmake (nearest_multiple q) (2 ^ 1074)) = r) by congruence.
  clear H. subst r.
  pose proof (nearest_multiple_nonneg q Hq) as H0.
  assert (Hr : (Qred (Qmake (nearest_multiple q) (2 ^ 1074)) * inject_Z (2 ^ 1074)
                == inject_Z (nearest_multiple q))%Q).
  { rewrite Qred_correct. apply Qmake_unit. }
  split; [apply Qred_Qred|]. split; [|split; [|exact Hr]].
  - rewrite Qred_correct. unfold Qle. cbn [Qnum Qden]. lia.
  - destruct (nearest_multiple_form q Hq) as (m & e & Hnm & He & Hm).
    exists m, e. split; [exact He|]. rewrite Z.abs_eq by lia.
    split; [lia|]. split; [lia|]. rewrite Qred_correct, Hnm. reflexivity.
Qed.

Lemma binary64_bounds (q : Q) (lo hi : Z) :
  0 <= lo -> (q < inject_Z (2 ^ 53))%Q ->
  (inject_Z lo <= q)%Q -> (q <= inject_Z hi)%Q ->
  exists r, binary64 q = Finite r /\ Qred r = r
            /\ (inject_Z lo <= r)%Q /\ (r <= inject_Z hi)%Q.
Proof.
  intros Hlo Hhi H1 H2.
  assert (Hq : (0 <= q)%Q).
  { eapply Qle_trans; [apply (inject_Z_nonneg lo Hlo)|exact H1]. }
  destruct (nearest_multiple_bounds q lo hi Hlo Hhi H1 H2) as [Hn1 Hn2].
  destruct (nearest_multiple_bounds q lo (2 ^ 53) Hlo Hhi H1) as [_ Hn3].
  { apply Qlt_le_weak. exact Hhi. }
  assert (HS : 0 < 2 ^ 1074) by (apply Z.pow_pos_nonneg; lia).
  rewrite (binary64_of_nonneg q Hq).
  destruct (2 ^ 2098 <=? nearest_multiple q) eqn:E.
  { exfalso. apply Z.leb_le in E. change (2 ^ 2098) with (2 ^ 1024 * 2 ^ 1074) in E.
    assert (2 ^ 53 < 2 ^ 1024) by (apply Z.pow_lt_mono_r; lia). nia. }
  eexists. split; [reflexivity|]. split; [apply Qred_Qred|].
  rewrite Qred_correct. unfold Qle, inject_Z. cbn [Qnum Qden]. rewrite Zpos_pow2.
  lia.
Qed.

Lemma binary64_Z (z : Z) : 0 <= z < 2 ^ 53 -> binary64 (inject_Z z) = Finite (inject_Z z).
Proof.
  intros Hz.
  destruct (binary64_bounds (inject_Z z) z z) as (r & Hr & Hred & H1 & H2);
    try lia; try apply Qle_refl.
  { rewrite <- Zlt_Qlt. lia. }
  rewrite Hr. f_equal. rewrite <- Hred, <- (Qred_inject_Z z).
  apply Qred_complete. apply Qle_antisym; assumption.
Qed.

Lemma binary64_large (q : Q) :
  (inject_Z (2 ^ 53) <= q)%Q ->
  (exists z, 2 ^ 53 <= z /\ binary64 q = Finite (inject_Z z))
  \/ binary64 q = Infinity false.
Proof.
  intros Hge.
  assert (Hq : (0 <= q)%Q).
  { eapply Qle_trans; [|exact Hge]. apply inject_Z_nonneg. apply Z.pow_nonneg. lia. }
  destruct (nearest_multiple_large q Hge) as (z & Hz & Hz53).
  rewrite (binary64_of_nonneg q Hq).
  destruct (2 ^ 2098 <=? nearest_multiple q); [right; reflexivity|].
  left. exists z. split; [exact Hz53|]. f_equal.
  rewrite <- (Qred_inject_Z z). apply Qred_complete. rewrite Hz.
  unfold Qeq, inject_Z. cbn [Qnum Qden]. rewrite Zpos_pow2. ring.
Qed.

Lemma binary64_small (q r : Q) :
  (0 <= q)%Q -> binary64 q = Finite r -> (r < inject_Z (2 ^ 53))%Q ->
  (q < inject_Z (2 ^ 53))%Q.
Proof.
  intros Hq H Hr.
  destruct (Qlt_le_dec q (inject_Z (2 ^ 53))) as [Hlt|Hge]; [exact Hlt|].
  exfalso. destruct (binary64_large q Hge) as [(z & Hz & Hb)|Hb]; [|congruence].
  assert (r = inject_Z z) by congruence. subst r.
  rewrite <- Zlt_Qlt in Hr. lia.
Qed.

Lemma Qfloor_div_Z (q : Q) (n : Z) :
  1 <= n -> Qfloor (q / inject_Z n) = Qfloor q / n.
Proof.
  intros Hn. destruct q as [a b]. destruct n as [|p|p]; try lia.
  unfold Qdiv, Qinv, Qmult, Qfloor, inject_Z. cbn [Qnum Qden].
  rewrite Z.mul_1_r, Pos2Z.inj_mul, Z.div_div by lia. reflexivity.
Qed.

Lemma div_of_Z_floor (p : Q) (n hi : Z) :
  double p -> (0 <= p)%Q -> (p <= inject_Z hi)%Q -> hi < 2 ^ 53 -> 1 <= n ->
  exists r, div (Finite p) (of_Z n) = Finite r /\ Qred r = r /\ (0 <= r)%Q
            /\ Qfloor r = Qfloor p / n.
Proof.
  intros (m & e & He & Hm & _ & Hp) Hp0 Hphi Hhi Hn.
  assert (HS : 0 < 2 ^ 1074) by (apply Z.pow_pos_nonneg; lia).
  assert (HSq : (0 < inject_Z (2 ^ 1074))%Q) by (apply inject_Z_pos; exact HS).
  assert (Hnq : (0 < inject_Z n)%Q) by (apply inject_Z_pos; lia).
  assert (HP : 0 < 2 ^ e) by (apply Z.pow_pos_nonneg; lia).
  assert (HpS : (p * inject_Z (2 ^ 1074) == inject_Z (m * 2 ^ e))%Q).
  { rewrite Hp. apply Qmake_unit. }
  assert (Hm0 : 0 <= m).
  { assert (H0 : (0 <= p * inject_Z (2 ^ 1074))%Q).
    { apply Qmult_le_0_compat; [exact Hp0|apply Qlt_le_weak; exact HSq]. }
    rewrite HpS in H0. change 0%Q with (inject_Z 0) in H0. rewrite <- Zle_Qle in H0. nia. }
  rewrite Z.abs_eq in Hm by exact Hm0.
  unfold div, of_Z. rewrite Qzero_inject_Z by lia.
  set (a := (p / inject_Z n)%Q).
  assert (Ha0 : (0 <= a)%Q).
  { unfold a. apply Qle_shift_div_l; [exact Hnq|]. lra. }
  assert (Hap : (a <= p)%Q).
  { unfold a. apply Qle_shift_div_r; [exact Hnq|].
    assert (Hn1 : (1 <= inject_Z n)%Q).
    { change 1%Q with (inject_Z 1). rewrite <- Zle_Qle. exact Hn. }
    nra. }
  assert (Han : (a * inject_Z (n * 2 ^ 1074) == inject_Z (m * 2 ^ e))%Q).
  { rewrite <- HpS, inject_Z_mult. unfold a. field. lra. }
  assert (Hk0 : 0 <= Qfloor a) by (apply Qfloor_ge; exact Ha0).
  assert (Hahi : (a <= inject_Z hi)%Q) by (eapply Qle_trans; [exact Hap|exact Hphi]).
  destruct (binary64_bounds a (Qfloor a) hi Hk0) as (r & Hr & Hred & Hr1 & _).
  { eapply Qle_lt_trans; [exact Hahi|]. rewrite <- Zlt_Qlt. exact Hhi. }
  { apply Qfloor_le. }
  { exact Hahi. }
  exists r. split; [exact Hr|]. split; [exact Hred|].
  destruct (binary64_finite a r Ha0 Hr) as (_ & Hr0 & _ & HrS).
  split; [exact Hr0|].
  rewrite <- (Qfloor_div_Z p n Hn). fold a.
  assert (Hup : nearest_multiple a < (Qfloor a + 1) * 2 ^ 1074).
  { destruct (Z_le_gt_dec e 1074) as [Hsmall|Hbig].
    - apply (nearest_multiple_quotient a m (2 ^ e) (2 ^ (1074 - e)) n); try lia.
      + rewrite <- Z.pow_add_r by lia. f_equal. lia.
      + exact Han.
    - assert (Esplit : 2 ^ e = 2 ^ (e - 1074) * 2 ^ 1074).
      { rewrite <- Z.pow_add_r by lia. f_equal. lia. }
      assert (HQ : 0 < 2 ^ (e - 1074)) by (apply Z.pow_pos_nonneg; lia).
      apply (nearest_multiple_quotient a (m * 2 ^ (e - 1074)) (2 ^ 1074) 1 n); try lia.
      + split; [nia|].
        assert (Hpc : (p == inject_Z (m * 2 ^ (e - 1074)))%Q).
        { apply (Qmult_inj_r _ _ (inject_Z (2 ^ 1074))); [lra|].
          rewrite HpS, <- inject_Z_mult, Esplit. apply inject_Z_injective. ring. }
        rewrite Hpc in Hphi. rewrite <- Zle_Qle in Hphi. lia.
      + rewrite Han, Esplit. apply inject_Z_injective. ring. }
  assert (Hlt : (r < inject_Z (Qfloor a + 1))%Q).
  { apply (Qmult_lt_r _ _ (inject_Z (2 ^ 1074)) HSq).
    rewrite HrS, <- inject_Z_mult, <- Zlt_Qlt. exact Hup. }
  pose proof (Qfloor_ge r (Qfloor a) Hr1) as Hge.
  assert (Qfloor r < Qfloor a + 1); [|lia].
  rewrite Zlt_Qlt. eapply Qle_lt_trans; [apply Qfloor_le|exact Hlt].
Qed.

Lemma mul_of_Z (a b : Z) :
  0 <= a * b < 2 ^ 53 -> mul (of_Z a) (of_Z b) = of_Z (a * b).
Proof.
  intros H. unfold mul, of_Z.
  change (inject_Z a * inject_Z b)%Q with (inject_Z (a * b)).
  apply binary64_Z. exact H.
Qed.

(** The product of two whole numbers: exact below 2^53; from 2^53 on it
    is a whole number of 2^53 or more, or the positive infinity. *)
Lemma mul_of_Z_cases (a b : Z) :
  0 <= a * b ->
  (exists z, mul (of_Z a) (of_Z b) = of_Z z
             /\ (z = a * b \/ (2 ^ 53 <= z /\ 2 ^ 53 <= a * b)))
  \/ (mul (of_Z a) (of_Z b) = Infinity false /\ 2 ^ 53 <= a * b).
Proof.
  intros H. destruct (Z_lt_le_dec (a * b) (2 ^ 53)) as [Hlt|Hge].
  - left. exists (a * b). split; [apply mul_of_Z; lia|left; reflexivity].
  - unfold mul, of_Z. change (inject_Z a * inject_Z b)%Q with (inject_Z (a * b)).
    destruct (binary64_large (inject_Z (a * b))) as [(z & Hz & Hb)|Hb].
    + rewrite <- Zle_Qle. exact Hge.
    + left. exists z. split; [exact Hb|right; lia].
    + right. split; [exact Hb|exact Hge].
Qed.

(** ** [handleInputChange] *)

(** C6. Whatever string the input field delivers, the property named by the
    event's id ends up holding 1 when the parsed value is [NaN] or [<= 0],
    and the parsed value itself otherwise; the id is arbitrary, so this
    covers scale, numSplits and horizontalRepeat alike. *)
Theorem handleInputChange_clamps (event : ChangeEvent) (prev : gmap string number) :
  handleInputChange event prev !! target_id event
  = Some (if isNaN (parseFloat (target_value event))
             || le (parseFloat (target_value event)) (of_Z 0)
          then of_Z 1
          else parseFloat (target_value event)).
Proof.
  unfold handleInputChange. rewrite lookup_insert_eq, gt_zero_spec.
  destruct (isNaN _ || le _ _); reflexivity.
Qed.

(** C9. [handleInputChange] writes the property named by the event's id and
    no other: every other property reads as before. *)
Theorem handleInputChange_frame (event : ChangeEvent) (prev : gmap string number)
    (key : string) :
  key <> target_id event ->
  handleInputChange event prev !! key = prev !! key.
Proof.
  intros Hne. unfold handleInputChange. apply lookup_insert_ne. congruence.
Qed.

Lemma handleInputChange_frame_witness :
  "numSplits" <> target_id {| target_id := "scale"; target_value := "3" |}
  /\ handleInputChange {| target_id := "scale"; target_value := "3" |} initialState
       !! "numSplits"
     = initialState !! "numSplits".
Proof.
  split.
  - simpl. discriminate.
  - apply (handleInputChange_frame {| target_id := "scale"; target_value := "3" |}
             initialState "numSplits").
    simpl. discriminate.
Defined.

Lemma field_handleInputChange_other (event : ChangeEvent) (prev : gmap string number)
    (key : string) :
  key <> target_id event ->
  field (handleInputChange event prev) key = field prev key.
Proof.
  intros Hne. unfold field, handleInputChange.
  rewrite lookup_insert_ne by congruence. reflexivity.
Qed.

Example clamp_examples :
  field (handleInputChange {| target_id := "numSplits"; target_value := "2.5" |}
           initialState) "numSplits" = Finite (5 # 2)
  /\ field (handleInputChange {| target_id := "numSplits"; target_value := "-4" |}
              initialState) "numSplits" = of_Z 1
  /\ field (handleInputChange {| target_id := "scale"; target_value := "" |}
              initialState) "scale" = of_Z 1
  /\ field (handleInputChange {| target_id := "scale"; target_value := "0" |}
              initialState) "numSplits" = of_Z 1.
Proof. vm_compute. repeat split; reflexivity. Qed.

(** ** Compositing *)

Lemma div_round_odd (k d : Z) : 0 < d -> div_round (k * d) d = k.
Proof.
  intros Hd. unfold div_round.
  replace (2 * (k * d) + d) with (d + k * (2 * d)) by ring.
  rewrite Z.div_add by lia. rewrite Z.div_small by lia. reflexivity.
Qed.

Lemma source_over_alpha (src dst : RGBA) :
  alpha dst = 255 -> alpha (source_over src dst) = 255.
Proof.
  intros Hd. unfold source_over. simpl. rewrite Hd.
  rewrite (Z.mul_comm 255), div_round_odd by lia. ring.
Qed.

Lemma div_round_unique (a d k : Z) : 0 < d -> a = k * d -> div_round a d = k.
Proof. intros Hd ->. apply div_round_odd. exact Hd. Qed.

Lemma source_over_opaque (src dst : RGBA) :
  alpha src = 255 -> source_over src dst = src.
Proof.
  intros Hs. destruct src as [r g b a]. simpl in Hs. subst a.
  unfold source_over. cbn [alpha red green blue].
  rewrite (div_round_unique (alpha dst * (255 - 255)) 255 0) by lia.
  replace (255 + 0 =? 0) with false by reflexivity.
  f_equal; apply div_round_unique; lia.
Qed.

Lemma source_over_transparent (src dst : RGBA) :
  alpha src = 0 -> alpha dst = 255 -> source_over src dst = dst.
Proof.
  intros Hs Hd. destruct dst as [r g b a]. simpl in Hd. subst a.
  unfold source_over. cbn [alpha red green blue]. rewrite Hs.
  rewrite (div_round_unique (255 * (255 - 0)) 255 255) by lia.
  replace (0 + 255 =? 0) with false by reflexivity.
  f_equal; apply div_round_unique; lia.
Qed.

(** ** [createCanvas] *)

Lemma truncate_nonneg (q : Q) : (0 <= q)%Q -> truncate q = Qfloor q.
Proof. intros Hq. unfold truncate. rewrite Qneg_false by exact Hq. reflexivity. Qed.

Lemma dimension_finite (d : Z) (q : Q) :
  (0 <= q)%Q -> Qfloor q < 2 ^ 31 -> dimension d (Finite q) = Qfloor q.
Proof.
  intros Hq Hlt. unfold dimension, unsigned_long. rewrite truncate_nonneg by exact Hq.
  pose proof (Qfloor_ge q 0 Hq) as H0.
  rewrite Z.mod_small by lia.
  destruct (Qfloor q <? 2 ^ 31) eqn:E; [reflexivity|]. apply Z.ltb_ge in E. lia.
Qed.

Lemma dimension_of_Z (d z : Z) : 0 <= z < 2 ^ 31 -> dimension d (of_Z z) = z.
Proof.
  intros Hz. unfold of_Z. rewrite dimension_finite.
  - apply Qfloor_Z.
  - apply inject_Z_nonneg. lia.
  - rewrite Qfloor_Z. lia.
Qed.

Lemma dimension_range (d : Z) (v : number) :
  0 <= d < 2 ^ 31 -> 0 <= dimension d v < 2 ^ 31.
Proof.
  intros Hd. unfold dimension.
  assert (H : 0 <= unsigned_long v).
  { unfold unsigned_long. destruct v; try lia. apply Z.mod_pos_bound. lia. }
  destruct (unsigned_long v <? 2 ^ 31) eqn:E; [apply Z.ltb_lt in E|]; lia.
Qed.

(** A canvas is never wider than the number that sized it. *)
Lemma dimension_le (d : Z) (q : Q) :
  0 <= d < 2 ^ 31 -> (0 <= q)%Q -> (inject_Z (dimension d (Finite q)) <= q)%Q.
Proof.
  intros Hd Hq. unfold dimension, unsigned_long. rewrite truncate_nonneg by exact Hq.
  pose proof (Qfloor_ge q 0 Hq) as H0.
  assert (Hmod : 0 <= Qfloor q mod 2 ^ 32 <= Qfloor q).
  { split; [apply Z.mod_pos_bound; lia|apply Z.mod_le; lia]. }
  apply Qle_trans with (inject_Z (Qfloor q)); [|apply Qfloor_le].
  rewrite <- Zle_Qle.
  destruct (Qfloor q mod 2 ^ 32 <? 2 ^ 31) eqn:E; [lia|]. apply Z.ltb_ge in E. lia.
Qed.

(** A canvas with a column was sized by a positive number. *)
Lemma dimension_positive (d : Z) (q : Q) :
  (0 <= q)%Q -> 1 <= unsigned_long (Finite q) -> (0 < q)%Q.
Proof.
  intros Hq H. unfold unsigned_long in H. rewrite truncate_nonneg in H by exact Hq.
  destruct (Qlt_le_dec 0 q) as [Hlt|Hle]; [exact Hlt|].
  exfalso. assert (E : (q == 0)%Q) by lra.
  rewrite (Qfloor_comp _ _ E) in H. change (Qfloor 0) with 0 in H.
  rewrite Z.mod_0_l in H by lia. lia.
Qed.

Lemma createCanvas_white (w h : Q) (X Y : Z) :
  (0 < w)%Q -> (0 < h)%Q -> pixel (createCanvas (Finite w) (Finite h)) X Y = white.
Proof.
  intros Hw Hh. unfold createCanvas, fill_covers. simpl.
  rewrite (Qpos_true w Hw), (Qpos_true h Hh). reflexivity.
Qed.

(** ** [drawImage] on whole pixels *)

Lemma Qzero_inject_Z_true (z : Z) : Qzero (inject_Z z) = true -> z = 0.
Proof.
  unfold Qzero. intros H. apply Qeq_bool_iff in H.
  unfold Qeq in H. simpl in H. lia.
Qed.

Lemma aligned_zrect (x y w h : Z) : aligned (zrect x y w h) = true.
Proof.
  unfold aligned, zrect. simpl. rewrite !is_integer_inject_Z. reflexivity.
Qed.

Section DrawingFacts.

Variable resample : Bitmap -> Rect -> Rect -> Transform -> Z -> Z -> option RGBA.

Lemma drawn_zrect (image : Bitmap) (sx sy sw sh dx dy : Z) (tr : Transform) (X Y : Z) :
  drawn resample image (zrect sx sy sw sh) (zrect dx dy sw sh) tr X Y
  = copied image (zrect sx sy sw sh) (zrect dx dy sw sh) tr X Y.
Proof.
  unfold drawn. rewrite !aligned_zrect. simpl.
  rewrite !Qeq_bool_refl. reflexivity.
Qed.

Lemma blit_copied (image : Bitmap) (sx sy sw sh dx dy : Z) (tr : Transform)
    (canvas : Bitmap) (X Y : Z) :
  match copied image (zrect sx sy sw sh) (zrect dx dy sw sh) tr X Y with
  | Some c => source_over c (pixel canvas X Y)
  | None => pixel canvas X Y
  end = blit image sx sy sw sh dx dy tr canvas X Y.
Proof.
  unfold copied, blit, zrect. cbn [rx ry rw rh]. rewrite !Qfloor_Z.
  destruct (_ && _); reflexivity.
Qed.

Lemma blit_empty (image : Bitmap) (sx sy sw sh dx dy : Z) (tr : Transform)
    (canvas : Bitmap) (X Y : Z) :
  sw = 0 \/ sh = 0 ->
  blit image sx sy sw sh dx dy tr canvas X Y = pixel canvas X Y.
Proof.
  intros H. unfold blit.
  destruct (_ && _) eqn:E; [|reflexivity].
  exfalso. repeat (apply andb_prop in E; destruct E as [E ?]).
  destruct H; subst; lia.
Qed.

Lemma drawImage9_whole (tr : Transform) (image : CanvasImageSource)
    (sx sy sw sh dx dy : Z) (canvas : Bitmap) :
  unusable image = false ->
  exists c,
    drawImage9 resample tr image (of_Z sx) (of_Z sy) (of_Z sw) (of_Z sh)
               (of_Z dx) (of_Z dy) (of_Z sw) (of_Z sh) canvas = Normal c
    /\ width c = width canvas /\ height c = height canvas
    /\ forall X Y,
         pixel c X Y = blit (bitmap_of image) sx sy sw sh dx dy tr canvas X Y.
Proof.
  intros Hu. unfold drawImage9, of_Z. cbn [forallb isFinite negb andb value].
  rewrite Hu.
  destruct (Qzero (inject_Z sw) || Qzero (inject_Z sh)) eqn:E.
  - exists canvas. split; [reflexivity|]. split; [reflexivity|]. split; [reflexivity|].
    intros X Y. symmetry. apply blit_empty.
    apply orb_prop in E. destruct E as [E|E]; apply Qzero_inject_Z_true in E; auto.
  - eexists. split; [reflexivity|]. cbn [width height pixel].
    split; [reflexivity|]. split; [reflexivity|]. intros X Y.
    change {| rx := inject_Z sx; ry := inject_Z sy; rw := inject_Z sw; rh := inject_Z sh |}
      with (zrect sx sy sw sh).
    change {| rx := inject_Z dx; ry := inject_Z dy; rw := inject_Z sw; rh := inject_Z sh |}
      with (zrect dx dy sw sh).
    rewrite drawn_zrect. apply blit_copied.
Qed.

Lemma drawImage9_unusable (tr : Transform) (image : CanvasImageSource)
    (sx sy sw sh dx dy dw dh : number) (canvas : Bitmap) :
  unusable image = true ->
  drawImage9 resample tr image sx sy sw sh dx dy dw dh canvas
  = Abrupt (Thrown InvalidStateError).
Proof. intros Hu. unfold drawImage9. rewrite Hu. reflexivity. Qed.

Lemma drawImage3_whole (tr : Transform) (image : CanvasImageSource)
    (dx dy : Z) (canvas : Bitmap) :
  unusable image = false ->
  exists c,
    drawImage3 resample tr image (of_Z dx) (of_Z dy) canvas = Normal c
    /\ width c = width canvas /\ height c = height canvas
    /\ forall X Y,
         pixel c X Y
         = blit (bitmap_of image) 0 0 (width (bitmap_of image))
                (height (bitmap_of image)) dx dy tr canvas X Y.
Proof.
  intros Hu. unfold drawImage3, drawImage5. apply drawImage9_whole. exact Hu.
Qed.

End DrawingFacts.

(** ** Data URLs *)

Lemma nth_rows (b : Bitmap) (x y : Z) :
  0 <= x < width b -> 0 <= y < height b ->
  nth (Z.to_nat x) (nth (Z.to_nat y) (rows_of b) nil) transparent_black = pixel b x y.
Proof.
  intros Hx Hy. unfold rows_of.
  set (row := fun y0 : nat =>
                map (fun x0 : nat => pixel b (Z.of_nat x0) (Z.of_nat y0))
                    (seq 0 (Z.to_nat (width b)))).
  rewrite (nth_indep _ nil (row O)) by (rewrite length_map, length_seq; lia).
  rewrite (map_nth row), seq_nth by lia. unfold row.
  rewrite (nth_indep _ transparent_black
             ((fun x0 : nat => pixel b (Z.of_nat x0) (Z.of_nat (0 + Z.to_nat y))) O))
    by (rewrite length_map, length_seq; lia).
  rewrite (map_nth (fun x0 : nat => pixel b (Z.of_nat x0) (Z.of_nat (0 + Z.to_nat y)))).
  rewrite seq_nth by lia. simpl. rewrite !Z2Nat.id by lia. reflexivity.
Qed.

Lemma toDataURL_png (c : Bitmap) :
  1 <= width c -> 1 <= height c ->
  toDataURL c = PngData (width c) (height c) (rows_of c).
Proof.
  intros Hw Hh. unfold toDataURL.
  destruct (width c <=? 0) eqn:E1; [apply Z.leb_le in E1; lia|].
  destruct (height c <=? 0) eqn:E2; [apply Z.leb_le in E2; lia|]. reflexivity.
Qed.

Lemma toDataURL_empty (c : Bitmap) :
  width c <= 0 \/ height c <= 0 -> toDataURL c = EmptyData.
Proof.
  intros H. unfold toDataURL.
  destruct (width c <=? 0) eqn:E1; [reflexivity|].
  destruct (height c <=? 0) eqn:E2; [reflexivity|].
  apply Z.leb_gt in E1. apply Z.leb_gt in E2. lia.
Qed.

Lemma load_toDataURL (c : Bitmap) :
  1 <= width c -> 1 <= height c ->
  exists b,
    load_image (toDataURL c) = Some b
    /\ width b = width c /\ height b = height c
    /\ forall x y, 0 <= x < width c -> 0 <= y < height c -> pixel b x y = pixel c x y.
Proof.
  intros Hw Hh. rewrite toDataURL_png by assumption. simpl.
  eexists. split; [reflexivity|]. cbn [width height pixel].
  split; [reflexivity|]. split; [reflexivity|].
  intros x y Hx Hy. apply nth_rows; assumption.
Qed.

(** Two canvases with the same size and the same pixels in range have the
    same data URL. *)
Lemma toDataURL_ext (c1 c2 : Bitmap) :
  width c1 = width c2 -> height c1 = height c2 ->
  (forall x y, 0 <= x < width c1 -> 0 <= y < height c1 -> pixel c1 x y = pixel c2 x y) ->
  toDataURL c1 = toDataURL c2.
Proof.
  intros Hw Hh Hp. unfold toDataURL, rows_of. rewrite <- Hw, <- Hh.
  destruct ((width c1 <=? 0) || (height c1 <=? 0)); [reflexivity|].
  f_equal. apply map_ext_in. intros y Hy. apply in_seq in Hy.
  apply map_ext_in. intros x Hx. apply in_seq in Hx.
  apply Hp; lia.
Qed.

(** ** The Scaler *)

Section ScalerFacts.

Variable resample : Bitmap -> Rect -> Rect -> Transform -> Z -> Z -> option RGBA.

Lemma drawImage9_shape (tr : Transform) (image : CanvasImageSource)
    (sx sy sw sh dx dy dw dh : number) (canvas c : Bitmap) :
  drawImage9 resample tr image sx sy sw sh dx dy dw dh canvas = Normal c ->
  width c = width canvas /\ height c = height canvas
  /\ forall X Y, alpha (pixel canvas X Y) = 255 -> alpha (pixel c X Y) = 255.
Proof.
  unfold drawImage9. intros H.
  destruct (unusable image); [discriminate|].
  destruct (negb _); [injection H as <-; auto|].
  destruct (_ || _); injection H as <-; [auto|].
  cbn [width height pixel]. split; [reflexivity|]. split; [reflexivity|].
  intros X Y Ha. destruct (drawn _ _ _ _ _ _ _); [|exact Ha].
  apply source_over_alpha. exact Ha.
Qed.

Lemma drawImage9_usable (tr : Transform) (image : CanvasImageSource)
    (sx sy sw sh dx dy dw dh : number) (canvas : Bitmap) :
  unusable image = false ->
  exists c, drawImage9 resample tr image sx sy sw sh dx dy dw dh canvas = Normal c.
Proof.
  intros Hu. unfold drawImage9. rewrite Hu. destruct (negb _); [eauto|].
  destruct (_ || _); eauto.
Qed.

Lemma drawImage9_element (tr : Transform) (b : Bitmap)
    (sx sy sw sh dx dy dw dh : number) (canvas : Bitmap) :
  exists c, drawImage9 resample tr (ImageElement b) sx sy sw sh dx dy dw dh canvas
            = Normal c.
Proof. apply drawImage9_usable. reflexivity. Qed.

(** The Scaler never fails: a decoded image is always good to draw. *)
Lemma scaler_canvas (img : Bitmap) (scaledWidth : number) :
  exists sc,
    scaler resample img scaledWidth = Normal sc
    /\ width sc = dimension 300 scaledWidth
    /\ height sc = dimension 150 (of_Z (height img))
    /\ (fill_covers scaledWidth (of_Z (height img)) = true ->
        forall X Y, alpha (pixel sc X Y) = 255).
Proof.
  unfold scaler, drawImage5.
  destruct (drawImage9_element Identity img (of_Z 0) (of_Z 0)
              (of_Z (width (bitmap_of (ImageElement img))))
              (of_Z (height (bitmap_of (ImageElement img))))
              (of_Z 0) (of_Z 0) scaledWidth (of_Z (height img))
              (createCanvas scaledWidth (of_Z (height img)))) as [sc Hsc].
  exists sc. split; [exact Hsc|].
  apply drawImage9_shape in Hsc. destruct Hsc as (Hw & Hh & Ha).
  rewrite Hw, Hh. split; [reflexivity|]. split; [reflexivity|].
  intros Hfill X Y. apply Ha. cbn [createCanvas pixel]. rewrite Hfill. reflexivity.
Qed.

Lemma scaler_shape (img : Bitmap) (q : Q) :
  (0 < q)%Q -> Qfloor q < 2 ^ 31 -> 1 <= height img < 2 ^ 31 ->
  exists sc,
    scaler resample img (Finite q) = Normal sc
    /\ width sc = Qfloor q /\ height sc = height img
    /\ forall X Y, alpha (pixel sc X Y) = 255.
Proof.
  intros Hq Hlt Hh.
  destruct (scaler_canvas img (Finite q)) as (sc & Hsc & Hw & Hh' & Ha).
  exists sc. split; [exact Hsc|].
  rewrite Hw, Hh', dimension_finite, dimension_of_Z by (try lia; lra).
  split; [reflexivity|]. split; [reflexivity|].
  apply Ha. unfold fill_covers, of_Z. rewrite (Qpos_true q Hq).
  rewrite Qpos_true by (apply inject_Z_pos; lia). reflexivity.
Qed.

End ScalerFacts.

(** The scaled width that the code computes for a scale that is not
    negative. *)
Lemma scaledWidth_finite (img : Bitmap) (editorState : gmap string number) (f p : Q) :
  0 <= width img -> field editorState "scale" = Finite f -> (0 <= f)%Q ->
  scaledWidth_of img editorState = Finite p ->
  binary64 (inject_Z (width img) * f) = Finite p
  /\ (0 <= inject_Z (width img) * f)%Q
  /\ (0 <= p)%Q /\ Qred p = p /\ double p.
Proof.
  intros Hw Hs Hf Hp. unfold scaledWidth_of in Hp. rewrite Hs in Hp. cbn [mul of_Z] in Hp.
  assert (Hq : (0 <= inject_Z (width img) * f)%Q).
  { apply Qmult_le_0_compat; [apply inject_Z_nonneg; exact Hw|exact Hf]. }
  destruct (binary64_finite _ _ Hq Hp) as (Hred & Hp0 & Hd & _).
  auto.
Qed.

(** Rounding moves a number to the next integer at most. *)
Lemma binary64_floor (q p : Q) :
  (0 <= q)%Q -> binary64 q = Finite p -> (p < inject_Z (2 ^ 53))%Q ->
  Qfloor q <= Qfloor p <= Qfloor q + 1.
Proof.
  intros Hq Hp Hlt.
  pose proof (binary64_small q p Hq Hp Hlt) as Hsmall.
  destruct (binary64_bounds q (Qfloor q) (Qfloor q + 1)) as (r & Hr & _ & H1 & H2).
  - apply Qfloor_ge. exact Hq.
  - exact Hsmall.
  - apply Qfloor_le.
  - apply Qlt_le_weak, Qlt_floor.
  - assert (r = p) by congruence. subst r.
    split; [apply Qfloor_ge; exact H1|apply Qfloor_le_Z; exact H2].
Qed.

Lemma Qfloor_lt_Z (q : Q) (z : Z) : Qfloor q < z -> (q < inject_Z z)%Q.
Proof.
  intros H. eapply Qlt_le_trans; [apply Qlt_floor|]. rewrite <- Zle_Qle. lia.
Qed.

(** C2, as the code has it. For a source image of width [w >= 1] and a
    positive scale factor [f], let [p] be the product [img.width * scale]
    as the code computes it: the double nearest to [w * f]. When
    [floor p] is below 2^31 the scaled canvas is [floor p] wide and as
    high as the source; [floor p] is [floor (w * f)], or one more when
    the product rounds up to a whole number. The same lines open
    [splitImage] in ImageEditorBackup.tsx. *)
Theorem scaler_size
    (resample : Bitmap -> Rect -> Rect -> Transform -> Z -> Z -> option RGBA)
    (img : Bitmap) (editorState : gmap string number) (f p : Q) :
  1 <= width img -> 1 <= height img < 2 ^ 31 ->
  field editorState "scale" = Finite f -> (0 < f)%Q ->
  scaledWidth_of img editorState = Finite p -> Qfloor p < 2 ^ 31 ->
  exists scaledCanvas,
    scaler resample img (scaledWidth_of img editorState) = Normal scaledCanvas
    /\ width scaledCanvas = Qfloor p
    /\ height scaledCanvas = height img
    /\ Qfloor (inject_Z (width img) * f) <= Qfloor p
       <= Qfloor (inject_Z (width img) * f) + 1.
Proof.
  intros Hw Hh Hs Hf Hp Hlt.
  destruct (scaledWidth_finite img editorState f p) as (Hb & Hq & Hp0 & _);
    [lia|exact Hs|lra|exact Hp|].
  destruct (scaler_canvas resample img (scaledWidth_of img editorState))
    as (sc & Hsc & Hscw & Hsch & _).
  exists sc. split; [exact Hsc|].
  rewrite Hscw, Hsch, Hp, dimension_finite, dimension_of_Z by (try lia; exact Hp0).
  split; [reflexivity|]. split; [reflexivity|].
  apply (binary64_floor _ _ Hq Hb).
  apply Qfloor_lt_Z. lia.
Qed.

Lemma scaler_size_witness :
  exists scaledCanvas,
    scaler nearest (test_image 3 2) (scaledWidth_of (test_image 3 2)
                                       (editor (Finite (3 # 2)) (of_Z 1) (of_Z 1)))
    = Normal scaledCanvas
    /\ width scaledCanvas = 4
    /\ height scaledCanvas = 2
    /\ 4 <= 4 <= 4 + 1.
Proof.
  apply (scaler_size nearest (test_image 3 2)
           (editor (Finite (3 # 2)) (of_Z 1) (of_Z 1)) (3 # 2) (9 # 2)).
  - simpl. lia.
  - simpl. lia.
  - reflexivity.
  - reflexivity.
  - vm_compute. reflexivity.
  - vm_compute. reflexivity.
Defined.

(** C2 as stated fails in two ways. The width is taken from the rounded
    product: a 3-wide image at the scale that the text
    ["1.3333333333333333"] parses to gives a canvas 4 wide, where
    [floor (w * f)] is 3. And the canvas width wraps: a 1-wide image
    at scale 4294967298 gives a canvas 2 wide. *)
Lemma scaler_size_counterexample :
  (exists f scaledCanvas,
      parseFloat "1.3333333333333333" = Finite f
      /\ scaler nearest (test_image 3 1)
                (scaledWidth_of (test_image 3 1) (editor (Finite f) (of_Z 1) (of_Z 1)))
         = Normal scaledCanvas
      /\ width scaledCanvas = 4
      /\ Qfloor (inject_Z 3 * f) = 3)
  /\ (exists scaledCanvas,
        scaler nearest (test_image 1 1)
               (scaledWidth_of (test_image 1 1)
                  (editor (of_Z 4294967298) (of_Z 1) (of_Z 1)))
        = Normal scaledCanvas
        /\ width scaledCanvas = 2
        /\ Qfloor (inject_Z 1 * inject_Z 4294967298) = 4294967298).
Proof.
  split.
  - exists (6004799503160661 # 4503599627370496).
    destruct (scaler_canvas nearest (test_image 3 1)
                (scaledWidth_of (test_image 3 1)
                   (editor (Finite (6004799503160661 # 4503599627370496))
                      (of_Z 1) (of_Z 1)))) as (sc & Hsc & Hw & _).
    exists sc. split; [vm_compute; reflexivity|]. split; [exact Hsc|].
    split; [rewrite Hw; vm_compute; reflexivity|vm_compute; reflexivity].
  - destruct (scaler_canvas nearest (test_image 1 1)
                (scaledWidth_of (test_image 1 1)
                   (editor (of_Z 4294967298) (of_Z 1) (of_Z 1)))) as (sc & Hsc & Hw & _).
    exists sc. split; [exact Hsc|].
    split; [rewrite Hw; vm_compute; reflexivity|vm_compute; reflexivity].
Qed.

(** ** Loops *)

Lemma iterate_push {A : Type} (P : Z -> A -> Prop)
    (body : Z -> list A -> completion (list A)) :
  (forall i s, 0 <= i -> exists u, body i s = Normal (s ++ u :: nil) /\ P i u) ->
  forall k i0 s, 0 <= i0 ->
    exists us,
      iterate k i0 body s = Normal (s ++ us)
      /\ length us = k
      /\ forall j u, nth_error us j = Some u -> P (i0 + Z.of_nat j) u.
Proof.
  intros Hbody. induction k as [|k IH]; intros i0 s Hi0.
  - exists nil. simpl. rewrite app_nil_r. split; [reflexivity|]. split; [reflexivity|].
    intros [|j] u; discriminate.
  - destruct (Hbody i0 s Hi0) as (u & Hu & HP).
    destruct (IH (i0 + 1) (s ++ u :: nil)) as (us & Hus & Hlen & Hnth); [lia|].
    exists (u :: us). cbn [iterate]. rewrite Hu. cbn [bind]. rewrite Hus.
    rewrite <- app_assoc. split; [reflexivity|]. split; [simpl; lia|].
    intros [|j] v Hv.
    + injection Hv as <-. replace (i0 + Z.of_nat 0) with i0 by lia. exact HP.
    + replace (i0 + Z.of_nat (S j)) with (i0 + 1 + Z.of_nat j) by lia.
      apply Hnth. exact Hv.
Qed.

Lemma iterations_of_Z (n : Z) : iterations (of_Z n) = Times (Z.to_nat n).
Proof. unfold iterations, of_Z. rewrite Qceiling_Z. reflexivity. Qed.

(** [iterations] counts the indices that pass the loop test. *)
Lemma iterations_test (q : Q) (i : Z) :
  0 <= i ->
  lt (of_Z i) (Finite q) = true <-> (Z.to_nat i < Z.to_nat (Qceiling q))%nat.
Proof.
  intros Hi. unfold lt, of_Z. destruct (Qlt_le_dec (inject_Z i) q) as [Hlt|Hle].
  - split; [intros _|reflexivity].
    assert (i < Qceiling q); [|lia].
    rewrite Zlt_Qlt. eapply Qlt_le_trans; [exact Hlt|apply Qle_ceiling].
  - split; [discriminate|]. intros H. exfalso.
    assert (Qceiling q <= i); [|lia].
    rewrite <- (Qceiling_Z i). apply Qceiling_resp_le. exact Hle.
Qed.

(** ** Exceptions do not depend on the loop index *)

Lemma drawImage9_throws
    (resample : Bitmap -> Rect -> Rect -> Transform -> Z -> Z -> option RGBA)
    (tr : Transform) (image : CanvasImageSource)
    (sx sy sw sh dx dy dw dh : number) (canvas : Bitmap) :
  (exists r, drawImage9 resample tr image sx sy sw sh dx dy dw dh canvas = Abrupt r)
  <-> unusable image = true.
Proof.
  unfold drawImage9. destruct (unusable image).
  - split; [auto|]. intros _. eexists. reflexivity.
  - destruct (negb _); [|destruct (_ || _)];
      (split; [intros (r & Hr); discriminate|discriminate]).
Qed.

Lemma slice_body_throws_uniformly
    (resample : Bitmap -> Rect -> Rect -> Transform -> Z -> Z -> option RGBA)
    (h : Z) (sc : Bitmap) (sliceWidth : number) (i j : Z) (s s' : list DataURL) :
  (exists r, slice_body resample h sc sliceWidth i s = Abrupt r)
  <-> (exists r, slice_body resample h sc sliceWidth j s' = Abrupt r).
Proof.
  assert (Hone : forall i s,
             (exists r, slice_body resample h sc sliceWidth i s = Abrupt r)
             <-> unusable (CanvasElement sc) = true).
  { intros i0 s0. unfold slice_body.
    rewrite <- (drawImage9_throws resample Identity (CanvasElement sc)
                  (mul (of_Z i0) sliceWidth) (of_Z 0) sliceWidth (of_Z h)
                  (of_Z 0) (of_Z 0) sliceWidth (of_Z h)
                  (createCanvas sliceWidth (of_Z h))).
    destruct (drawImage9 _ _ _ _ _ _ _ _ _ _ _ _) as [c|r]; cbn [bind].
    - split; intros (r & Hr); discriminate.
    - split; intros _; eexists; reflexivity. }
  rewrite (Hone i s), (Hone j s'). reflexivity.
Qed.

Lemma repeat_body_throws_uniformly
    (resample : Bitmap -> Rect -> Rect -> Transform -> Z -> Z -> option RGBA)
    (vc : Bitmap) (sliceWidth : number) (i j : Z) (fc fc' : Bitmap) :
  (exists r, drawImage3 resample Identity (CanvasElement vc)
                        (mul (of_Z i) sliceWidth) (of_Z 0) fc = Abrupt r)
  <-> (exists r, drawImage3 resample Identity (CanvasElement vc)
                            (mul (of_Z j) sliceWidth) (of_Z 0) fc' = Abrupt r).
Proof.
  unfold drawImage3, drawImage5. rewrite !drawImage9_throws. reflexivity.
Qed.

(** ** Slice width *)

Lemma binary64_double (q r : Q) : binary64 q = Finite r -> double r.
Proof.
  unfold binary64. intros H.
  destruct (2 ^ 2098 <=? nearest_multiple (Qabs q)) eqn:E; [discriminate|].
  apply Z.leb_gt in E.
  destruct (nearest_multiple_form (Qabs q) (Qabs_nonneg q)) as (m & e & Hnm & He & Hm).
  assert (Er : Qred (Qmake (if Qneg q then - nearest_multiple (Qabs q)
                            else nearest_multiple (Qabs q)) (2 ^ 1074)) = r)
    by congruence.
  clear H. subst r. rewrite Hnm in *.
  exists (if Qneg q then - m else m), e. split; [exact He|].
  assert (Habs : Z.abs (if Qneg q then - m else m) = m).
  { destruct (Qneg q); lia. }
  rewrite Habs. split; [lia|]. split; [lia|].
  rewrite Qred_correct. destruct (Qneg q); [|reflexivity].
  rewrite Z.mul_opp_l. reflexivity.
Qed.

Lemma mul_double (a b : number) (r : Q) : mul a b = Finite r -> double r.
Proof.
  destruct a as [|s|p], b as [|t|q]; cbn [mul]; try discriminate.
  - destruct (Qzero q); discriminate.
  - destruct (Qzero p); discriminate.
  - apply binary64_double.
Qed.

(** A product or quotient of numbers that are not negative is a number
    that is not negative, or the positive infinity. *)
Lemma binary64_nonneg (q : Q) :
  (0 <= q)%Q ->
  (exists r, binary64 q = Finite r /\ (0 <= r)%Q /\ Qred r = r)
  \/ binary64 q = Infinity false.
Proof.
  intros Hq. destruct (binary64 q) as [|s|r] eqn:E.
  - exfalso. rewrite (binary64_of_nonneg q Hq) in E. destruct (_ <=? _); discriminate.
  - right. rewrite (binary64_of_nonneg q Hq) in E.
    destruct (_ <=? _); [congruence|discriminate].
  - left. exists r. destruct (binary64_finite q r Hq E) as (H1 & H2 & _). auto.
Qed.

(** The slice width for an integer numSplits: the quotient of a double by
    a whole number never rounds up to the next integer. *)
Lemma sliceWidth_of_Z (img : Bitmap) (editorState : gmap string number) (p : Q) (n : Z) :
  scaledWidth_of img editorState = Finite p -> (0 <= p)%Q -> Qfloor p + 1 < 2 ^ 53 ->
  field editorState "numSplits" = of_Z n -> 1 <= n ->
  sliceWidth_of img editorState = of_Z (Qfloor p / n).
Proof.
  intros Hp Hp0 Hlt Hn Hn1. unfold sliceWidth_of. rewrite Hp, Hn.
  destruct (div_of_Z_floor p n (Qfloor p + 1)) as (r & Hr & _ & _ & Hfl).
  - apply (mul_double _ _ _ Hp).
  - exact Hp0.
  - apply Qlt_le_weak, Qlt_floor.
  - exact Hlt.
  - exact Hn1.
  - rewrite Hr. cbn [floor]. rewrite Hfl. reflexivity.
Qed.

(** The slice width for any positive numSplits. *)
Lemma sliceWidth_cases (img : Bitmap) (editorState : gmap string number) (p n : Q) :
  scaledWidth_of img editorState = Finite p -> (0 <= p)%Q ->
  field editorState "numSplits" = Finite n -> (0 < n)%Q ->
  (exists k, 0 <= k /\ sliceWidth_of img editorState = of_Z k)
  \/ sliceWidth_of img editorState = Infinity false.
Proof.
  intros Hp Hp0 Hn Hn0. unfold sliceWidth_of. rewrite Hp, Hn. cbn [div].
  rewrite Qzero_false by lra.
  destruct (binary64_nonneg (p / n)) as [(r & Hr & Hr0 & _)|Hinf].
  - apply Qle_shift_div_l; [exact Hn0|]. lra.
  - left. exists (Qfloor r). split; [apply Qfloor_ge; exact Hr0|].
    rewrite Hr. reflexivity.
  - right. rewrite Hinf. reflexivity.
Qed.

(** ** The Slicer *)

Section SlicerFacts.

Variable resample : Bitmap -> Rect -> Rect -> Transform -> Z -> Z -> option RGBA.

(** A source rectangle that starts beyond the image brings nothing. *)
Lemma blit_beyond (image : Bitmap) (sx sy sw sh dx dy : Z) (tr : Transform)
    (canvas : Bitmap) (X Y : Z) :
  width image <= sx ->
  blit image sx sy sw sh dx dy tr canvas X Y = pixel canvas X Y.
Proof.
  intros H. unfold blit. destruct (_ && _) eqn:E; [|reflexivity].
  exfalso. reflect_comparisons. lia.
Qed.

Lemma usable_canvas (sc : Bitmap) :
  1 <= width sc -> 1 <= height sc -> unusable (CanvasElement sc) = false.
Proof.
  intros Hw Hh. cbn [unusable].
  destruct (width sc <=? 0) eqn:E1; [apply Z.leb_le in E1; lia|].
  destruct (height sc <=? 0) eqn:E2; [apply Z.leb_le in E2; lia|]. reflexivity.
Qed.

Lemma unusable_canvas (sc : Bitmap) :
  width sc <= 0 \/ height sc <= 0 -> unusable (CanvasElement sc) = true.
Proof.
  intros H. cbn [unusable]. apply orb_true_iff.
  destruct H; [left|right]; apply Z.leb_le; assumption.
Qed.

Lemma slice_body_whole (h : Z) (sc : Bitmap) (k i : Z) (slices : list DataURL) :
  1 <= width sc < 2 ^ 31 -> 1 <= height sc -> 0 <= k < 2 ^ 31 -> 0 <= h < 2 ^ 31 ->
  0 <= i ->
  exists c,
    slice_body resample h sc (of_Z k) i slices = Normal (slices ++ toDataURL c :: nil)
    /\ width c = k /\ height c = h
    /\ forall X Y,
         pixel c X Y
         = blit sc (i * k) 0 k h 0 0 Identity (createCanvas (of_Z k) (of_Z h)) X Y.
Proof.
  intros Hw Hh Hk Hh0 Hi. unfold slice_body.
  pose proof (usable_canvas sc ltac:(lia) Hh) as Hu.
  assert (Hdim : width (createCanvas (of_Z k) (of_Z h)) = k
                 /\ height (createCanvas (of_Z k) (of_Z h)) = h).
  { cbn [createCanvas width height]. rewrite !dimension_of_Z by lia. auto. }
  destruct Hdim as [Hdw Hdh].
  assert (H53 : 2 ^ 31 < 2 ^ 53) by (apply Z.pow_lt_mono_r; lia).
  destruct (mul_of_Z_cases i k) as [(z & Hz & Hcase)|[Hinf Hbig]]; [nia| |].
  - rewrite Hz.
    destruct (drawImage9_whole resample Identity (CanvasElement sc) z 0 k h 0 0
                (createCanvas (of_Z k) (of_Z h)) Hu) as (c & Hc & Hcw & Hch & Hcp).
    exists c. rewrite Hc. cbn [bind]. split; [reflexivity|].
    split; [congruence|]. split; [congruence|].
    intros X Y. rewrite Hcp. cbn [bitmap_of].
    destruct Hcase as [->|[Hz53 Hik]]; [reflexivity|].
    rewrite !blit_beyond by lia. reflexivity.
  - rewrite Hinf. unfold drawImage9. rewrite Hu. cbn [forallb isFinite negb andb bind].
    exists (createCanvas (of_Z k) (of_Z h)). split; [reflexivity|].
    split; [exact Hdw|]. split; [exact Hdh|].
    intros X Y. rewrite blit_beyond by lia. reflexivity.
Qed.

Lemma slice_body_throws (h : Z) (sc : Bitmap) (sliceWidth : number) (i : Z)
    (slices : list DataURL) :
  width sc <= 0 \/ height sc <= 0 ->
  slice_body resample h sc sliceWidth i slices = Abrupt (Thrown InvalidStateError).
Proof.
  intros H. unfold slice_body.
  rewrite drawImage9_unusable; [reflexivity|]. apply unusable_canvas. exact H.
Qed.

End SlicerFacts.

Section SlicerResults.

Variable resample : Bitmap -> Rect -> Rect -> Transform -> Z -> Z -> option RGBA.

(** What the slicing loop leaves in [slices] for a finite [numSplits]. *)
Lemma slicer_slices (h : Z) (sc : Bitmap) (k : Z) (q : Q) :
  1 <= width sc < 2 ^ 31 -> 1 <= height sc -> 0 <= k < 2 ^ 31 -> 0 <= h < 2 ^ 31 ->
  exists slices,
    slicer resample h sc (of_Z k) (Finite q) = Normal slices
    /\ length slices = Z.to_nat (Qceiling q)
    /\ forall j u, nth_error slices j = Some u ->
         exists c,
           u = toDataURL c /\ width c = k /\ height c = h
           /\ forall X Y,
                pixel c X Y
                = blit sc (Z.of_nat j * k) 0 k h 0 0 Identity
                       (createCanvas (of_Z k) (of_Z h)) X Y.
Proof.
  intros Hw Hh Hk Hh0. unfold slicer, for_loop. cbn [iterations].
  destruct (iterate_push
              (fun i u => exists c,
                   u = toDataURL c /\ width c = k /\ height c = h
                   /\ forall X Y,
                        pixel c X Y
                        = blit sc (i * k) 0 k h 0 0 Identity
                               (createCanvas (of_Z k) (of_Z h)) X Y)
              (slice_body resample h sc (of_Z k))) with
    (k := Z.to_nat (Qceiling q)) (i0 := 0) (s := @nil DataURL)
    as (us & Hus & Hlen & Hnth).
  - intros i s Hi.
    destruct (slice_body_whole resample h sc k i s Hw Hh Hk Hh0 Hi) as (c & Hc & Hrest).
    exists (toDataURL c). split; [exact Hc|]. exists c. split; [reflexivity|exact Hrest].
  - lia.
  - exists us. split; [exact Hus|]. split; [exact Hlen|].
    intros j u Hj. apply (Hnth j u Hj).
Qed.

(** The slices for any slice width: one canvas per iteration, sized by
    the slice width and the image height. *)
Lemma slicer_canvases (h : Z) (sc : Bitmap) (sliceWidth : number) (q : Q) :
  1 <= width sc -> 1 <= height sc ->
  exists slices,
    slicer resample h sc sliceWidth (Finite q) = Normal slices
    /\ length slices = Z.to_nat (Qceiling q)
    /\ forall j u, nth_error slices j = Some u ->
         exists c,
           u = toDataURL c
           /\ width c = dimension 300 sliceWidth
           /\ height c = dimension 150 (of_Z h)
           /\ (fill_covers sliceWidth (of_Z h) = true ->
               forall X Y, alpha (pixel c X Y) = 255).
Proof.
  intros Hw Hh. unfold slicer, for_loop. cbn [iterations].
  destruct (iterate_push
              (fun (_ : Z) u => exists c,
                   u = toDataURL c
                   /\ width c = dimension 300 sliceWidth
                   /\ height c = dimension 150 (of_Z h)
                   /\ (fill_covers sliceWidth (of_Z h) = true ->
                       forall X Y, alpha (pixel c X Y) = 255))
              (slice_body resample h sc sliceWidth)) with
    (k := Z.to_nat (Qceiling q)) (i0 := 0) (s := @nil DataURL)
    as (us & Hus & Hlen & Hnth).
  - intros i s _. unfold slice_body.
    destruct (drawImage9_usable resample Identity (CanvasElement sc)
                (mul (of_Z i) sliceWidth) (of_Z 0) sliceWidth (of_Z h)
                (of_Z 0) (of_Z 0) sliceWidth (of_Z h)
                (createCanvas sliceWidth (of_Z h)) (usable_canvas sc Hw Hh)) as [c Hc].
    rewrite Hc. cbn [bind]. exists (toDataURL c). split; [reflexivity|].
    exists c. split; [reflexivity|].
    apply drawImage9_shape in Hc. destruct Hc as (Hcw & Hch & Ha).
    split; [exact Hcw|]. split; [exact Hch|].
    intros Hfill X Y. apply Ha. cbn [createCanvas pixel]. rewrite Hfill. reflexivity.
  - lia.
  - exists us. split; [exact Hus|]. split; [exact Hlen|].
    intros j u Hj. apply (Hnth j u Hj).
Qed.

Lemma slice_pixel_copied (sc : Bitmap) (k h i X Y : Z) :
  1 <= k -> 1 <= h ->
  0 <= X < k -> 0 <= Y < h -> 0 <= i -> i * k + X < width sc -> h <= height sc ->
  alpha (pixel sc (i * k + X) Y) = 255 ->
  blit sc (i * k) 0 k h 0 0 Identity (createCanvas (of_Z k) (of_Z h)) X Y
  = pixel sc (i * k + X) Y.
Proof.
  intros Hk Hh HX HY Hi Hin Hhs Ha. unfold blit. cbn [user_row].
  replace (i * k + (X - 0)) with (i * k + X) by lia.
  replace (0 + (Y - 0)) with Y by lia.
  destruct (_ && _) eqn:E.
  - apply source_over_opaque. exact Ha.
  - exfalso. repeat (apply andb_false_iff in E; destruct E as [E|E]);
      try (apply Z.leb_gt in E; nia); try (apply Z.ltb_ge in E; nia).
Qed.

Lemma slice_pixel_opaque (sc : Bitmap) (k h i X Y : Z) :
  1 <= k -> 1 <= h ->
  alpha (blit sc (i * k) 0 k h 0 0 Identity (createCanvas (of_Z k) (of_Z h)) X Y) = 255.
Proof.
  intros Hk Hh. unfold blit.
  assert (Hwhite : pixel (createCanvas (of_Z k) (of_Z h)) X Y = white).
  { unfold of_Z. apply createCanvas_white; apply inject_Z_pos; lia. }
  rewrite Hwhite. destruct (_ && _); [|reflexivity].
  apply source_over_alpha. reflexivity.
Qed.

End SlicerResults.

(** C4, as the code has it. Take a scaled image of width [W]: the
    scaled width that the code computes is a number [p] below 2^31, the
    range of a canvas width, so that the scaled canvas is [W = floor p]
    wide. With an integer [numSplits = n >= 1] such that [W / n >= 1],
    the slice width that the code computes is [W / n], the loop leaves
    exactly [n] slices, slice [i] is [W / n] wide and as high as the
    image and holds the columns [i * (W / n) .. (i + 1) * (W / n) - 1] of
    the scaled canvas, and a remainder column (one at or beyond
    [n * (W / n)]) is a column of no slice. *)
Theorem slicer_partition
    (resample : Bitmap -> Rect -> Rect -> Transform -> Z -> Z -> option RGBA)
    (img : Bitmap) (editorState : gmap string number) (p : Q) (n : Z) :
  1 <= height img < 2 ^ 31 ->
  scaledWidth_of img editorState = Finite p -> Qfloor p < 2 ^ 31 ->
  field editorState "numSplits" = of_Z n -> 1 <= n ->
  1 <= Qfloor p / n ->
  let W := Qfloor p in
  let sliceWidth := W / n in
  sliceWidth_of img editorState = of_Z sliceWidth
  /\ exists scaledCanvas slices,
       scaler resample img (scaledWidth_of img editorState) = Normal scaledCanvas
       /\ width scaledCanvas = W
       /\ slicer resample (height img) scaledCanvas (sliceWidth_of img editorState)
                 (field editorState "numSplits") = Normal slices
       /\ length slices = Z.to_nat n
       /\ (forall i, 0 <= i < n ->
             exists u b,
               nth_error slices (Z.to_nat i) = Some u
               /\ load_image u = Some b
               /\ width b = sliceWidth /\ height b = height img
               /\ forall x y, 0 <= x < sliceWidth -> 0 <= y < height img ->
                    pixel b x y = pixel scaledCanvas (i * sliceWidth + x) y)
       /\ (forall c, n * sliceWidth <= c < W ->
             forall i x, 0 <= i < n -> 0 <= x < sliceWidth -> i * sliceWidth + x <> c).
Proof.
  intros Hh Hp Hlt Hn Hn1 Hsw W sliceWidth.
  assert (HW : n * sliceWidth <= W).
  { unfold sliceWidth. apply Z.mul_div_le. lia. }
  assert (Hk1 : 1 <= sliceWidth) by exact Hsw.
  assert (HW1 : 1 <= W) by nia.
  assert (Hp1 : (1 <= p)%Q).
  { eapply Qle_trans; [|apply Qfloor_le]. change 1%Q with (inject_Z 1).
    rewrite <- Zle_Qle. exact HW1. }
  assert (H53 : 2 ^ 31 + 1 < 2 ^ 53) by reflexivity.
  assert (Hwidth : sliceWidth_of img editorState = of_Z sliceWidth).
  { apply sliceWidth_of_Z; try assumption; [lra|lia]. }
  split; [exact Hwidth|].
  destruct (scaler_shape resample img p) as (sc & Hsc & Hscw & Hsch & Hopaque);
    [lra|exact Hlt|exact Hh|].
  rewrite <- Hp in Hsc. fold W in Hscw.
  exists sc. rewrite Hwidth, Hn.
  destruct (slicer_slices resample (height img) sc sliceWidth (inject_Z n))
    as (slices & Hsl & Hlen & Hnth); try lia.
  exists slices. split; [exact Hsc|]. split; [exact Hscw|].
  split; [exact Hsl|]. rewrite Qceiling_Z in Hlen. split; [exact Hlen|]. split.
  - intros i Hi.
    destruct (nth_error slices (Z.to_nat i)) as [u|] eqn:Eu.
    2:{ apply nth_error_None in Eu. lia. }
    destruct (Hnth _ _ Eu) as (c & -> & Hcw & Hch & Hcp).
    destruct (load_toDataURL c) as (b & Hb & Hbw & Hbh & Hbp); try lia.
    exists (toDataURL c), b. split; [reflexivity|]. split; [exact Hb|].
    split; [lia|]. split; [lia|].
    intros x y Hx Hy. rewrite Hbp by lia. rewrite Hcp.
    rewrite Z2Nat.id by lia.
    apply slice_pixel_copied; try lia.
    + nia.
    + apply Hopaque.
  - intros c Hc i x Hi Hx. nia.
Qed.

Lemma slicer_partition_witness :
  sliceWidth_of (test_image 5 2) (editor (Finite (3 # 2)) (of_Z 2) (of_Z 1)) = of_Z 3
  /\ exists scaledCanvas slices,
       scaler nearest (test_image 5 2)
              (scaledWidth_of (test_image 5 2) (editor (Finite (3 # 2)) (of_Z 2) (of_Z 1)))
       = Normal scaledCanvas
       /\ width scaledCanvas = 7
       /\ slicer nearest 2 scaledCanvas
                 (sliceWidth_of (test_image 5 2)
                    (editor (Finite (3 # 2)) (of_Z 2) (of_Z 1)))
                 (field (editor (Finite (3 # 2)) (of_Z 2) (of_Z 1)) "numSplits")
          = Normal slices
       /\ length slices = 2%nat
       /\ (forall i, 0 <= i < 2 ->
             exists u b,
               nth_error slices (Z.to_nat i) = Some u
               /\ load_image u = Some b
               /\ width b = 3 /\ height b = 2
               /\ forall x y, 0 <= x < 3 -> 0 <= y < 2 ->
                    pixel b x y = pixel scaledCanvas (i * 3 + x) y)
       /\ (forall c, 2 * 3 <= c < 7 ->
             forall i x, 0 <= i < 2 -> 0 <= x < 3 -> i * 3 + x <> c).
Proof.
  apply (slicer_partition nearest (test_image 5 2)
           (editor (Finite (3 # 2)) (of_Z 2) (of_Z 1)) (15 # 2) 2).
  - simpl. lia.
  - vm_compute. reflexivity.
  - vm_compute. reflexivity.
  - reflexivity.
  - lia.
  - vm_compute. discriminate.
Defined.

(** C4 as stated fails when the scaled width is out of the range of a
    canvas width, because the slice width is computed from the scaled
    width and not from the canvas: a 1-wide image at scale 4294967298
    gives a scaled canvas [W = 2] wide, and with numSplits 2, where
    [W / 2] is 1, the slice width is 2147483649 and both slice canvases
    are 300 wide. *)
Lemma slicer_partition_counterexample :
  exists scaledCanvas slices,
    scaler nearest (test_image 1 1)
           (scaledWidth_of (test_image 1 1) (editor (of_Z 4294967298) (of_Z 2) (of_Z 1)))
    = Normal scaledCanvas
    /\ width scaledCanvas = 2
    /\ sliceWidth_of (test_image 1 1) (editor (of_Z 4294967298) (of_Z 2) (of_Z 1))
       = of_Z 2147483649
    /\ slicer nearest 1 scaledCanvas
              (sliceWidth_of (test_image 1 1)
                 (editor (of_Z 4294967298) (of_Z 2) (of_Z 1)))
              (field (editor (of_Z 4294967298) (of_Z 2) (of_Z 1)) "numSplits")
       = Normal slices
    /\ length slices = 2%nat
    /\ forall i u, nth_error slices i = Some u ->
         exists b, load_image u = Some b /\ width b = 300.
Proof.
  destruct (scaler_canvas nearest (test_image 1 1)
              (scaledWidth_of (test_image 1 1)
                 (editor (of_Z 4294967298) (of_Z 2) (of_Z 1))))
    as (sc & Hsc & Hw & Hh & _).
  assert (Hw2 : width sc = 2) by (rewrite Hw; vm_compute; reflexivity).
  assert (Hh1 : height sc = 1) by (rewrite Hh; vm_compute; reflexivity).
  assert (Hk : sliceWidth_of (test_image 1 1)
                 (editor (of_Z 4294967298) (of_Z 2) (of_Z 1)) = of_Z 2147483649)
    by (vm_compute; reflexivity).
  destruct (slicer_canvases nearest 1 sc (of_Z 2147483649) 2)
    as (slices & Hsl & Hlen & Hnth); try lia.
  exists sc, slices. split; [exact Hsc|]. split; [exact Hw2|]. split; [exact Hk|].
  rewrite Hk. split; [exact Hsl|]. split; [exact Hlen|].
  intros i u Hu. destruct (Hnth i u Hu) as (c & -> & Hcw & Hch & _).
  assert (Hcw' : width c = 300) by (rewrite Hcw; vm_compute; reflexivity).
  assert (Hch' : height c = 1) by (rewrite Hch; vm_compute; reflexivity).
  destruct (load_toDataURL c) as (b & Hb & Hbw & _); try lia.
  exists b. split; [exact Hb|lia].
Qed.

(** ** The order of the [onload] callbacks *)

Lemma insert_at_permutation {A : Type} (k : nat) (x : A) (l : list A) :
  Permutation (insert_at k x l) (x :: l).
Proof.
  unfold insert_at. symmetry.
  rewrite <- (firstn_skipn k l) at 1. apply Permutation_middle.
Qed.

Lemma arrival_order_permutation (sched : list nat) (n : nat) :
  Permutation (arrival_order sched n) (seq 0 n).
Proof.
  induction n as [|n IH]; [constructor|].
  cbn [arrival_order]. rewrite insert_at_permutation, IH.
  rewrite seq_S. cbn [Nat.add]. apply Permutation_cons_append.
Qed.

Lemma arrival_order_NoDup (sched : list nat) (n : nat) :
  List.NoDup (arrival_order sched n).
Proof.
  apply (Permutation_NoDup (l := seq 0 n)).
  - symmetry. apply arrival_order_permutation.
  - apply seq_NoDup.
Qed.

Lemma arrival_order_In (sched : list nat) (n i : nat) :
  In i (arrival_order sched n) <-> (i < n)%nat.
Proof.
  split; intros H.
  - apply (Permutation_in _ (arrival_order_permutation sched n)) in H.
    apply in_seq in H. lia.
  - apply (Permutation_in _ (Permutation_sym (arrival_order_permutation sched n))).
    apply in_seq. lia.
Qed.

Lemma arrival_order_ext (s1 s2 : list nat) (n : nat) :
  (forall m, (m < n)%nat -> nth m s1 O = nth m s2 O) ->
  arrival_order s1 n = arrival_order s2 n.
Proof.
  induction n as [|n IH]; intros H; [reflexivity|].
  cbn [arrival_order]. rewrite (H n) by lia. rewrite IH; [reflexivity|].
  intros m Hm. apply H. lia.
Qed.

(** Every order of the callbacks is the order of some list. *)
Lemma arrival_order_complete (n : nat) (order : list nat) :
  Permutation order (seq 0 n) -> exists sched, arrival_order sched n = order.
Proof.
  revert order. induction n as [|n IH]; intros order Hperm.
  - apply Permutation_sym, Permutation_nil in Hperm. subst. exists nil. reflexivity.
  - rewrite seq_S in Hperm. cbn [Nat.add] in Hperm.
    assert (Hin : In n order).
    { apply (Permutation_in n (Permutation_sym Hperm)). apply in_or_app.
      right. left. reflexivity. }
    apply in_split in Hin. destruct Hin as (l1 & l2 & ->).
    assert (Hrest : Permutation (l1 ++ l2) (seq 0 n)).
    { apply (Permutation_cons_inv (a := n)).
      rewrite Permutation_middle, Hperm. symmetry. apply Permutation_cons_append. }
    destruct (IH (l1 ++ l2) Hrest) as (sched & Hsched).
    assert (Hlen : (length l1 + length l2 = n)%nat).
    { rewrite <- length_app, (Permutation_length Hrest). apply length_seq. }
    exists (map (fun m => nth m sched O) (seq 0 n) ++ length l1 :: nil).
    cbn [arrival_order].
    rewrite app_nth2 by (rewrite length_map, length_seq; lia).
    rewrite length_map, length_seq, Nat.sub_diag. cbn [nth].
    rewrite Nat.mod_small by lia.
    rewrite (arrival_order_ext _ sched).
    + rewrite Hsched. unfold insert_at.
      rewrite firstn_app, Nat.sub_diag, firstn_all, firstn_O, app_nil_r.
      rewrite skipn_app, Nat.sub_diag, skipn_all, skipn_O. reflexivity.
    + intros m Hm. rewrite app_nth1 by (rewrite length_map, length_seq; lia).
      rewrite (nth_indep _ O ((fun m0 => nth m0 sched O) O))
        by (rewrite length_map, length_seq; lia).
      rewrite (map_nth (fun m0 => nth m0 sched O)), seq_nth by lia. reflexivity.
Qed.

Lemma existsb_eqb_In (i : nat) (l : list nat) :
  existsb (Nat.eqb i) l = true <-> In i l.
Proof.
  rewrite existsb_exists. split.
  - intros (x & Hx & E). apply Nat.eqb_eq in E. subst. exact Hx.
  - intros H. exists i. split; [exact H|apply Nat.eqb_refl].
Qed.

(** ** Loading the slices *)

Lemma load_all_spec (slices : list DataURL) :
  (load_all slices = Abrupt LoadNeverFires /\ In EmptyData slices)
  \/ exists images,
       load_all slices = Normal images
       /\ Forall2 (fun u b => load_image u = Some b) slices images.
Proof.
  induction slices as [|u rest IH].
  - right. exists nil. split; [reflexivity|constructor].
  - cbn [load_all]. destruct u as [|w h rows].
    + left. split; [reflexivity|left; reflexivity].
    + cbn [load_image]. destruct IH as [[E Hin]|(images & E & HF)].
      * left. rewrite E. split; [reflexivity|right; exact Hin].
      * right. rewrite E. eexists. split; [reflexivity|].
        constructor; [reflexivity|exact HF].
Qed.

Lemma Forall2_nth_error_l {A B : Type} (R : A -> B -> Prop) (l1 : list A) (l2 : list B) :
  Forall2 R l1 l2 ->
  forall i a, nth_error l1 i = Some a -> exists b, nth_error l2 i = Some b /\ R a b.
Proof.
  induction 1 as [|x y l1 l2 Hxy HF IH]; intros [|i] a Ha; try discriminate.
  - injection Ha as <-. exists y. split; [reflexivity|exact Hxy].
  - apply (IH i a Ha).
Qed.

Lemma Forall2_nth_error_r {A B : Type} (R : A -> B -> Prop) (l1 : list A) (l2 : list B) :
  Forall2 R l1 l2 ->
  forall i b, nth_error l2 i = Some b -> exists a, nth_error l1 i = Some a /\ R a b.
Proof.
  induction 1 as [|x y l1 l2 Hxy HF IH]; intros [|i] b Hb; try discriminate.
  - injection Hb as <-. exists x. split; [reflexivity|exact Hxy].
  - apply (IH i b Hb).
Qed.

(** ** The vertical merge *)

Lemma slice_blit_elsewhere (h : Z) (i : nat) (b c : Bitmap) (X Y : Z) :
  1 <= h -> height b <= h -> Z.to_nat (Y / h) <> i ->
  slice_blit h i b c X Y = pixel c X Y.
Proof.
  intros Hh Hb Hne. unfold slice_blit, blit. cbn [user_row].
  assert (Hband : Z.of_nat i * h <= Y < Z.of_nat i * h + h -> False).
  { intros HY. apply Hne.
    assert (Y / h = Z.of_nat i); [|lia].
    symmetry. apply (Z.div_unique Y h (Z.of_nat i) (Y - Z.of_nat i * h)); lia. }
  destruct (Z.of_nat i mod 2 =? 1).
  - destruct (_ && _) eqn:E; [|reflexivity].
    exfalso. apply Hband.
    repeat (apply andb_prop in E; destruct E as [E ?]).
    lia.
  - destruct (_ && _) eqn:E; [|reflexivity].
    exfalso. apply Hband.
    repeat (apply andb_prop in E; destruct E as [E ?]).
    lia.
Qed.

Lemma slice_blit_ext (h : Z) (i : nat) (b c1 c2 : Bitmap) (X Y : Z) :
  pixel c1 X Y = pixel c2 X Y ->
  slice_blit h i b c1 X Y = slice_blit h i b c2 X Y.
Proof.
  intros E. unfold slice_blit, blit. rewrite E. reflexivity.
Qed.

Section MergeFacts.

Variable resample : Bitmap -> Rect -> Rect -> Transform -> Z -> Z -> option RGBA.

Lemma draw_slice_whole (h : Z) (i : nat) (b c : Bitmap) :
  exists c',
    draw_slice resample h i b c = Normal c'
    /\ width c' = width c /\ height c' = height c
    /\ forall X Y, pixel c' X Y = slice_blit h i b c X Y.
Proof.
  unfold draw_slice, slice_blit. destruct (Z.of_nat i mod 2 =? 1).
  - apply (drawImage3_whole resample _ (ImageElement b) 0 0 c). reflexivity.
  - apply (drawImage3_whole resample _ (ImageElement b) 0 (Z.of_nat i * h) c).
    reflexivity.
Qed.

Lemma merge_callbacks (h : Z) (images : list Bitmap) :
  1 <= h ->
  (forall i b, nth_error images i = Some b -> height b <= h) ->
  forall order c, List.NoDup order ->
    exists c',
      fold_left (on_load resample h images) order (Normal c) = Normal c'
      /\ width c' = width c /\ height c' = height c
      /\ forall X Y, pixel c' X Y = merged h images order c X Y.
Proof.
  intros Hh Himg. induction order as [|j rest IH]; intros c Hnd.
  - exists c. cbn [fold_left]. unfold merged. cbn [existsb]. auto.
  - inversion Hnd as [|? ? Hnotin Hnd']; subst.
    cbn [fold_left]. unfold on_load at 2. cbn [bind].
    assert (Hstep : exists c1,
               match nth_error images j with
               | Some sliceImg => draw_slice resample h j sliceImg c
               | None => Normal c
               end = Normal c1
               /\ width c1 = width c /\ height c1 = height c
               /\ forall X Y,
                    pixel c1 X Y
                    = match nth_error images j with
                      | Some sliceImg => slice_blit h j sliceImg c X Y
                      | None => pixel c X Y
                      end).
    { destruct (nth_error images j) as [b|]; [apply draw_slice_whole|].
      exists c. auto. }
    destruct Hstep as (c1 & Hc1 & Hw1 & Hh1 & Hp1). rewrite Hc1.
    destruct (IH c1 Hnd') as (c' & Hc' & Hw' & Hh' & Hp').
    exists c'. split; [exact Hc'|]. split; [congruence|]. split; [congruence|].
    intros X Y. rewrite Hp'. unfold merged. cbn [existsb].
    destruct (Nat.eqb (Z.to_nat (Y / h)) j) eqn:Ej.
    + apply Nat.eqb_eq in Ej. cbn [orb].
      destruct (existsb (Nat.eqb (Z.to_nat (Y / h))) rest) eqn:Er.
      * exfalso. apply Hnotin. apply existsb_eqb_In in Er. rewrite <- Ej. exact Er.
      * rewrite Hp1, Ej. reflexivity.
    + apply Nat.eqb_neq in Ej. cbn [orb].
      assert (Hsame : pixel c1 X Y = pixel c X Y).
      { rewrite Hp1. destruct (nth_error images j) as [b|] eqn:Eb; [|reflexivity].
        apply slice_blit_elsewhere; [exact Hh|apply (Himg j b Eb)|exact Ej]. }
      destruct (existsb (Nat.eqb (Z.to_nat (Y / h))) rest); [|exact Hsame].
      destruct (nth_error images (Z.to_nat (Y / h))); [|exact Hsame].
      apply slice_blit_ext. exact Hsame.
Qed.

End MergeFacts.

Lemma slice_blit_band (h : Z) (i : nat) (b c : Bitmap) (x y : Z) :
  height b = h -> 0 <= x < width b -> 0 <= y < h ->
  slice_blit h i b c x (Z.of_nat i * h + y)
  = source_over (pixel b x (if Z.odd (Z.of_nat i) then h - 1 - y else y))
                (pixel c x (Z.of_nat i * h + y)).
Proof.
  intros Hb Hx Hy. unfold slice_blit, blit. rewrite Hb. cbn [user_row].
  rewrite Zmod_odd. destruct (Z.odd (Z.of_nat i)); cbn [Z.eqb Pos.eqb].
  - replace (0 + (x - 0)) with x by lia.
    replace (0 + ((Z.of_nat i + 1) * h - 1 - (Z.of_nat i * h + y) - 0))
      with (h - 1 - y) by lia.
    replace ((Z.of_nat i + 1) * h - 1 - (Z.of_nat i * h + y)) with (h - 1 - y) by lia.
    destruct (_ && _) eqn:E; [reflexivity|].
    exfalso. repeat (apply andb_false_iff in E; destruct E as [E|E]);
      try (apply Z.leb_gt in E; lia); try (apply Z.ltb_ge in E; lia).
  - replace (0 + (x - 0)) with x by lia.
    replace (0 + (Z.of_nat i * h + y - Z.of_nat i * h)) with y by lia.
    destruct (_ && _) eqn:E; [reflexivity|].
    exfalso. repeat (apply andb_false_iff in E; destruct E as [E|E]);
      try (apply Z.leb_gt in E; lia); try (apply Z.ltb_ge in E; lia).
Qed.


(** The vertical canvas, pixel by pixel, once every slice has loaded. *)
Lemma compositeVertical_merged
    (resample : Bitmap -> Rect -> Rect -> Transform -> Z -> Z -> option RGBA)
    (sched : list nat) (h : Z) (sliceWidth : number) (slices : list DataURL)
    (images : list Bitmap) :
  1 <= h ->
  load_all slices = Normal images ->
  (forall i b, nth_error images i = Some b -> height b <= h) ->
  exists vc,
    compositeVertical resample sched h sliceWidth slices = Normal vc
    /\ width vc = width (createCanvas sliceWidth (of_Z (totalHeight h slices)))
    /\ height vc = height (createCanvas sliceWidth (of_Z (totalHeight h slices)))
    /\ forall X Y,
         pixel vc X Y
         = merged h images (arrival_order sched (length slices))
                  (createCanvas sliceWidth (of_Z (totalHeight h slices))) X Y.
Proof.
  intros Hh Hload Himg. unfold compositeVertical. rewrite Hload. cbn [bind].
  apply (merge_callbacks resample h images Hh Himg).
  apply arrival_order_NoDup.
Qed.


(** On slices of one size the merge of ImageEditorBackup.tsx draws what
    the merge of ImageEditor.tsx draws. *)
Lemma Backup_draw_slice_same
    (resample : Bitmap -> Rect -> Rect -> Transform -> Z -> Z -> option RGBA)
    (k h : Z) (i : nat) (b c : Bitmap) :
  width b = k -> height b = h ->
  Backup.draw_slice resample k h i b c = draw_slice resample h i b c.
Proof.
  intros Hw Hh. unfold Backup.draw_slice, draw_slice, drawImage3.
  cbn [bitmap_of]. rewrite Hw, Hh. reflexivity.
Qed.

Lemma Backup_fold_same
    (resample : Bitmap -> Rect -> Rect -> Transform -> Z -> Z -> option RGBA)
    (k h : Z) (images : list Bitmap) :
  (forall i b, nth_error images i = Some b -> width b = k /\ height b = h) ->
  forall order acc,
    fold_left (Backup.on_load resample k h images) order acc
    = fold_left (on_load resample h images) order acc.
Proof.
  intros Himg. induction order as [|i rest IH]; intros acc; [reflexivity|].
  cbn [fold_left]. rewrite IH. f_equal.
  unfold Backup.on_load, on_load. destruct acc as [c|r]; [|reflexivity].
  cbn [bind]. destruct (nth_error images i) as [b|] eqn:E; [|reflexivity].
  destruct (Himg i b E) as [Hw Hh]. apply Backup_draw_slice_same; assumption.
Qed.

Lemma Backup_mergeVertical_same
    (resample : Bitmap -> Rect -> Rect -> Transform -> Z -> Z -> option RGBA)
    (sched : list nat) (h k : Z) (slices : list DataURL) :
  (forall i u, nth_error slices i = Some u -> slice_of_size k h u) ->
  slices <> nil ->
  Backup.mergeVertical resample sched slices
  = compositeVertical resample sched h (of_Z k) slices.
Proof.
  intros Hslices Hne. destruct slices as [|first rest]; [congruence|].
  unfold Backup.mergeVertical, compositeVertical, totalHeight.
  destruct (Hslices 0%nat first eq_refl) as (b0 & Hb0 & Hw0 & Hh0 & _).
  rewrite Hb0, Hw0, Hh0.
  destruct (load_all_spec (first :: rest)) as [[E _]|(images & Hload & HF)].
  { rewrite E. reflexivity. }
  rewrite Hload. cbn [bind]. apply Backup_fold_same.
  intros i b Hb. destruct (Forall2_nth_error_r _ _ _ HF i b Hb) as (u & Hu & Hub).
  destruct (Hslices i u Hu) as (b' & Hb' & Hbw & Hbh & _).
  assert (b' = b) by congruence. subst b'. auto.
Qed.




Example run_merge_test_slices :
  match compositeVertical nearest [0; 0]%nat 2 (of_Z 2) test_slices with
  | Normal c => map (map red) (rows_of c)
  | Abrupt _ => nil
  end = [[0; 1]; [10; 11]; [12; 13]; [2; 3]].
Proof. vm_compute. reflexivity. Qed.

Example run_backup_merge_test_slices :
  match Backup.mergeVertical nearest [0; 0]%nat test_slices with
  | Normal c => map (map red) (rows_of c)
  | Abrupt _ => nil
  end = [[0; 1]; [10; 11]; [12; 13]; [2; 3]].
Proof. vm_compute. reflexivity. Qed.

(** The slices that the Slicer makes are of that form. *)
Lemma slicer_slices_of_size
    (resample : Bitmap -> Rect -> Rect -> Transform -> Z -> Z -> option RGBA)
    (h : Z) (sc : Bitmap) (k : Z) (q : Q) :
  1 <= width sc < 2 ^ 31 -> 1 <= height sc -> 1 <= k < 2 ^ 31 -> 1 <= h < 2 ^ 31 ->
  exists slices,
    slicer resample h sc (of_Z k) (Finite q) = Normal slices
    /\ length slices = Z.to_nat (Qceiling q)
    /\ forall i u, nth_error slices i = Some u -> slice_of_size k h u.
Proof.
  intros Hw Hh Hk Hh1.
  destruct (slicer_slices resample h sc k q) as (slices & Hsl & Hlen & Hnth); try lia.
  exists slices. split; [exact Hsl|]. split; [exact Hlen|].
  intros i u Hu. destruct (Hnth i u Hu) as (c & -> & Hcw & Hch & Hcp).
  destruct (load_toDataURL c) as (b & Hb & Hbw & Hbh & Hbp); try lia.
  exists b. split; [exact Hb|]. split; [lia|]. split; [lia|].
  intros x y Hx Hy. rewrite Hbp by lia. rewrite Hcp.
  apply slice_pixel_opaque; lia.
Qed.

(** ** The horizontal repeat *)

Section RepeatFacts.

Variable resample : Bitmap -> Rect -> Rect -> Transform -> Z -> Z -> option RGBA.

(** A destination that starts to the right of the pixel leaves it alone. *)
Lemma blit_before (image : Bitmap) (sx sy sw sh dx dy : Z) (tr : Transform)
    (canvas : Bitmap) (X Y : Z) :
  X < dx -> blit image sx sy sw sh dx dy tr canvas X Y = pixel canvas X Y.
Proof.
  intros H. unfold blit. destruct (_ && _) eqn:E; [|reflexivity].
  exfalso. reflect_comparisons. lia.
Qed.

(** One copy of the vertical canvas, drawn at [i * sliceWidth]: the
    product is exact where it can reach a canvas pixel. *)
Lemma repeat_step (vc fc : Bitmap) (i : Z) :
  1 <= width vc -> 1 <= height vc -> 0 <= i ->
  exists fc1,
    drawImage3 resample Identity (CanvasElement vc)
               (mul (of_Z i) (of_Z (width vc))) (of_Z 0) fc = Normal fc1
    /\ width fc1 = width fc /\ height fc1 = height fc
    /\ forall X Y, X < 2 ^ 53 ->
         pixel fc1 X Y
         = blit vc 0 0 (width vc) (height vc) (i * width vc) 0 Identity fc X Y.
Proof.
  intros Hw Hh Hi. pose proof (usable_canvas vc Hw Hh) as Hu.
  destruct (mul_of_Z_cases i (width vc)) as [(z & Hz & Hcase)|[Hinf Hbig]]; [nia| |].
  - rewrite Hz.
    destruct (drawImage3_whole resample Identity (CanvasElement vc) z 0 fc Hu)
      as (fc1 & Hfc1 & Hw1 & Hh1 & Hp1).
    exists fc1. split; [exact Hfc1|]. split; [exact Hw1|]. split; [exact Hh1|].
    intros X Y HX. rewrite Hp1. cbn [bitmap_of].
    destruct Hcase as [->|[Hz53 Hik]]; [reflexivity|].
    rewrite !blit_before by lia. reflexivity.
  - rewrite Hinf. unfold drawImage3, drawImage5, drawImage9. rewrite Hu.
    cbn [forallb isFinite of_Z negb andb].
    exists fc. split; [reflexivity|]. split; [reflexivity|]. split; [reflexivity|].
    intros X Y HX. rewrite blit_before by lia. reflexivity.
Qed.

Lemma repeat_iterate (vc : Bitmap) :
  1 <= width vc -> 1 <= height vc ->
  (forall x y, 0 <= x < width vc -> 0 <= y < height vc -> alpha (pixel vc x y) = 255) ->
  forall m i0 fc, 0 <= i0 ->
    exists fc',
      iterate m i0
        (fun i finalCanvas =>
           drawImage3 resample Identity (CanvasElement vc)
                      (mul (of_Z i) (of_Z (width vc))) (of_Z 0) finalCanvas) fc
      = Normal fc'
      /\ width fc' = width fc /\ height fc' = height fc
      /\ forall X Y, X < 2 ^ 53 ->
           pixel fc' X Y
           = if (i0 * width vc <=? X) && (X <? (i0 + Z.of_nat m) * width vc)
                && (0 <=? Y) && (Y <? height vc)
             then pixel vc (X mod width vc) Y
             else pixel fc X Y.
Proof.
  intros Hw Hh Hopaque. induction m as [|m IH]; intros i0 fc Hi0.
  - exists fc. cbn [iterate]. split; [reflexivity|]. split; [reflexivity|].
    split; [reflexivity|]. intros X Y _.
    destruct (_ && _) eqn:E; [|reflexivity].
    exfalso. reflect_comparisons. lia.
  - cbn [iterate].
    destruct (repeat_step vc fc i0 Hw Hh Hi0) as (fc1 & Hfc1 & Hw1 & Hh1 & Hp1).
    rewrite Hfc1. cbn [bind].
    destruct (IH (i0 + 1) fc1) as (fc' & Hfc' & Hw' & Hh' & Hp'); [lia|].
    exists fc'. split; [exact Hfc'|]. split; [congruence|]. split; [congruence|].
    intros X Y HX. rewrite Hp', Hp1 by exact HX. unfold blit. cbn [user_row].
    replace (0 + (X - i0 * width vc)) with (X - i0 * width vc) by lia.
    replace (0 + (Y - 0)) with Y by lia.
    destruct ((i0 + 1) * width vc <=? X) eqn:E1;
      destruct (X <? (i0 + 1 + Z.of_nat m) * width vc) eqn:E2;
      destruct (0 <=? Y) eqn:E3; destruct (Y <? height vc) eqn:E4;
      destruct (i0 * width vc <=? X) eqn:E5;
      destruct (X <? (i0 + Z.of_nat (S m)) * width vc) eqn:E6;
      destruct (X <? i0 * width vc + width vc) eqn:E7;
      destruct (0 <=? X - i0 * width vc) eqn:E8;
      destruct (X - i0 * width vc <? width vc) eqn:E9;
      destruct (Y <? 0 + height vc) eqn:E10;
      cbn [andb]; try reflexivity; reflect_comparisons; try (exfalso; nia).
    assert (Hmod : X mod width vc = X - i0 * width vc).
    { symmetry. apply (Z.mod_unique X (width vc) i0); lia. }
    rewrite Hmod. apply source_over_opaque. apply Hopaque; lia.
Qed.

End RepeatFacts.

(** The final canvas, pixel by pixel, for an integer repeat count. *)
Lemma repeatHorizontal_pixels
    (resample : Bitmap -> Rect -> Rect -> Transform -> Z -> Z -> option RGBA)
    (vc : Bitmap) (c : Z) :
  1 <= width vc -> 1 <= height vc < 2 ^ 31 ->
  (forall x y, 0 <= x < width vc -> 0 <= y < height vc -> alpha (pixel vc x y) = 255) ->
  1 <= c -> width vc * c < 2 ^ 31 ->
  exists fc,
    repeatHorizontal resample vc (of_Z (width vc)) (height vc) (of_Z c) = Normal fc
    /\ width fc = width vc * c
    /\ height fc = height vc
    /\ forall X Y, 0 <= X < width vc * c -> 0 <= Y < height vc ->
         pixel fc X Y = pixel vc (X mod width vc) Y.
Proof.
  intros Hw Hh Hopaque Hc Hwc. unfold repeatHorizontal, for_loop.
  assert (H53 : 2 ^ 31 < 2 ^ 53) by reflexivity.
  rewrite iterations_of_Z, mul_of_Z by nia.
  destruct (repeat_iterate resample vc Hw ltac:(lia) Hopaque (Z.to_nat c) 0
              (createCanvas (of_Z (width vc * c)) (of_Z (height vc))))
    as (fc & Hfc & Hfw & Hfh & Hfp); [lia|].
  exists fc. split; [exact Hfc|].
  rewrite Hfw, Hfh. cbn [createCanvas width height].
  rewrite !dimension_of_Z by nia.
  split; [reflexivity|]. split; [reflexivity|].
  intros X Y HX HY. rewrite Hfp by lia.
  destruct (_ && _) eqn:E; [reflexivity|].
  exfalso. rewrite Z2Nat.id in E by lia.
  repeat (apply andb_false_iff in E; destruct E as [E|E]);
    reflect_comparisons; nia.
Qed.

(** The composite that the vertical merge hands on is opaque. *)
Lemma fold_on_load_abrupt
    (resample : Bitmap -> Rect -> Rect -> Transform -> Z -> Z -> option RGBA)
    (h : Z) (images : list Bitmap) (order : list nat) (r : Abruption) :
  fold_left (on_load resample h images) order (Abrupt r) = Abrupt r.
Proof. induction order as [|i rest IH]; [reflexivity|exact IH]. Qed.

Lemma compositeVertical_opaque
    (resample : Bitmap -> Rect -> Rect -> Transform -> Z -> Z -> option RGBA)
    (sched : list nat) (h k : Z) (slices : list DataURL) (vc : Bitmap) :
  1 <= k -> 1 <= h -> slices <> nil ->
  compositeVertical resample sched h (of_Z k) slices = Normal vc ->
  forall X Y, alpha (pixel vc X Y) = 255.
Proof.
  intros Hk Hh Hne. unfold compositeVertical.
  destruct (load_all slices) as [images|r]; [|discriminate]. cbn [bind].
  assert (Hwhite : forall X Y,
             alpha (pixel (createCanvas (of_Z k) (of_Z (totalHeight h slices))) X Y) = 255).
  { intros X Y. unfold of_Z. rewrite createCanvas_white; [reflexivity| |].
    - apply inject_Z_pos. lia.
    - apply inject_Z_pos. unfold totalHeight. destruct slices; [congruence|].
      cbn [length]. nia. }
  revert Hwhite. generalize (createCanvas (of_Z k) (of_Z (totalHeight h slices))).
  generalize (arrival_order sched (length slices)).
  induction l as [|i rest IH]; intros c Hc Hrun.
  - cbn [fold_left] in Hrun. injection Hrun as <-. exact Hc.
  - cbn [fold_left] in Hrun. unfold on_load at 2 in Hrun. cbn [bind] in Hrun.
    destruct (nth_error images i) as [b|]; [|apply (IH c Hc Hrun)].
    destruct (draw_slice resample h i b c) as [c1|r] eqn:E.
    + apply (IH c1); [|exact Hrun].
      unfold draw_slice, drawImage3, drawImage5 in E.
      destruct (Z.of_nat i mod 2 =? 1); apply drawImage9_shape in E;
        destruct E as (_ & _ & Ha); intros X Y; apply Ha, Hc.
    + rewrite fold_on_load_abrupt in Hrun. discriminate.
Qed.

(** C5, as the code has it. For a composite of width [w] and height [h]
    (a canvas that [createCanvas] painted, hence opaque) and an integer
    repeat count [c >= 1] such that [w * c] is below 2^31, the final
    canvas is [w * c] wide and [h] high, and its columns
    [i * w .. i * w + w - 1] hold the composite unchanged for every
    [i < c]: no gap, no flip.  With [c = 1] the output is the composite
    itself. *)
Theorem repeatHorizontal_tiles
    (resample : Bitmap -> Rect -> Rect -> Transform -> Z -> Z -> option RGBA)
    (verticalCanvas : Bitmap) (c : Z) :
  1 <= width verticalCanvas -> 1 <= height verticalCanvas < 2 ^ 31 ->
  (forall x y, 0 <= x < width verticalCanvas -> 0 <= y < height verticalCanvas ->
     alpha (pixel verticalCanvas x y) = 255) ->
  1 <= c -> width verticalCanvas * c < 2 ^ 31 ->
  exists finalCanvas,
    repeatHorizontal resample verticalCanvas (of_Z (width verticalCanvas))
                     (height verticalCanvas) (of_Z c) = Normal finalCanvas
    /\ width finalCanvas = width verticalCanvas * c
    /\ height finalCanvas = height verticalCanvas
    /\ (forall i x y,
          0 <= i < c -> 0 <= x < width verticalCanvas -> 0 <= y < height verticalCanvas ->
          pixel finalCanvas (i * width verticalCanvas + x) y = pixel verticalCanvas x y)
    /\ (c = 1 -> toDataURL finalCanvas = toDataURL verticalCanvas).
Proof.
  intros Hw Hh Hopaque Hc Hwc.
  destruct (repeatHorizontal_pixels resample verticalCanvas c Hw Hh Hopaque Hc Hwc)
    as (fc & Hfc & Hfw & Hfh & Hfp).
  exists fc. split; [exact Hfc|]. split; [exact Hfw|]. split; [exact Hfh|].
  assert (Htile : forall i x y,
             0 <= i < c -> 0 <= x < width verticalCanvas ->
             0 <= y < height verticalCanvas ->
             pixel fc (i * width verticalCanvas + x) y = pixel verticalCanvas x y).
  { intros i x y Hi Hx Hy. rewrite Hfp by nia.
    f_equal. rewrite Z.add_comm, Z.mod_add by lia. apply Z.mod_small. lia. }
  split; [exact Htile|].
  intros ->. apply toDataURL_ext.
  - lia.
  - exact Hfh.
  - intros x y Hx Hy. rewrite <- (Htile 0 x y) by lia. reflexivity.
Qed.

Lemma repeatHorizontal_tiles_witness :
  exists finalCanvas,
    repeatHorizontal nearest test_composite (of_Z (width test_composite))
                     (height test_composite) (of_Z 3) = Normal finalCanvas
    /\ width finalCanvas = width test_composite * 3
    /\ height finalCanvas = height test_composite
    /\ (forall i x y,
          0 <= i < 3 -> 0 <= x < width test_composite -> 0 <= y < height test_composite ->
          pixel finalCanvas (i * width test_composite + x) y = pixel test_composite x y)
    /\ (3 = 1 -> toDataURL finalCanvas = toDataURL test_composite).
Proof.
  apply (repeatHorizontal_tiles nearest test_composite 3).
  - simpl. lia.
  - simpl. lia.
  - intros x y _ _. reflexivity.
  - lia.
  - simpl. lia.
Defined.

(** C5 as stated fails when [w * c] does not fit a canvas: for a
    composite 65535 wide and 32769 copies the width assigned to the final
    canvas is 2147516415, which is out of the range of [canvas.width];
    the canvas is 300 wide and shows the first 300 columns of the first
    copy. *)
Lemma repeatHorizontal_tiles_counterexample :
  (forall x y, alpha (pixel (test_image 65535 1) x y) = 255)
  /\ 65535 * 32769 = 2147516415
  /\ exists finalCanvas,
       repeatHorizontal nearest (test_image 65535 1) (of_Z 65535) 1 (of_Z 32769)
       = Normal finalCanvas
       /\ width finalCanvas = 300
       /\ forall x, 0 <= x < 300 ->
            pixel finalCanvas x 0 = pixel (test_image 65535 1) x 0.
Proof.
  split; [intros x y; reflexivity|]. split; [reflexivity|].
  unfold repeatHorizontal, for_loop.
  rewrite iterations_of_Z, mul_of_Z by (split; [discriminate|reflexivity]).
  destruct (repeat_iterate nearest (test_image 65535 1)) with
    (m := Z.to_nat 32769) (i0 := 0)
    (fc := createCanvas (of_Z (65535 * 32769)) (of_Z 1))
    as (fc & Hfc & Hfw & _ & Hfp).
  - cbn [test_image width]. lia.
  - cbn [test_image height]. lia.
  - intros x y _ _. reflexivity.
  - lia.
  - exists fc. split; [exact Hfc|]. split; [rewrite Hfw; vm_compute; reflexivity|].
    intros x Hx.
    assert (H53 : 300 < 2 ^ 53) by reflexivity.
    rewrite Hfp by lia. cbn [test_image width height].
    rewrite Z2Nat.id by lia.
    destruct (_ && _) eqn:E.
    + rewrite Z.mod_small by lia. reflexivity.
    + exfalso. repeat (apply andb_false_iff in E; destruct E as [E|E]);
        reflect_comparisons; lia.
Qed.

Example run_repeat :
  match repeatHorizontal nearest test_composite (of_Z 2) 3 (of_Z 3) with
  | Normal c => map (map red) (rows_of c)
  | Abrupt _ => nil
  end = [[0; 1; 0; 1; 0; 1]; [10; 11; 10; 11; 10; 11]; [20; 21; 20; 21; 20; 21]].
Proof. vm_compute. reflexivity. Qed.

(** ** The pipeline with scale = numSplits = horizontalRepeat = 1 *)

Lemma arrival_order_1 (sched : list nat) : arrival_order sched 1 = [0%nat].
Proof. cbn [arrival_order]. rewrite Nat.mod_1_r. reflexivity. Qed.

Section IdentityFacts.

Variable resample : Bitmap -> Rect -> Rect -> Transform -> Z -> Z -> option RGBA.

Lemma scaler_copy (img : Bitmap) :
  1 <= width img < 2 ^ 31 -> 1 <= height img < 2 ^ 31 ->
  exists sc,
    scaler resample img (of_Z (width img)) = Normal sc
    /\ width sc = width img /\ height sc = height img
    /\ (forall X Y, alpha (pixel sc X Y) = 255)
    /\ forall X Y, 0 <= X < width img -> 0 <= Y < height img ->
         pixel sc X Y = source_over (pixel img X Y) white.
Proof.
  intros Hw Hh. unfold scaler, drawImage5. cbn [bitmap_of].
  destruct (drawImage9_whole resample Identity (ImageElement img)
              0 0 (width img) (height img) 0 0
              (createCanvas (of_Z (width img)) (of_Z (height img))))
    as (sc & Hsc & Hscw & Hsch & Hscp); [reflexivity|].
  exists sc. split; [exact Hsc|].
  rewrite Hscw, Hsch. cbn [createCanvas width height].
  rewrite !dimension_of_Z by lia.
  split; [reflexivity|]. split; [reflexivity|].
  assert (Hwhite : forall X Y,
             pixel (createCanvas (of_Z (width img)) (of_Z (height img))) X Y = white).
  { intros X Y. unfold of_Z. apply createCanvas_white; apply inject_Z_pos; lia. }
  split.
  - intros X Y. apply drawImage9_shape in Hsc. destruct Hsc as (_ & _ & Ha).
    apply Ha. rewrite Hwhite. reflexivity.
  - intros X Y HX HY. rewrite Hscp. cbn [bitmap_of]. unfold blit. cbn [user_row].
    rewrite Hwhite.
    replace (0 + (X - 0)) with X by lia. replace (0 + (Y - 0)) with Y by lia.
    destruct (_ && _) eqn:E; [reflexivity|].
    exfalso. repeat (apply andb_false_iff in E; destruct E as [E|E]);
      reflect_comparisons; lia.
Qed.

Lemma identity_pipeline (sched : list nat) (img : Bitmap)
    (editorState : gmap string number) :
  1 <= width img < 2 ^ 31 -> 1 <= height img < 2 ^ 31 ->
  field editorState "scale" = of_Z 1 ->
  field editorState "numSplits" = of_Z 1 ->
  field editorState "horizontalRepeat" = of_Z 1 ->
  processAndDownload resample sched img editorState
  = Normal (toDataURL (over_white img)).
Proof.
  intros Hw Hh Hs Hn Hr.
  assert (H53 : 2 ^ 31 + 1 < 2 ^ 53) by reflexivity.
  assert (Hsw : scaledWidth_of img editorState = of_Z (width img)).
  { unfold scaledWidth_of. rewrite Hs, mul_of_Z, Z.mul_1_r by lia. reflexivity. }
  assert (Hk : sliceWidth_of img editorState = of_Z (width img)).
  { rewrite (sliceWidth_of_Z img editorState (inject_Z (width img)) 1 Hsw).
    - rewrite Qfloor_Z, Z.div_1_r. reflexivity.
    - apply inject_Z_nonneg. lia.
    - rewrite Qfloor_Z. lia.
    - exact Hn.
    - lia. }
  unfold processAndDownload. rewrite Hsw, Hk, Hn, Hr.
  destruct (scaler_copy img Hw Hh) as (sc & Hsc & Hscw & Hsch & Hsco & Hscp).
  rewrite Hsc. cbn [bind].
  destruct (slicer_slices resample (height img) sc (width img) (inject_Z 1))
    as (slices & Hsl & Hlen & Hnth); try lia.
  change (Finite (inject_Z 1)) with (of_Z 1) in Hsl.
  rewrite Hsl. cbn [bind]. rewrite Qceiling_Z in Hlen.
  destruct slices as [|u [|u' rest]]; try discriminate.
  destruct (Hnth 0%nat u eq_refl) as (c & -> & Hcw & Hch & Hcp).
  destruct (load_toDataURL c) as (b & Hb & Hbw & Hbh & Hbp); try lia.
  destruct (compositeVertical_merged resample sched (height img) (of_Z (width img))
              [toDataURL c] [b] ltac:(lia)) as (vc & Hvc & Hvw & Hvh & Hvp).
  { cbn [load_all]. rewrite Hb. reflexivity. }
  { intros [|i] b' Hb'; [injection Hb' as <-; lia|destruct i; discriminate]. }
  rewrite Hvc. cbn [bind].
  unfold totalHeight in *. cbn [length] in *.
  change (Z.of_nat 1) with 1 in *. rewrite Z.mul_1_r in *.
  cbn [createCanvas width height] in Hvw, Hvh.
  rewrite dimension_of_Z in Hvw, Hvh by lia.
  assert (Hwhite : forall X Y,
             pixel (createCanvas (of_Z (width img)) (of_Z (height img))) X Y = white).
  { intros X Y. unfold of_Z. apply createCanvas_white; apply inject_Z_pos; lia. }
  assert (Hvpix : forall x y, 0 <= x < width img -> 0 <= y < height img ->
                    pixel vc x y = source_over (pixel img x y) white).
  { intros x y Hx Hy. rewrite Hvp. unfold merged. rewrite arrival_order_1.
    rewrite Z.div_small by lia. change (Z.to_nat 0) with 0%nat.
    cbn [existsb Nat.eqb orb nth_error].
    pose proof (slice_blit_band (height img) 0 b
                  (createCanvas (of_Z (width img)) (of_Z (height img))) x y) as Hband.
    change (Z.of_nat 0 * height img + y) with y in Hband.
    rewrite Hband by lia. change (Z.odd (Z.of_nat 0)) with false. cbv iota.
    rewrite Hbp by lia. rewrite Hcp, Hwhite.
    rewrite slice_pixel_copied; try lia.
    - replace (0 * width img + x) with x by lia. rewrite <- Hscp by lia.
      apply source_over_opaque. apply Hsco.
    - apply Hsco. }
  destruct (repeatHorizontal_pixels resample vc 1) as (fc & Hfc & Hfw & Hfh & Hfp);
    try lia.
  { intros x y Hx Hy. rewrite Hvpix by lia. apply source_over_alpha. reflexivity. }
  rewrite Hvw, Hvh in Hfc. rewrite Hfc. cbn [bind]. f_equal.
  apply toDataURL_ext.
  - cbn [over_white width]. lia.
  - cbn [over_white height]. lia.
  - intros x y Hx Hy. rewrite Hfp by lia. cbn [over_white pixel].
    rewrite Z.mod_small by lia. apply Hvpix; lia.
Qed.

End IdentityFacts.

(** C7, as the code has it. With scale = numSplits = horizontalRepeat = 1 a
    source of size W x H yields a PNG of size W x H whose pixels are those
    of the source composited over the opaque white that [createCanvas]
    paints: row for row and column for column (slice 0 is not mirrored),
    and identical to the source when the source is opaque.  (The source is
    a decoded image: its sides are at least 1 and below 2^31.) *)
Theorem identity_parameters
    (resample : Bitmap -> Rect -> Rect -> Transform -> Z -> Z -> option RGBA)
    (sched : list nat) (img : Bitmap) (editorState : gmap string number) :
  1 <= width img < 2 ^ 31 -> 1 <= height img < 2 ^ 31 ->
  field editorState "scale" = of_Z 1 ->
  field editorState "numSplits" = of_Z 1 ->
  field editorState "horizontalRepeat" = of_Z 1 ->
  processAndDownload resample sched img editorState
  = Normal (PngData (width img) (height img) (rows_of (over_white img)))
  /\ ((forall x y, 0 <= x < width img -> 0 <= y < height img ->
         alpha (pixel img x y) = 255) ->
      processAndDownload resample sched img editorState
      = Normal (PngData (width img) (height img) (rows_of img))).
Proof.
  intros Hw Hh Hs Hn Hr.
  rewrite (identity_pipeline resample sched img editorState Hw Hh Hs Hn Hr).
  split.
  - rewrite toDataURL_png by (cbn [over_white width height]; lia). reflexivity.
  - intros Hopaque. rewrite <- (toDataURL_png img) by lia. f_equal.
    apply toDataURL_ext; try reflexivity.
    intros x y Hx Hy. cbn [over_white pixel width height] in *.
    apply source_over_opaque. apply Hopaque; lia.
Qed.

Lemma identity_parameters_witness :
  processAndDownload nearest nil (test_image 2 2) (editor (of_Z 1) (of_Z 1) (of_Z 1))
  = Normal (PngData 2 2 (rows_of (over_white (test_image 2 2))))
  /\ ((forall x y, 0 <= x < 2 -> 0 <= y < 2 -> alpha (pixel (test_image 2 2) x y) = 255) ->
      processAndDownload nearest nil (test_image 2 2) (editor (of_Z 1) (of_Z 1) (of_Z 1))
      = Normal (PngData 2 2 (rows_of (test_image 2 2)))).
Proof.
  apply (identity_parameters nearest nil (test_image 2 2)
           (editor (of_Z 1) (of_Z 1) (of_Z 1))).
  - simpl. lia.
  - simpl. lia.
  - reflexivity.
  - reflexivity.
  - reflexivity.
Defined.

(** C7 as stated fails on a source that is not opaque: the transparent
    pixel comes out white. *)
Lemma identity_parameters_counterexample :
  processAndDownload nearest nil transparent_image (editor (of_Z 1) (of_Z 1) (of_Z 1))
  = Normal (PngData 1 1 [[white]])
  /\ toDataURL transparent_image = PngData 1 1 [[transparent_black]]
  /\ processAndDownload nearest nil transparent_image (editor (of_Z 1) (of_Z 1) (of_Z 1))
     <> Normal (toDataURL transparent_image).
Proof.
  split; [vm_compute; reflexivity|]. split; [vm_compute; reflexivity|].
  vm_compute. discriminate.
Qed.

(** ** Slice width 0 *)

Lemma Qfloor_unit (x : Q) : (0 <= x)%Q -> (x < 1)%Q -> Qfloor x = 0.
Proof.
  intros H0 H1.
  assert (Hlo : 0 <= Qfloor x).
  { change 0 with (Qfloor (inject_Z 0)). apply Qfloor_resp_le. exact H0. }
  assert (Hhi : Qfloor x < 1).
  { rewrite Zlt_Qlt. eapply Qle_lt_trans; [apply Qfloor_le|exact H1]. }
  lia.
Qed.

Lemma Qceiling_pos (q : Q) : (0 < q)%Q -> 1 <= Qceiling q.
Proof.
  intros Hq. assert (0 < Qceiling q); [|lia].
  rewrite Zlt_Qlt. eapply Qlt_le_trans; [exact Hq|apply Qle_ceiling].
Qed.

Lemma Qfloor_nonneg (q : Q) : (0 <= q)%Q -> 0 <= Qfloor q.
Proof.
  intros Hq. change 0 with (Qfloor (inject_Z 0)). apply Qfloor_resp_le. exact Hq.
Qed.

Lemma all_equal_repeat {A : Type} (a : A) (l : list A) :
  (forall j u, nth_error l j = Some u -> u = a) -> l = repeat a (length l).
Proof.
  induction l as [|x l IH]; intros H; [reflexivity|].
  cbn [length repeat]. f_equal.
  - apply (H 0%nat x). reflexivity.
  - apply IH. intros j u Hj. apply (H (S j) u). exact Hj.
Qed.

Lemma load_all_empty (k : nat) :
  load_all (repeat EmptyData (S k)) = Abrupt LoadNeverFires.
Proof. reflexivity. Qed.

Section DegenerateFacts.

Variable resample : Bitmap -> Rect -> Rect -> Transform -> Z -> Z -> option RGBA.

Lemma slice_body_zero (h : Z) (sc : Bitmap) (i : Z) (slices : list DataURL) :
  1 <= width sc -> 1 <= height sc ->
  slice_body resample h sc (of_Z 0) i slices = Normal (slices ++ EmptyData :: nil).
Proof.
  intros Hw Hh. unfold slice_body.
  destruct (drawImage9_usable resample Identity (CanvasElement sc)
              (mul (of_Z i) (of_Z 0)) (of_Z 0) (of_Z 0) (of_Z h)
              (of_Z 0) (of_Z 0) (of_Z 0) (of_Z h)
              (createCanvas (of_Z 0) (of_Z h)) (usable_canvas sc Hw Hh)) as [c Hc].
  rewrite Hc. cbn [bind]. apply drawImage9_shape in Hc. destruct Hc as (Hcw & _).
  rewrite (toDataURL_empty c); [reflexivity|].
  left. rewrite Hcw. cbn [createCanvas width]. rewrite dimension_of_Z by lia. lia.
Qed.

Lemma slicer_zero_width (h : Z) (sc : Bitmap) (q : Q) :
  1 <= width sc -> 1 <= height sc ->
  slicer resample h sc (of_Z 0) (Finite q)
  = Normal (repeat EmptyData (Z.to_nat (Qceiling q))).
Proof.
  intros Hw Hh. unfold slicer, for_loop. cbn [iterations].
  destruct (iterate_push (fun _ u => u = EmptyData)
              (slice_body resample h sc (of_Z 0))) with
    (k := Z.to_nat (Qceiling q)) (i0 := 0) (s := @nil DataURL)
    as (us & Hus & Hlen & Hnth).
  - intros i s _. exists EmptyData. split; [|reflexivity].
    apply slice_body_zero; assumption.
  - lia.
  - cbn [app] in Hus. rewrite Hus, <- Hlen. f_equal. apply all_equal_repeat.
    intros j u Hu. apply (Hnth j u Hu).
Qed.

(** The first [drawImage] from a scaled canvas without pixels throws,
    whatever the slice width and for every numSplits above 0. *)
Lemma slicer_throws (h : Z) (sc : Bitmap) (sliceWidth numSplits : number) :
  width sc <= 0 \/ height sc <= 0 -> gt numSplits (of_Z 0) = true ->
  slicer resample h sc sliceWidth numSplits = Abrupt (Thrown InvalidStateError).
Proof.
  intros Hsc Hpos. unfold slicer, for_loop.
  destruct numSplits as [|s|q]; [discriminate| |].
  - destruct s; [discriminate|]. cbn [iterations].
    rewrite slice_body_throws by exact Hsc. reflexivity.
  - cbn [iterations].
    assert (Hq : (0 < q)%Q).
    { unfold gt, lt, of_Z in Hpos. destruct (Qlt_le_dec (inject_Z 0) q); [assumption|].
      discriminate. }
    pose proof (Qceiling_pos q Hq) as Hc.
    destruct (Z.to_nat (Qceiling q)) as [|m] eqn:E; [lia|].
    cbn [iterate]. rewrite slice_body_throws by exact Hsc. reflexivity.
Qed.

End DegenerateFacts.

Lemma gt_zero_finite (q : Q) : (0 < q)%Q -> gt (Finite q) (of_Z 0) = true.
Proof.
  intros Hq. unfold gt, lt, of_Z.
  destruct (Qlt_le_dec (inject_Z 0) q) as [_|Hle]; [reflexivity|].
  exfalso. change (inject_Z 0) with 0%Q in Hle. lra.
Qed.

(** C1, as the code has it. When numSplits exceeds the scaled width, so
    that the slice width [floor (scaledWidth / numSplits)] computes to 0,
    nothing is ever downloaded, but no error of the pipeline's own says
    so.  Either the scaled canvas has a column: then every one of the
    ceil(numSplits) slice canvases is 0 wide, its data URL is the empty
    ["data:,"], the slice images never load and the awaited [Promise.all]
    stays pending.  Or the scaled canvas has no column: then the first
    [drawImage] from it throws the browser's [InvalidStateError] inside
    the load handler. *)
Theorem degenerate_split
    (resample : Bitmap -> Rect -> Rect -> Transform -> Z -> Z -> option RGBA)
    (sched : list nat) (img : Bitmap) (editorState : gmap string number) (n : Q) :
  1 <= height img < 2 ^ 31 ->
  field editorState "numSplits" = Finite n -> (0 < n)%Q ->
  sliceWidth_of img editorState = of_Z 0 ->
  exists scaledCanvas,
    scaler resample img (scaledWidth_of img editorState) = Normal scaledCanvas
    /\ ((1 <= width scaledCanvas
         /\ slicer resample (height img) scaledCanvas (sliceWidth_of img editorState)
                   (field editorState "numSplits")
            = Normal (repeat EmptyData (Z.to_nat (Qceiling n)))
         /\ processAndDownload resample sched img editorState = Abrupt LoadNeverFires)
        \/ (width scaledCanvas = 0
            /\ processAndDownload resample sched img editorState
               = Abrupt (Thrown InvalidStateError))).
Proof.
  intros Hh Hn Hnpos Hk.
  destruct (scaler_canvas resample img (scaledWidth_of img editorState))
    as (sc & Hsc & Hscw & Hsch & _).
  rewrite dimension_of_Z in Hsch by lia.
  pose proof (Qceiling_pos n Hnpos) as Hceil.
  assert (Hrange : 0 <= width sc) by (rewrite Hscw; apply dimension_range; lia).
  exists sc. split; [exact Hsc|].
  destruct (Z.eq_dec (width sc) 0) as [Hnocol|Hcol].
  - right. split; [exact Hnocol|].
    unfold processAndDownload. rewrite Hsc. cbn [bind].
    rewrite slicer_throws; [reflexivity|left; lia|].
    rewrite Hn. apply gt_zero_finite. exact Hnpos.
  - left. split; [lia|].
    assert (Hsl : slicer resample (height img) sc (sliceWidth_of img editorState)
                         (field editorState "numSplits")
                  = Normal (repeat EmptyData (Z.to_nat (Qceiling n)))).
    { rewrite Hk, Hn. apply slicer_zero_width; lia. }
    split; [exact Hsl|].
    unfold processAndDownload. rewrite Hsc. cbn [bind]. rewrite Hsl. cbn [bind].
    unfold compositeVertical.
    destruct (Z.to_nat (Qceiling n)) as [|m] eqn:E; [lia|].
    rewrite load_all_empty. reflexivity.
Qed.

Lemma degenerate_split_witness :
  exists scaledCanvas,
    scaler nearest (test_image 3 2)
           (scaledWidth_of (test_image 3 2) (editor (of_Z 1) (of_Z 5) (of_Z 1)))
    = Normal scaledCanvas
    /\ ((1 <= width scaledCanvas
         /\ slicer nearest 2 scaledCanvas
                   (sliceWidth_of (test_image 3 2) (editor (of_Z 1) (of_Z 5) (of_Z 1)))
                   (field (editor (of_Z 1) (of_Z 5) (of_Z 1)) "numSplits")
            = Normal (repeat EmptyData 5)
         /\ processAndDownload nearest nil (test_image 3 2)
              (editor (of_Z 1) (of_Z 5) (of_Z 1)) = Abrupt LoadNeverFires)
        \/ (width scaledCanvas = 0
            /\ processAndDownload nearest nil (test_image 3 2)
                 (editor (of_Z 1) (of_Z 5) (of_Z 1))
               = Abrupt (Thrown InvalidStateError))).
Proof.
  apply (degenerate_split nearest nil (test_image 3 2)
           (editor (of_Z 1) (of_Z 5) (of_Z 1)) 5).
  - simpl. lia.
  - reflexivity.
  - reflexivity.
  - vm_compute. reflexivity.
Defined.

(** C1 as stated fails: with a 1 x 1 source, scale 1 and numSplits 2 the
    slice width is 0, both slice canvases are 0 wide, and the pipeline
    raises nothing; it waits for ever on slice images that cannot load. *)
Lemma degenerate_split_counterexample :
  sliceWidth_of (test_image 1 1) (editor (of_Z 1) (of_Z 2) (of_Z 1)) = of_Z 0
  /\ width (createCanvas (sliceWidth_of (test_image 1 1)
                            (editor (of_Z 1) (of_Z 2) (of_Z 1))) (of_Z 1)) = 0
  /\ processAndDownload nearest nil (test_image 1 1) (editor (of_Z 1) (of_Z 2) (of_Z 1))
     = Abrupt LoadNeverFires
  /\ ~ (exists e,
          processAndDownload nearest nil (test_image 1 1)
            (editor (of_Z 1) (of_Z 2) (of_Z 1)) = Abrupt (Thrown e)).
Proof.
  split; [vm_compute; reflexivity|]. split; [vm_compute; reflexivity|].
  split; [vm_compute; reflexivity|].
  intros (e & He). vm_compute in He. discriminate.
Qed.

(** ** Fractional numSplits *)

(** C10, as the code has it. A numSplits field whose text parses to a
    positive number [n] is stored as [n], fraction and all.  When the
    scaled canvas and the slice canvases have a column (the widths that
    [createCanvas] gives them for the scaled width and the slice width are
    at least 1) and [img.height * ceil(n)] is below 2^31, the slicing loop
    leaves ceil(n) slices and the merge completes on a vertical canvas
    [img.height * ceil(n)] high. *)
Theorem fractional_numSplits
    (resample : Bitmap -> Rect -> Rect -> Transform -> Z -> Z -> option RGBA)
    (sched : list nat) (img : Bitmap) (event : ChangeEvent)
    (prev : gmap string number) (n : Q) :
  target_id event = "numSplits" ->
  parseFloat (target_value event) = Finite n -> (0 < n)%Q ->
  1 <= height img < 2 ^ 31 ->
  let editorState := handleInputChange event prev in
  1 <= width (createCanvas (scaledWidth_of img editorState) (of_Z (height img))) ->
  1 <= width (createCanvas (sliceWidth_of img editorState) (of_Z (height img))) ->
  height img * Qceiling n < 2 ^ 31 ->
  field editorState "numSplits" = Finite n
  /\ exists scaledCanvas slices verticalCanvas,
       scaler resample img (scaledWidth_of img editorState) = Normal scaledCanvas
       /\ slicer resample (height img) scaledCanvas (sliceWidth_of img editorState)
                 (field editorState "numSplits") = Normal slices
       /\ length slices = Z.to_nat (Qceiling n)
       /\ compositeVertical resample sched (height img)
                            (sliceWidth_of img editorState) slices
          = Normal verticalCanvas
       /\ height verticalCanvas = height img * Qceiling n.
Proof.
  intros Hid Hparse Hn Hh editorState Hcol Hk Htotal.
  assert (Hn' : field editorState "numSplits" = Finite n).
  { unfold editorState, field, handleInputChange. rewrite Hid, lookup_insert_eq, Hparse.
    rewrite gt_zero_finite by exact Hn. reflexivity. }
  split; [exact Hn'|].
  destruct (scaler_canvas resample img (scaledWidth_of img editorState))
    as (sc & Hsc & Hscw & Hsch & _).
  rewrite dimension_of_Z in Hsch by lia.
  cbn [createCanvas width] in Hcol, Hk.
  pose proof (Qceiling_pos n Hn) as Hceil.
  destruct (slicer_canvases resample (height img) sc (sliceWidth_of img editorState) n)
    as (slices & Hsl & Hlen & Hnth); try lia.
  assert (Etotal : totalHeight (height img) slices = height img * Qceiling n).
  { unfold totalHeight. rewrite Hlen, Z2Nat.id by lia. reflexivity. }
  assert (Hcanvas : height (createCanvas (sliceWidth_of img editorState)
                                         (of_Z (totalHeight (height img) slices)))
                    = height img * Qceiling n).
  { cbn [createCanvas height]. rewrite Etotal. apply dimension_of_Z. nia. }
  assert (Hloads : forall i u, nth_error slices i = Some u ->
                     exists b, load_image u = Some b /\ height b = height img).
  { intros i u Hu. destruct (Hnth i u Hu) as (c & -> & Hcw & Hch & _).
    rewrite dimension_of_Z in Hch by lia.
    destruct (load_toDataURL c) as (b & Hb & _ & Hbh & _); try lia.
    exists b. split; [exact Hb|lia]. }
  destruct (load_all_spec slices) as [[_ Hin]|(images & Hload & HF)].
  { exfalso. apply In_nth_error in Hin. destruct Hin as (i & Hi).
    destruct (Hloads i EmptyData Hi) as (b & Hb & _). discriminate. }
  destruct (compositeVertical_merged resample sched (height img)
              (sliceWidth_of img editorState) slices images ltac:(lia) Hload)
    as (vc & Hvc & _ & Hvh & _).
  { intros i b Hb. destruct (Forall2_nth_error_r _ _ _ HF i b Hb) as (u & Hu & Hub).
    destruct (Hloads i u Hu) as (b' & Hb' & Hbh).
    assert (b' = b) by congruence. subst b'. lia. }
  exists sc, slices, vc. split; [exact Hsc|]. rewrite Hn'.
  split; [exact Hsl|]. split; [exact Hlen|]. split; [exact Hvc|].
  rewrite Hvh. exact Hcanvas.
Qed.

Lemma fractional_numSplits_witness :
  let editorState :=
    handleInputChange {| target_id := "numSplits"; target_value := "2.5" |}
                      (editor (of_Z 1) (of_Z 1) (of_Z 1)) in
  field editorState "numSplits" = Finite (5 # 2)
  /\ exists scaledCanvas slices verticalCanvas,
       scaler nearest (test_image 5 2) (scaledWidth_of (test_image 5 2) editorState)
       = Normal scaledCanvas
       /\ slicer nearest 2 scaledCanvas (sliceWidth_of (test_image 5 2) editorState)
                 (field editorState "numSplits") = Normal slices
       /\ length slices = 3%nat
       /\ compositeVertical nearest nil 2
                            (sliceWidth_of (test_image 5 2) editorState) slices
          = Normal verticalCanvas
       /\ height verticalCanvas = 2 * 3.
Proof.
  apply (fractional_numSplits nearest nil (test_image 5 2)
           {| target_id := "numSplits"; target_value := "2.5" |}
           (editor (of_Z 1) (of_Z 1) (of_Z 1)) (5 # 2)).
  - reflexivity.
  - vm_compute. reflexivity.
  - reflexivity.
  - simpl. lia.
  - vm_compute. discriminate.
  - vm_compute. discriminate.
  - vm_compute. reflexivity.
Defined.

(** C10 as stated fails in two ways. When the scaled canvas has no
    column, as with a 1 x 1 source, scale 0.5 and the numSplits text
    ["2.5"], the value 2.5 is stored, but the first [drawImage] of the
    slicing loop throws, so that no slice and no composite is made. And
    the height of the vertical canvas wraps: with a source 1 wide and
    32767 high and the numSplits text ["65539"] the loop leaves 65539
    slices, the height assigned to the vertical canvas is 2147516413,
    out of the range of [canvas.height], and the canvas is 150 high. *)
Lemma fractional_numSplits_counterexample :
  (field (handleInputChange {| target_id := "numSplits"; target_value := "2.5" |}
            (editor (Finite (1 # 2)) (of_Z 1) (of_Z 1))) "numSplits" = Finite (5 # 2)
   /\ (exists scaledCanvas,
         scaler nearest (test_image 1 1)
                (scaledWidth_of (test_image 1 1)
                   (handleInputChange {| target_id := "numSplits"; target_value := "2.5" |}
                      (editor (Finite (1 # 2)) (of_Z 1) (of_Z 1))))
         = Normal scaledCanvas
         /\ width scaledCanvas = 0
         /\ slicer nearest 1 scaledCanvas
                   (sliceWidth_of (test_image 1 1)
                      (handleInputChange
                         {| target_id := "numSplits"; target_value := "2.5" |}
                         (editor (Finite (1 # 2)) (of_Z 1) (of_Z 1))))
                   (Finite (5 # 2))
            = Abrupt (Thrown InvalidStateError))
   /\ processAndDownload nearest nil (test_image 1 1)
        (handleInputChange {| target_id := "numSplits"; target_value := "2.5" |}
           (editor (Finite (1 # 2)) (of_Z 1) (of_Z 1)))
      = Abrupt (Thrown InvalidStateError))
  /\ (field (handleInputChange {| target_id := "numSplits"; target_value := "65539" |}
               (editor (of_Z 1) (of_Z 1) (of_Z 1))) "numSplits" = of_Z 65539
      /\ exists scaledCanvas slices,
           scaler nearest (test_image 1 32767)
                  (scaledWidth_of (test_image 1 32767)
                     (editor (of_Z 1) (of_Z 65539) (of_Z 1)))
           = Normal scaledCanvas
           /\ slicer nearest 32767 scaledCanvas
                     (sliceWidth_of (test_image 1 32767)
                        (editor (of_Z 1) (of_Z 65539) (of_Z 1)))
                     (of_Z 65539)
              = Normal slices
           /\ Z.of_nat (length slices) = 65539
           /\ totalHeight 32767 slices = 2147516413
           /\ height (createCanvas (sliceWidth_of (test_image 1 32767)
                                      (editor (of_Z 1) (of_Z 65539) (of_Z 1)))
                                   (of_Z (totalHeight 32767 slices)))
              = 150).
Proof.
  split.
  - split; [vm_compute; reflexivity|]. split; [|vm_compute; reflexivity].
    destruct (scaler_canvas nearest (test_image 1 1)
                (scaledWidth_of (test_image 1 1)
                   (handleInputChange {| target_id := "numSplits"; target_value := "2.5" |}
                      (editor (Finite (1 # 2)) (of_Z 1) (of_Z 1)))))
      as (sc & Hsc & Hw & _).
    assert (Hw0 : width sc = 0) by (rewrite Hw; vm_compute; reflexivity).
    exists sc. split; [exact Hsc|]. split; [exact Hw0|].
    apply slicer_throws; [left; lia|reflexivity].
  - split; [vm_compute; reflexivity|].
    destruct (scaler_canvas nearest (test_image 1 32767)
                (scaledWidth_of (test_image 1 32767)
                   (editor (of_Z 1) (of_Z 65539) (of_Z 1))))
      as (sc & Hsc & Hw & Hh & _).
    assert (Hw1 : width sc = 1) by (rewrite Hw; vm_compute; reflexivity).
    assert (Hh1 : height sc = 32767) by (rewrite Hh; vm_compute; reflexivity).
    assert (Hk : sliceWidth_of (test_image 1 32767)
                   (editor (of_Z 1) (of_Z 65539) (of_Z 1)) = of_Z 0)
      by (vm_compute; reflexivity).
    exists sc, (repeat EmptyData (Z.to_nat (Qceiling (inject_Z 65539)))).
    split; [exact Hsc|]. rewrite Hk. split; [apply slicer_zero_width; lia|].
    assert (Hlen : Z.of_nat (length (repeat EmptyData
                                       (Z.to_nat (Qceiling (inject_Z 65539)))))
                   = 65539).
    { rewrite repeat_length, Qceiling_Z. apply Z2Nat.id. lia. }
    split; [exact Hlen|]. unfold totalHeight. rewrite Hlen.
    split; [reflexivity|vm_compute; reflexivity].
Qed.

(** ** Determinism *)

Lemma same_bitmap_refl (b : Bitmap) : same_bitmap b b.
Proof. unfold same_bitmap. auto. Qed.

Lemma iterate_Forall {A : Type} (P : A -> Prop)
    (body : Z -> list A -> completion (list A)) :
  (forall i s s', body i s = Normal s' -> exists u, s' = s ++ u :: nil /\ P u) ->
  forall k i0 s s', Forall P s -> iterate k i0 body s = Normal s' -> Forall P s'.
Proof.
  intros Hbody. induction k as [|k IH]; intros i0 s s' Hs Hrun.
  - cbn [iterate] in Hrun. injection Hrun as <-. exact Hs.
  - cbn [iterate] in Hrun. destruct (body i0 s) as [s1|r] eqn:E; [|discriminate].
    cbn [bind] in Hrun. destruct (Hbody i0 s s1 E) as (u & -> & Hu).
    apply (IH (i0 + 1) (s ++ u :: nil) s'); [|exact Hrun].
    apply Forall_app. split; [exact Hs|]. constructor; [exact Hu|constructor].
Qed.

Lemma load_toDataURL_height (c b : Bitmap) :
  load_image (toDataURL c) = Some b -> height b = height c.
Proof.
  unfold toDataURL. destruct (_ || _); [discriminate|].
  cbn [load_image]. intros H. injection H as <-. reflexivity.
Qed.

Lemma merged_order (h : Z) (images : list Bitmap) (o1 o2 : list nat)
    (c : Bitmap) (X Y : Z) :
  (forall i, In i o1 <-> In i o2) ->
  merged h images o1 c X Y = merged h images o2 c X Y.
Proof.
  intros Hsame. unfold merged.
  assert (E : existsb (Nat.eqb (Z.to_nat (Y / h))) o1
              = existsb (Nat.eqb (Z.to_nat (Y / h))) o2).
  { destruct (existsb _ o1) eqn:E1; destruct (existsb _ o2) eqn:E2; try reflexivity.
    - apply existsb_eqb_In, Hsame, existsb_eqb_In in E1. congruence.
    - apply existsb_eqb_In, Hsame, existsb_eqb_In in E2. congruence. }
  rewrite E. reflexivity.
Qed.

Lemma binary64_opp (q : Q) : (0 < q)%Q -> binary64 (- q) = negate (binary64 q).
Proof.
  intros Hq. unfold binary64.
  assert (Eabs : (Qabs (- q) == Qabs q)%Q) by apply Qabs_opp.
  rewrite (nearest_multiple_comp _ _ Eabs).
  assert (Hn1 : Qneg (- q) = true).
  { unfold Qneg. destruct (Qlt_le_dec (- q) 0) as [_|H]; [reflexivity|]. exfalso. lra. }
  rewrite Hn1, (Qneg_false q) by lra.
  destruct (2 ^ 2098 <=? nearest_multiple (Qabs q)); [reflexivity|].
  cbn [negate]. f_equal. rewrite <- Qred_opp. reflexivity.
Qed.

(** The double nearest to a whole number is a whole number. *)
Lemma binary64_inject_Z (z : Z) :
  isFinite (binary64 (inject_Z z)) = false
  \/ exists z', binary64 (inject_Z z) = of_Z z'.
Proof.
  assert (Hpos : forall a, 0 <= a ->
             isFinite (binary64 (inject_Z a)) = false
             \/ exists z', binary64 (inject_Z a) = of_Z z').
  { intros a Ha. destruct (Z_lt_le_dec a (2 ^ 53)) as [Hlt|Hge].
    - right. exists a. apply binary64_Z. lia.
    - destruct (binary64_large (inject_Z a)) as [(z' & _ & Hb)|Hb].
      + rewrite <- Zle_Qle. exact Hge.
      + right. exists z'. exact Hb.
      + left. rewrite Hb. reflexivity. }
  destruct (Z_lt_le_dec z 0) as [Hneg|Hok]; [|apply Hpos; exact Hok].
  assert (E : (inject_Z z == - inject_Z (- z))%Q).
  { rewrite inject_Z_opp. ring. }
  rewrite (binary64_comp _ _ E), binary64_opp by (apply inject_Z_pos; lia).
  destruct (Hpos (- z)) as [Hinf|(z' & Hz')]; [lia| |].
  - left. destruct (binary64 (inject_Z (- z))); try discriminate; reflexivity.
  - right. exists (- z'). rewrite Hz'. reflexivity.
Qed.

Lemma mul_floor_shape (i : Z) (a : number) :
  isFinite (mul (of_Z i) (floor a)) = false
  \/ exists z, mul (of_Z i) (floor a) = of_Z z.
Proof.
  destruct a as [|s|q]; cbn [floor].
  - left. reflexivity.
  - left. unfold of_Z. cbn [mul]. destruct (Qzero (inject_Z i)); reflexivity.
  - unfold of_Z. cbn [mul].
    change (inject_Z i * inject_Z (Qfloor q))%Q with (inject_Z (i * Qfloor q)).
    apply binary64_inject_Z.
Qed.

Section DeterminismFacts.

Variable resample : Bitmap -> Rect -> Rect -> Transform -> Z -> Z -> option RGBA.

Lemma slicer_heights (h : Z) (sc : Bitmap) (sliceWidth numSplits : number)
    (slices : list DataURL) :
  1 <= h ->
  slicer resample h sc sliceWidth numSplits = Normal slices ->
  Forall (fun u => forall b, load_image u = Some b -> height b <= h) slices.
Proof.
  intros Hh. unfold slicer, for_loop.
  assert (Hbody : forall i s s',
             slice_body resample h sc sliceWidth i s = Normal s' ->
             exists u, s' = s ++ u :: nil
                       /\ forall b, load_image u = Some b -> height b <= h).
  { intros i s s'. unfold slice_body.
    destruct (drawImage9 _ _ _ _ _ _ _ _ _ _ _ _) as [c|r] eqn:E; [|discriminate].
    cbn [bind]. intros H. injection H as <-.
    exists (toDataURL c). split; [reflexivity|].
    intros b Hb. apply load_toDataURL_height in Hb. rewrite Hb.
    apply drawImage9_shape in E. destruct E as (_ & -> & _).
    cbn [createCanvas height]. rewrite Zle_Qle. apply dimension_le; [lia|].
    apply inject_Z_nonneg. lia. }
  destruct (iterations numSplits) as [k|].
  - intros Hrun. apply (iterate_Forall _ _ Hbody k 0 nil slices); [constructor|exact Hrun].
  - destruct (slice_body _ _ _ _ _ _); discriminate.
Qed.

Lemma drawImage3_congr (vc1 vc2 : Bitmap) (dx : number) (fc1 fc2 : Bitmap) :
  same_bitmap vc1 vc2 -> same_bitmap fc1 fc2 ->
  isFinite dx = false \/ (exists z, dx = of_Z z) ->
  same_completion
    (drawImage3 resample Identity (CanvasElement vc1) dx (of_Z 0) fc1)
    (drawImage3 resample Identity (CanvasElement vc2) dx (of_Z 0) fc2).
Proof.
  intros (Hvw & Hvh & Hvp) Hfc Hdx.
  destruct (unusable (CanvasElement vc1)) eqn:Eu.
  { assert (Eu2 : unusable (CanvasElement vc2) = true).
    { cbn [unusable] in *. rewrite <- Hvw, <- Hvh. exact Eu. }
    unfold drawImage3, drawImage5. rewrite !drawImage9_unusable by assumption.
    unfold same_completion. reflexivity. }
  assert (Eu2 : unusable (CanvasElement vc2) = false).
  { cbn [unusable] in *. rewrite <- Hvw, <- Hvh. exact Eu. }
  destruct Hdx as [Hinf|(z & ->)].
  - unfold drawImage3, drawImage5, drawImage9, of_Z. rewrite Eu, Eu2.
    cbn [forallb isFinite andb]. rewrite Hinf. cbn [andb negb]. exact Hfc.
  - destruct (drawImage3_whole resample Identity (CanvasElement vc1) z 0 fc1 Eu)
      as (c1 & Hc1 & Hw1 & Hh1 & Hp1).
    destruct (drawImage3_whole resample Identity (CanvasElement vc2) z 0 fc2 Eu2)
      as (c2 & Hc2 & Hw2 & Hh2 & Hp2).
    rewrite Hc1, Hc2. unfold same_completion.
    destruct Hfc as (Hfw & Hfh & Hfp).
    split; [congruence|]. split; [congruence|].
    intros X Y. rewrite Hp1, Hp2. cbn [bitmap_of]. unfold blit.
    rewrite Hvw, Hvh, Hvp, Hfp. reflexivity.
Qed.

Lemma iterate_congr (body1 body2 : Z -> Bitmap -> completion Bitmap) :
  (forall i c1 c2, same_bitmap c1 c2 -> same_completion (body1 i c1) (body2 i c2)) ->
  forall k i0 c1 c2, same_bitmap c1 c2 ->
    same_completion (iterate k i0 body1 c1) (iterate k i0 body2 c2).
Proof.
  intros Hbody. induction k as [|k IH]; intros i0 c1 c2 Hc.
  - exact Hc.
  - cbn [iterate]. pose proof (Hbody i0 c1 c2 Hc) as Hstep.
    destruct (body1 i0 c1) as [d1|r1]; destruct (body2 i0 c2) as [d2|r2];
      unfold same_completion in Hstep; try contradiction; cbn [bind].
    + apply IH. exact Hstep.
    + exact Hstep.
Qed.

Lemma repeatHorizontal_congr (vc1 vc2 : Bitmap) (a : number) (total_height : Z)
    (horizontalRepeat : number) :
  same_bitmap vc1 vc2 ->
  same_completion
    (repeatHorizontal resample vc1 (floor a) total_height horizontalRepeat)
    (repeatHorizontal resample vc2 (floor a) total_height horizontalRepeat).
Proof.
  intros Hvc. unfold repeatHorizontal, for_loop.
  set (body1 := fun (i : Z) (finalCanvas : Bitmap) =>
                  drawImage3 resample Identity (CanvasElement vc1)
                             (mul (of_Z i) (floor a)) (of_Z 0) finalCanvas).
  set (body2 := fun (i : Z) (finalCanvas : Bitmap) =>
                  drawImage3 resample Identity (CanvasElement vc2)
                             (mul (of_Z i) (floor a)) (of_Z 0) finalCanvas).
  assert (Hbody : forall i c1 c2, same_bitmap c1 c2 ->
                    same_completion (body1 i c1) (body2 i c2)).
  { intros i c1 c2 Hc. apply drawImage3_congr; [exact Hvc|exact Hc|].
    apply mul_floor_shape. }
  destruct (iterations horizontalRepeat) as [k|].
  - apply iterate_congr; [exact Hbody|apply same_bitmap_refl].
  - pose proof (Hbody 0 _ _ (same_bitmap_refl
                               (createCanvas (mul (floor a) horizontalRepeat)
                                             (of_Z total_height)))) as Hstep.
    unfold body1, body2 in Hstep. cbv beta in Hstep.
    destruct (drawImage3 resample Identity (CanvasElement vc1) _ _ _) as [d1|r1];
      destruct (drawImage3 resample Identity (CanvasElement vc2) _ _ _) as [d2|r2];
      unfold same_completion in Hstep; try contradiction; cbn [bind];
      unfold same_completion.
    + reflexivity.
    + exact Hstep.
Qed.

End DeterminismFacts.

(** C8. The output is a function of the source image and the editor state
    alone: the one thing the browser is free to choose during a run, the
    order in which the slice images finish loading, does not show in it.
    Two runs on the same inputs end the same way and, when they download,
    download the same PNG. (Nothing in [processAndDownload] reads a
    clock, a random source or state that another run could have written.) *)
Theorem processAndDownload_deterministic
    (resample : Bitmap -> Rect -> Rect -> Transform -> Z -> Z -> option RGBA)
    (sched1 sched2 : list nat) (img : Bitmap) (editorState : gmap string number) :
  1 <= width img -> 1 <= height img ->
  processAndDownload resample sched1 img editorState
  = processAndDownload resample sched2 img editorState.
Proof.
  intros Hw Hh. unfold processAndDownload.
  destruct (scaler resample img (scaledWidth_of img editorState)) as [sc|r];
    [|reflexivity].
  cbn [bind].
  destruct (slicer resample (height img) sc (sliceWidth_of img editorState)
                   (field editorState "numSplits")) as [slices|r] eqn:Hsl;
    [|reflexivity].
  cbn [bind].
  destruct (load_all_spec slices) as [[E _]|(images & Hload & HF)].
  { unfold compositeVertical. rewrite E. reflexivity. }
  assert (Himg : forall i b, nth_error images i = Some b -> height b <= height img).
  { intros i b Hb. destruct (Forall2_nth_error_r _ _ _ HF i b Hb) as (u & Hu & Hub).
    apply slicer_heights in Hsl; [|lia].
    rewrite List.Forall_forall in Hsl. apply (Hsl u); [|exact Hub].
    apply (nth_error_In _ _ Hu). }
  destruct (compositeVertical_merged resample sched1 (height img)
              (sliceWidth_of img editorState) slices images Hh Hload Himg)
    as (vc1 & Hvc1 & Hw1 & Hh1 & Hp1).
  destruct (compositeVertical_merged resample sched2 (height img)
              (sliceWidth_of img editorState) slices images Hh Hload Himg)
    as (vc2 & Hvc2 & Hw2 & Hh2 & Hp2).
  rewrite Hvc1, Hvc2. cbn [bind].
  assert (Hsame : same_bitmap vc1 vc2).
  { split; [congruence|]. split; [congruence|].
    intros X Y. rewrite Hp1, Hp2. apply merged_order.
    intros i. rewrite !arrival_order_In. reflexivity. }
  pose proof (repeatHorizontal_congr resample vc1 vc2
                (div (scaledWidth_of img editorState) (field editorState "numSplits"))
                (totalHeight (height img) slices)
                (field editorState "horizontalRepeat") Hsame) as Hrep.
  fold (sliceWidth_of img editorState) in Hrep.
  destruct (repeatHorizontal resample vc1 _ _ _) as [fc1|r1];
    destruct (repeatHorizontal resample vc2 _ _ _) as [fc2|r2];
    unfold same_completion in Hrep; try contradiction; cbn [bind].
  - f_equal. destruct Hrep as (Hfw & Hfh & Hfp).
    apply toDataURL_ext; auto.
  - congruence.
Qed.

Lemma processAndDownload_deterministic_witness :
  processAndDownload nearest [0; 0; 0]%nat (test_image 6 2)
    (editor (of_Z 1) (of_Z 3) (of_Z 2))
  = processAndDownload nearest [0; 1; 1]%nat (test_image 6 2)
      (editor (of_Z 1) (of_Z 3) (of_Z 2)).
Proof.
  apply (processAndDownload_deterministic nearest [0; 0; 0]%nat [0; 1; 1]%nat
           (test_image 6 2) (editor (of_Z 1) (of_Z 3) (of_Z 2))).
  - simpl. lia.
  - simpl. lia.
Defined.

Example run_two_orders :
  arrival_order [0; 0; 0]%nat 3 = [2; 1; 0]%nat
  /\ arrival_order [0; 1; 1]%nat 3 = [0; 2; 1]%nat
  /\ greys (processAndDownload nearest [0; 0; 0]%nat (test_image 6 2)
              (editor (of_Z 1) (of_Z 3) (of_Z 2)))
     = [[0; 1; 0; 1]; [10; 11; 10; 11]; [12; 13; 12; 13];
        [2; 3; 2; 3]; [4; 5; 4; 5]; [14; 15; 14; 15]].
Proof. vm_compute. repeat split; reflexivity. Qed.

(** * Further properties *)

(** ** The output, end to end *)

Lemma slice_pixel_white (sc : Bitmap) (k h i X Y : Z) :
  1 <= k -> 1 <= h -> width sc <= i * k + X ->
  blit sc (i * k) 0 k h 0 0 Identity (createCanvas (of_Z k) (of_Z h)) X Y = white.
Proof.
  intros Hk Hh Hout. unfold blit. cbn [user_row].
  assert (Hwhite : pixel (createCanvas (of_Z k) (of_Z h)) X Y = white).
  { unfold of_Z. apply createCanvas_white; apply inject_Z_pos; lia. }
  rewrite Hwhite. destruct (_ && _) eqn:E; [|reflexivity].
  exfalso. reflect_comparisons. lia.
Qed.

Lemma slice_pixel_weave (sc : Bitmap) (k h i x y : Z) :
  1 <= k -> 1 <= h -> height sc = h ->
  (forall X Y, alpha (pixel sc X Y) = 255) ->
  0 <= i -> 0 <= x < k -> 0 <= y < h ->
  blit sc (i * k) 0 k h 0 0 Identity (createCanvas (of_Z k) (of_Z h)) x y
  = if i * k + x <? width sc then pixel sc (i * k + x) y else white.
Proof.
  intros Hk Hh Hsh Hopaque Hi Hx Hy.
  destruct (i * k + x <? width sc) eqn:E.
  - apply Z.ltb_lt in E. apply slice_pixel_copied; try lia. apply Hopaque.
  - apply Z.ltb_ge in E. apply slice_pixel_white; lia.
Qed.

Section WeaveFacts.

Variable resample : Bitmap -> Rect -> Rect -> Transform -> Z -> Z -> option RGBA.
Variable sched : list nat.

Lemma vertical_pixels (sc : Bitmap) (h k : Z) (q : Q) :
  1 <= width sc < 2 ^ 31 -> height sc = h -> 1 <= h < 2 ^ 31 -> 1 <= k < 2 ^ 31 ->
  (0 < q)%Q -> h * Qceiling q < 2 ^ 31 ->
  (forall X Y, alpha (pixel sc X Y) = 255) ->
  exists slices vc,
    slicer resample h sc (of_Z k) (Finite q) = Normal slices
    /\ length slices = Z.to_nat (Qceiling q)
    /\ compositeVertical resample sched h (of_Z k) slices = Normal vc
    /\ width vc = k /\ height vc = h * Qceiling q
    /\ forall x Y, 0 <= x < k -> 0 <= Y < h * Qceiling q ->
         pixel vc x Y = weave sc k h x Y.
Proof.
  intros Hw Hsh Hh Hk Hq Hfit Hopaque.
  pose proof (Qceiling_pos q Hq) as Hceil.
  destruct (slicer_slices resample h sc k q) as (slices & Hsl & Hlen & Hnth); try lia.
  destruct (slicer_slices_of_size resample h sc k q) as (slices' & Hsl' & _ & Hof);
    try lia.
  assert (slices' = slices) by congruence. subst slices'.
  destruct (load_all_spec slices) as [[_ Hin]|(images & Hload & HF)].
  { exfalso. apply In_nth_error in Hin. destruct Hin as (i & Hi).
    destruct (Hof i EmptyData Hi) as (b & Hb & _). discriminate. }
  destruct (compositeVertical_merged resample sched h (of_Z k) slices images
              ltac:(lia) Hload)
    as (vc & Hvc & Hvw & Hvh & Hvp).
  { intros i b Hb. destruct (Forall2_nth_error_r _ _ _ HF i b Hb) as (u & Hu & Hub).
    destruct (Hof i u Hu) as (b' & Hb' & _ & Hbh & _).
    assert (b' = b) by congruence. subst b'. lia. }
  assert (Htotal : totalHeight h slices = h * Qceiling q).
  { unfold totalHeight. rewrite Hlen, Z2Nat.id by lia. reflexivity. }
  exists slices, vc. split; [exact Hsl|]. split; [exact Hlen|]. split; [exact Hvc|].
  rewrite Hvw, Hvh. cbn [createCanvas width height].
  rewrite !dimension_of_Z by (rewrite ?Htotal; nia).
  split; [reflexivity|]. split; [exact Htotal|].
  intros x Y Hx HY. rewrite Hvp. unfold merged.
  assert (Hi0 : 0 <= Y / h) by (apply Z.div_pos; lia).
  assert (Hi1 : Y / h < Qceiling q) by (apply Z.div_lt_upper_bound; lia).
  set (i := Z.to_nat (Y / h)).
  assert (Hin : existsb (Nat.eqb i) (arrival_order sched (length slices)) = true).
  { apply existsb_eqb_In, arrival_order_In. unfold i. lia. }
  rewrite Hin.
  destruct (nth_error slices i) as [u|] eqn:Eu.
  2:{ apply nth_error_None in Eu. unfold i in Eu. lia. }
  destruct (Forall2_nth_error_l _ _ _ HF i u Eu) as (b & Hib & Hb).
  rewrite Hib.
  destruct (Hnth i u Eu) as (c & -> & Hcw & Hch & Hcp).
  destruct (load_toDataURL c) as (b' & Hb' & Hbw & Hbh & Hbp); try lia.
  assert (b' = b) by congruence. subst b'.
  assert (HYsplit : Y = Z.of_nat i * h + Y mod h).
  { unfold i. rewrite Z2Nat.id by lia. rewrite Z.mul_comm. apply Z.div_mod. lia. }
  assert (Hmod : 0 <= Y mod h < h) by (apply Z.mod_pos_bound; lia).
  pose proof (slice_blit_band h i b
                (createCanvas (of_Z k) (of_Z (totalHeight h slices))) x (Y mod h))
    as Hband.
  rewrite <- HYsplit in Hband. rewrite Hband by lia. clear Hband.
  assert (Hwhite : forall X0 Y0,
             pixel (createCanvas (of_Z k) (of_Z (totalHeight h slices))) X0 Y0 = white).
  { intros X0 Y0. unfold of_Z. apply createCanvas_white; apply inject_Z_pos;
      rewrite ?Htotal; nia. }
  rewrite Hwhite.
  assert (Hrow : 0 <= (if Z.odd (Z.of_nat i) then h - 1 - Y mod h else Y mod h) < h).
  { destruct (Z.odd (Z.of_nat i)); lia. }
  rewrite Hbp by lia. rewrite Hcp.
  rewrite slice_pixel_weave by (try assumption; lia).
  unfold weave. rewrite (Z.mod_small x k) by lia.
  unfold i. rewrite Z2Nat.id by lia.
  destruct (Y / h * k + x <? width sc).
  - apply source_over_opaque. apply Hopaque.
  - reflexivity.
Qed.

Lemma repeat_fraction (vc : Bitmap) (c r : Q) :
  1 <= width vc -> 1 <= height vc < 2 ^ 31 -> (0 < c)%Q ->
  (forall x y, 0 <= x < width vc -> 0 <= y < height vc -> alpha (pixel vc x y) = 255) ->
  mul (of_Z (width vc)) (Finite c) = Finite r -> Qfloor r < 2 ^ 31 ->
  exists fc,
    repeatHorizontal resample vc (of_Z (width vc)) (height vc) (Finite c) = Normal fc
    /\ width fc = Qfloor r
    /\ height fc = height vc
    /\ forall X Y, 0 <= X < width fc -> 0 <= Y < height vc ->
         pixel fc X Y = pixel vc (X mod width vc) Y.
Proof.
  intros Hw Hh Hc Hopaque Hr Hlt. unfold repeatHorizontal, for_loop. cbn [iterations].
  assert (Hkc : (0 <= inject_Z (width vc) * c)%Q).
  { apply Qmult_le_0_compat; [apply inject_Z_nonneg; lia|lra]. }
  assert (Hb : binary64 (inject_Z (width vc) * c) = Finite r) by exact Hr.
  destruct (binary64_finite _ _ Hkc Hb) as (_ & Hr0 & _).
  assert (H53 : 2 ^ 31 < 2 ^ 53) by reflexivity.
  assert (Hr53 : (r < inject_Z (2 ^ 53))%Q) by (apply Qfloor_lt_Z; lia).
  pose proof (Qceiling_pos c Hc) as Hceil.
  assert (Hbound : Qfloor r <= width vc * Qceiling c).
  { destruct (binary64_bounds (inject_Z (width vc) * c) 0 (width vc * Qceiling c))
      as (r' & Hr' & _ & _ & Hup).
    - lia.
    - apply (binary64_small _ r Hkc Hb Hr53).
    - exact Hkc.
    - rewrite inject_Z_mult. apply Qmult_le_l; [apply inject_Z_pos; lia|].
      apply Qle_ceiling.
    - assert (r' = r) by congruence. subst r'. apply Qfloor_le_Z. exact Hup. }
  destruct (repeat_iterate resample vc Hw ltac:(lia) Hopaque (Z.to_nat (Qceiling c)) 0
              (createCanvas (mul (of_Z (width vc)) (Finite c)) (of_Z (height vc))))
    as (fc & Hfc & Hfw & Hfh & Hfp); [lia|].
  assert (Hfw' : width fc = Qfloor r).
  { rewrite Hfw, Hr. cbn [createCanvas width]. apply dimension_finite; assumption. }
  assert (Hfh' : height fc = height vc).
  { rewrite Hfh. cbn [createCanvas height]. apply dimension_of_Z. lia. }
  exists fc. split; [exact Hfc|]. split; [exact Hfw'|]. split; [exact Hfh'|].
  intros X Y HX HY. rewrite Hfw' in HX. rewrite Hfp by lia.
  destruct (_ && _) eqn:E; [reflexivity|].
  exfalso. rewrite Z2Nat.id in E by lia.
  repeat (apply andb_false_iff in E; destruct E as [E|E]);
    reflect_comparisons; nia.
Qed.

End WeaveFacts.

Lemma weave_alpha (sc : Bitmap) (k h X Y : Z) :
  (forall X0 Y0, alpha (pixel sc X0 Y0) = 255) -> alpha (weave sc k h X Y) = 255.
Proof.
  intros Hopaque. unfold weave. destruct (_ <? _); [apply Hopaque|reflexivity].
Qed.

Lemma weave_mod (sc : Bitmap) (k h X Y : Z) :
  1 <= k -> weave sc k h (X mod k) Y = weave sc k h X Y.
Proof. intros Hk. unfold weave. rewrite Z.mod_mod by lia. reflexivity. Qed.

Lemma Qfloor_pos (q : Q) : 1 <= Qfloor q -> (0 < q)%Q.
Proof.
  intros H. apply Qlt_le_trans with (inject_Z (Qfloor q)); [|apply Qfloor_le].
  apply inject_Z_pos. lia.
Qed.

(** The pipeline on parameters for which every canvas is as large as the
    numbers that the code computes for it: [p] is the scaled width, [k]
    the slice width and [r] the width of the output. *)
Lemma pipeline_canvas
    (resample : Bitmap -> Rect -> Rect -> Transform -> Z -> Z -> option RGBA)
    (sched : list nat) (img : Bitmap) (editorState : gmap string number)
    (p n c r : Q) (k : Z) :
  1 <= height img < 2 ^ 31 ->
  scaledWidth_of img editorState = Finite p -> 1 <= Qfloor p < 2 ^ 31 ->
  field editorState "numSplits" = Finite n -> (0 < n)%Q ->
  height img * Qceiling n < 2 ^ 31 ->
  sliceWidth_of img editorState = of_Z k -> 1 <= k < 2 ^ 31 ->
  field editorState "horizontalRepeat" = Finite c -> (0 < c)%Q ->
  mul (of_Z k) (Finite c) = Finite r -> Qfloor r < 2 ^ 31 ->
  exists sc fc,
    scaler resample img (scaledWidth_of img editorState) = Normal sc
    /\ width sc = Qfloor p
    /\ height sc = height img
    /\ (forall X Y, alpha (pixel sc X Y) = 255)
    /\ processAndDownload resample sched img editorState = Normal (toDataURL fc)
    /\ width fc = Qfloor r
    /\ height fc = height img * Qceiling n
    /\ forall X Y, 0 <= X < width fc -> 0 <= Y < height fc ->
         pixel fc X Y = weave sc k (height img) X Y.
Proof.
  intros Hh Hp HW Hn Hnpos Hfit Hk Hk1 Hr Hcpos Hmul Hrlt.
  destruct (scaler_shape resample img p) as (sc & Hsc & Hscw & Hsch & Hopaque);
    [apply Qfloor_pos; lia|lia|exact Hh|].
  rewrite <- Hp in Hsc.
  pose proof (Qceiling_pos n Hnpos) as Hceil.
  destruct (vertical_pixels resample sched sc (height img) k n)
    as (slices & vc & Hsl & Hlen & Hvc & Hvw & Hvh & Hvp); try lia; try assumption.
  destruct (repeat_fraction resample vc c r) as (fc & Hfc & Hfw & Hfh & Hfp);
    try nia; try assumption.
  { intros x y Hx Hy. rewrite Hvp by lia. apply weave_alpha. exact Hopaque. }
  { rewrite Hvw. exact Hmul. }
  exists sc, fc. split; [exact Hsc|]. split; [exact Hscw|]. split; [exact Hsch|].
  split; [exact Hopaque|]. split.
  - unfold processAndDownload. rewrite Hsc. cbn [bind]. rewrite Hk, Hn, Hsl.
    cbn [bind]. rewrite Hvc. cbn [bind]. rewrite Hr.
    assert (Htotal : totalHeight (height img) slices = height vc).
    { unfold totalHeight. rewrite Hlen, Z2Nat.id by lia. lia. }
    rewrite Htotal, <- Hvw, Hfc. reflexivity.
  - rewrite Hvh in Hfh.
    split; [exact Hfw|]. split; [exact Hfh|].
    intros X Y HX HY. rewrite Hfp by lia. rewrite Hvw.
    rewrite Hvp by (try lia; apply Z.mod_pos_bound; lia).
    apply weave_mod. lia.
Qed.

(** X1. Let [p] be the scaled width, [k] the slice width and [r] the
    output width [sliceWidth * horizontalRepeat] as the code computes
    them, for finite positive numSplits and horizontalRepeat.  When
    [floor p], [k], [floor r] and [img.height * ceil numSplits] are at
    least 1 and below 2^31, the download is a PNG [floor r] wide and
    [img.height * ceil numSplits] high, and its pixel [(X, Y)] is the
    pixel of the scaled canvas that [weave] names: column
    [(Y / h) * k + X mod k] in row [Y mod h], counted from the bottom
    when [Y / h] is odd, or white beyond the last column of the scaled
    canvas. *)
Theorem pipeline_weave
    (resample : Bitmap -> Rect -> Rect -> Transform -> Z -> Z -> option RGBA)
    (sched : list nat) (img : Bitmap) (editorState : gmap string number)
    (p n c r : Q) (k : Z) :
  1 <= height img < 2 ^ 31 ->
  scaledWidth_of img editorState = Finite p -> 1 <= Qfloor p < 2 ^ 31 ->
  field editorState "numSplits" = Finite n -> (0 < n)%Q ->
  height img * Qceiling n < 2 ^ 31 ->
  sliceWidth_of img editorState = of_Z k -> 1 <= k < 2 ^ 31 ->
  field editorState "horizontalRepeat" = Finite c -> (0 < c)%Q ->
  mul (of_Z k) (Finite c) = Finite r -> 1 <= Qfloor r < 2 ^ 31 ->
  exists scaledCanvas out,
    scaler resample img (scaledWidth_of img editorState) = Normal scaledCanvas
    /\ processAndDownload resample sched img editorState
       = Normal (PngData (width out) (height out) (rows_of out))
    /\ width out = Qfloor r
    /\ height out = height img * Qceiling n
    /\ forall X Y, 0 <= X < width out -> 0 <= Y < height out ->
         pixel out X Y = weave scaledCanvas k (height img) X Y.
Proof.
  intros Hh Hp HW Hn Hnpos Hfit Hk Hk1 Hr Hcpos Hmul Hr1.
  destruct (pipeline_canvas resample sched img editorState p n c r k Hh Hp HW Hn Hnpos
              Hfit Hk Hk1 Hr Hcpos Hmul ltac:(lia))
    as (sc & fc & Hsc & _ & _ & _ & Hrun & Hfw & Hfh & Hfp).
  pose proof (Qceiling_pos n Hnpos) as Hceil.
  exists sc, fc. split; [exact Hsc|]. split.
  - rewrite Hrun. f_equal. apply toDataURL_png; [lia|nia].
  - split; [exact Hfw|]. split; [exact Hfh|exact Hfp].
Qed.

Lemma pipeline_weave_witness :
  exists scaledCanvas out,
    scaler nearest (test_image 5 2)
           (scaledWidth_of (test_image 5 2)
              (editor (of_Z 1) (Finite (5 # 2)) (Finite (3 # 2))))
    = Normal scaledCanvas
    /\ processAndDownload nearest nil (test_image 5 2)
         (editor (of_Z 1) (Finite (5 # 2)) (Finite (3 # 2)))
       = Normal (PngData (width out) (height out) (rows_of out))
    /\ width out = 3
    /\ height out = 2 * 3
    /\ forall X Y, 0 <= X < width out -> 0 <= Y < height out ->
         pixel out X Y = weave scaledCanvas 2 2 X Y.
Proof.
  apply (pipeline_weave nearest nil (test_image 5 2)
           (editor (of_Z 1) (Finite (5 # 2)) (Finite (3 # 2)))
           5 (5 # 2) (3 # 2) 3 2).
  - simpl. lia.
  - vm_compute. reflexivity.
  - vm_compute. split; discriminate || reflexivity.
  - reflexivity.
  - reflexivity.
  - vm_compute. reflexivity.
  - vm_compute. reflexivity.
  - lia.
  - reflexivity.
  - reflexivity.
  - vm_compute. reflexivity.
  - vm_compute. split; discriminate || reflexivity.
Defined.

Example run_weave :
  greys (processAndDownload nearest nil (test_image 5 2)
           (editor (of_Z 1) (Finite (5 # 2)) (Finite (3 # 2))))
  = [[0; 1; 0]; [10; 11; 10]; [12; 13; 12]; [2; 3; 2]; [4; 255; 4]; [14; 255; 14]].
Proof. vm_compute. reflexivity. Qed.

(** X2. With the scaled canvas, the slices and the vertical canvas all
    in range as in X1, an output width [sliceWidth * horizontalRepeat]
    that the code computes below 1 leaves the final canvas without a
    column, and the pipeline downloads the empty ["data:,"]. *)
Theorem tiny_repeat_downloads_nothing
    (resample : Bitmap -> Rect -> Rect -> Transform -> Z -> Z -> option RGBA)
    (sched : list nat) (img : Bitmap) (editorState : gmap string number)
    (p n c r : Q) (k : Z) :
  1 <= height img < 2 ^ 31 ->
  scaledWidth_of img editorState = Finite p -> 1 <= Qfloor p < 2 ^ 31 ->
  field editorState "numSplits" = Finite n -> (0 < n)%Q ->
  height img * Qceiling n < 2 ^ 31 ->
  sliceWidth_of img editorState = of_Z k -> 1 <= k < 2 ^ 31 ->
  field editorState "horizontalRepeat" = Finite c -> (0 < c)%Q ->
  mul (of_Z k) (Finite c) = Finite r -> (r < 1)%Q ->
  processAndDownload resample sched img editorState = Normal EmptyData.
Proof.
  intros Hh Hp HW Hn Hnpos Hfit Hk Hk1 Hr Hcpos Hmul Hsmall.
  assert (Hr0 : (0 <= r)%Q).
  { assert (Hkc : (0 <= inject_Z k * c)%Q).
    { apply Qmult_le_0_compat; [apply inject_Z_nonneg; lia|lra]. }
    destruct (binary64_finite _ _ Hkc Hmul) as (_ & H0 & _). exact H0. }
  assert (Hfl : Qfloor r = 0) by (apply Qfloor_unit; assumption).
  destruct (pipeline_canvas resample sched img editorState p n c r k Hh Hp HW Hn Hnpos
              Hfit Hk Hk1 Hr Hcpos Hmul ltac:(rewrite Hfl; reflexivity))
    as (sc & fc & _ & _ & _ & _ & Hrun & Hfw & _).
  rewrite Hrun. f_equal. apply toDataURL_empty. left. lia.
Qed.

Lemma tiny_repeat_downloads_nothing_witness :
  processAndDownload nearest nil (test_image 3 2)
    (editor (of_Z 1) (of_Z 3) (Finite (1 # 2))) = Normal EmptyData.
Proof.
  apply (tiny_repeat_downloads_nothing nearest nil (test_image 3 2)
           (editor (of_Z 1) (of_Z 3) (Finite (1 # 2))) 3 3 (1 # 2) (1 # 2) 1).
  - simpl. lia.
  - vm_compute. reflexivity.
  - vm_compute. split; discriminate || reflexivity.
  - reflexivity.
  - reflexivity.
  - vm_compute. reflexivity.
  - vm_compute. reflexivity.
  - lia.
  - reflexivity.
  - reflexivity.
  - vm_compute. reflexivity.
  - reflexivity.
Defined.

(** ** Runs that download nothing *)

Lemma positive_number (a : number) :
  gt a (of_Z 0) = true ->
  a = Infinity false \/ exists q, a = Finite q /\ (0 < q)%Q.
Proof.
  destruct a as [|b|q]; unfold gt, lt, of_Z; intros H; try discriminate.
  - left. destruct b; [discriminate|reflexivity].
  - right. exists q. split; [reflexivity|].
    destruct (Qlt_le_dec (inject_Z 0) q) as [Hlt|]; [exact Hlt|discriminate].
Qed.

Lemma empty_scaled_canvas
    (resample : Bitmap -> Rect -> Rect -> Transform -> Z -> Z -> option RGBA)
    (sched : list nat) (img : Bitmap) (editorState : gmap string number) :
  width (createCanvas (scaledWidth_of img editorState) (of_Z (height img))) = 0 ->
  gt (field editorState "numSplits") (of_Z 0) = true ->
  processAndDownload resample sched img editorState = Abrupt (Thrown InvalidStateError).
Proof.
  intros HW Hn.
  destruct (scaler_canvas resample img (scaledWidth_of img editorState))
    as (sc & Hsc & Hscw & _).
  cbn [createCanvas width] in HW.
  unfold processAndDownload. rewrite Hsc. cbn [bind].
  rewrite slicer_throws; [reflexivity|left; lia|exact Hn].
Qed.

(** X3. When the scaled canvas has no column (the width that
    [createCanvas] gives it for [img.width * scale] is 0; a product below
    1 is one case), the first [drawImage] from it throws
    [InvalidStateError], whatever positive numSplits (finite or not) and
    whatever horizontalRepeat are set: nothing is downloaded. *)
Theorem empty_scaled_canvas_throws
    (resample : Bitmap -> Rect -> Rect -> Transform -> Z -> Z -> option RGBA)
    (sched : list nat) (img : Bitmap) (editorState : gmap string number) :
  width (createCanvas (scaledWidth_of img editorState) (of_Z (height img))) = 0
  \/ (exists p, scaledWidth_of img editorState = Finite p /\ (0 <= p)%Q /\ (p < 1)%Q) ->
  gt (field editorState "numSplits") (of_Z 0) = true ->
  processAndDownload resample sched img editorState = Abrupt (Thrown InvalidStateError)
  /\ forall href, processAndDownload resample sched img editorState <> Normal href.
Proof.
  intros Hsmall Hn.
  assert (HW : width (createCanvas (scaledWidth_of img editorState)
                                   (of_Z (height img))) = 0).
  { destruct Hsmall as [H|(p & Hp & Hp0 & Hp1)]; [exact H|].
    cbn [createCanvas width]. rewrite Hp, dimension_finite.
    - apply Qfloor_unit; assumption.
    - exact Hp0.
    - rewrite Qfloor_unit by assumption. reflexivity. }
  rewrite (empty_scaled_canvas resample sched img editorState HW Hn).
  split; [reflexivity|]. intros href. discriminate.
Qed.

Lemma empty_scaled_canvas_throws_witness :
  processAndDownload nearest nil (test_image 3 2)
    (editor (Finite (1 # 4)) (Infinity false) (of_Z 2))
  = Abrupt (Thrown InvalidStateError)
  /\ forall href,
       processAndDownload nearest nil (test_image 3 2)
         (editor (Finite (1 # 4)) (Infinity false) (of_Z 2)) <> Normal href.
Proof.
  apply (empty_scaled_canvas_throws nearest nil (test_image 3 2)
           (editor (Finite (1 # 4)) (Infinity false) (of_Z 2))).
  - right. exists (3 # 4). split; [vm_compute; reflexivity|]. split; [discriminate|].
    reflexivity.
  - reflexivity.
Defined.

(** ** What is downloaded is opaque *)

Lemma rows_of_In (b : Bitmap) (row : list RGBA) (p : RGBA) :
  In row (rows_of b) -> In p row ->
  exists X Y, 0 <= X < width b /\ 0 <= Y < height b /\ p = pixel b X Y.
Proof.
  unfold rows_of. intros Hrow Hp.
  apply in_map_iff in Hrow. destruct Hrow as (y & <- & Hy).
  apply in_map_iff in Hp. destruct Hp as (x & <- & Hx).
  apply in_seq in Hy. apply in_seq in Hx.
  exists (Z.of_nat x), (Z.of_nat y). split; [lia|]. split; [lia|reflexivity].
Qed.

Lemma iterate_invariant {St : Type} (P : St -> Prop) (body : Z -> St -> completion St) :
  (forall i s s', P s -> body i s = Normal s' -> P s') ->
  forall k i0 s s', P s -> iterate k i0 body s = Normal s' -> P s'.
Proof.
  intros Hbody. induction k as [|k IH]; intros i0 s s' Hs Hrun.
  - cbn [iterate] in Hrun. injection Hrun as <-. exact Hs.
  - cbn [iterate] in Hrun. destruct (body i0 s) as [s1|r] eqn:E; [|discriminate].
    cbn [bind] in Hrun. apply (IH (i0 + 1) s1 s'); [|exact Hrun].
    apply (Hbody i0 s s1 Hs E).
Qed.

(** The slice width for a positive scale and a positive numSplits is a
    whole number that is not negative, or the positive infinity. *)
Lemma sliceWidth_nonneg (img : Bitmap) (editorState : gmap string number) (s n : Q) :
  0 <= width img ->
  field editorState "scale" = Finite s -> (0 <= s)%Q ->
  field editorState "numSplits" = Finite n -> (0 < n)%Q ->
  (exists k, 0 <= k /\ sliceWidth_of img editorState = of_Z k)
  \/ sliceWidth_of img editorState = Infinity false.
Proof.
  intros Hw Hs Hs0 Hn Hn0.
  assert (Hq : (0 <= inject_Z (width img) * s)%Q).
  { apply Qmult_le_0_compat; [apply inject_Z_nonneg; exact Hw|exact Hs0]. }
  assert (Hsw : scaledWidth_of img editorState = binary64 (inject_Z (width img) * s)).
  { unfold scaledWidth_of. rewrite Hs. reflexivity. }
  destruct (binary64_nonneg _ Hq) as [(p & Hp & Hp0 & _)|Hinf].
  - apply (sliceWidth_cases img editorState p n); try assumption. congruence.
  - right. unfold sliceWidth_of. rewrite Hsw, Hinf, Hn. cbn [div floor].
    rewrite Qneg_false by lra. reflexivity.
Qed.

(** The final canvas is painted white whenever it has a pixel. *)
Lemma final_canvas_white (k : Z) (c : Q) (total : Z) :
  0 <= k -> (0 <= c)%Q -> 0 <= total ->
  1 <= width (createCanvas (mul (of_Z k) (Finite c)) (of_Z total)) ->
  1 <= height (createCanvas (mul (of_Z k) (Finite c)) (of_Z total)) ->
  fill_covers (mul (of_Z k) (Finite c)) (of_Z total) = true.
Proof.
  intros Hk Hc Ht Hw Hh. cbn [createCanvas width height] in Hw, Hh.
  assert (Hkc : (0 <= inject_Z k * c)%Q).
  { apply Qmult_le_0_compat; [apply inject_Z_nonneg; exact Hk|exact Hc]. }
  assert (Ht1 : 0 < total).
  { destruct (Z.eq_dec total 0) as [->|]; [|lia]. vm_compute in Hh. congruence. }
  assert (Hm : mul (of_Z k) (Finite c) = binary64 (inject_Z k * c)) by reflexivity.
  rewrite Hm in *. clear Hm.
  destruct (binary64_nonneg _ Hkc) as [(r & Hr & Hr0 & _)|Hinf].
  - rewrite Hr in *. unfold fill_covers, of_Z.
    rewrite (Qpos_true (inject_Z total)) by (apply inject_Z_pos; exact Ht1).
    rewrite Qpos_true; [reflexivity|].
    apply (dimension_positive 300); [exact Hr0|].
    unfold dimension in Hw.
    destruct (unsigned_long (Finite r) <? 2 ^ 31) eqn:E; [exact Hw|].
    apply Z.ltb_ge in E. lia.
  - rewrite Hinf in Hw. vm_compute in Hw. congruence.
Qed.

(** X4. With finite positive parameters, every pixel of every PNG that
    the pipeline downloads is opaque: a transparent source never shows
    through, because each canvas is painted white before it is drawn on. *)
Theorem download_is_opaque
    (resample : Bitmap -> Rect -> Rect -> Transform -> Z -> Z -> option RGBA)
    (sched : list nat) (img : Bitmap) (editorState : gmap string number) (s n c : Q)
    (w h : Z) (rows : list (list RGBA)) :
  1 <= width img -> 1 <= height img ->
  field editorState "scale" = Finite s -> (0 < s)%Q ->
  field editorState "numSplits" = Finite n -> (0 < n)%Q ->
  field editorState "horizontalRepeat" = Finite c -> (0 < c)%Q ->
  processAndDownload resample sched img editorState = Normal (PngData w h rows) ->
  forall row p, In row rows -> In p row -> alpha p = 255.
Proof.
  intros Hw Hh Hs Hspos Hn Hnpos Hr Hcpos Hrun row p Hrow Hp.
  unfold processAndDownload in Hrun.
  destruct (scaler resample img (scaledWidth_of img editorState)) as [sc|]; [|discriminate].
  cbn [bind] in Hrun.
  destruct (slicer resample (height img) sc (sliceWidth_of img editorState)
                   (field editorState "numSplits")) as [slices|]; [|discriminate].
  cbn [bind] in Hrun.
  destruct (compositeVertical resample sched (height img)
              (sliceWidth_of img editorState) slices) as [vc|]; [|discriminate].
  cbn [bind] in Hrun. rewrite Hr in Hrun.
  destruct (repeatHorizontal resample vc (sliceWidth_of img editorState)
              (totalHeight (height img) slices) (Finite c)) as [fc|] eqn:Hfc;
    [|discriminate].
  cbn [bind] in Hrun. injection Hrun as Hrun.
  assert (Hsize : 1 <= width fc /\ 1 <= height fc /\ rows = rows_of fc).
  { unfold toDataURL in Hrun.
    destruct (width fc <=? 0) eqn:E1; [discriminate|].
    destruct (height fc <=? 0) eqn:E2; [discriminate|].
    cbn [orb] in Hrun. injection Hrun as _ _ <-.
    apply Z.leb_gt in E1. apply Z.leb_gt in E2. split; [lia|]. split; [lia|reflexivity]. }
  destruct Hsize as (Hfw & Hfh & ->).
  unfold repeatHorizontal, for_loop in Hfc. cbn [iterations] in Hfc.
  set (base := createCanvas (mul (sliceWidth_of img editorState) (Finite c))
                            (of_Z (totalHeight (height img) slices))) in *.
  assert (Hinv : width fc = width base /\ height fc = height base
                 /\ ((forall X Y, alpha (pixel base X Y) = 255) ->
                     forall X Y, alpha (pixel fc X Y) = 255)).
  { refine (iterate_invariant
              (fun cv => width cv = width base /\ height cv = height base
                         /\ ((forall X Y, alpha (pixel base X Y) = 255) ->
                             forall X Y, alpha (pixel cv X Y) = 255))
              _ _ _ 0 base fc _ Hfc); [|auto].
    intros i cv1 cv2 Hcv Hstep.
    unfold drawImage3, drawImage5 in Hstep. apply drawImage9_shape in Hstep.
    destruct Hstep as (H1 & H2 & H3). destruct Hcv as (H4 & H5 & H6).
    split; [congruence|]. split; [congruence|]. intros Hb X Y. apply H3, H6, Hb. }
  destruct Hinv as (Hiw & Hih & Hia).
  destruct (rows_of_In fc row p Hrow Hp) as (X & Y & HX & HY & ->).
  apply Hia. intros X0 Y0. unfold base. cbn [createCanvas pixel].
  assert (Htotal : 0 <= totalHeight (height img) slices) by (unfold totalHeight; nia).
  destruct (sliceWidth_nonneg img editorState s n) as [(k & Hk0 & Hk)|Hinf];
    try assumption; try lia; try lra.
  - unfold base in Hiw, Hih. rewrite Hk in *.
    rewrite final_canvas_white; [reflexivity|lia|lra|exact Htotal|lia|lia].
  - exfalso. unfold base in Hiw. rewrite Hinf in Hiw. cbn [mul] in Hiw.
    rewrite Qzero_false in Hiw by (intros E; lra).
    assert (Hz : width fc = 0) by (rewrite Hiw; reflexivity). lia.
Qed.

Lemma download_is_opaque_witness : alpha white = 255.
Proof.
  apply (download_is_opaque nearest nil transparent_image
           (editor (of_Z 1) (of_Z 1) (of_Z 1)) 1 1 1 1 1 [[white]])
    with (row := [white]).
  - simpl. lia.
  - simpl. lia.
  - reflexivity.
  - reflexivity.
  - reflexivity.
  - reflexivity.
  - reflexivity.
  - reflexivity.
  - vm_compute. reflexivity.
  - left. reflexivity.
  - left. reflexivity.
Defined.

(** ** Slices and repeats with a fraction *)

(** X5. Let [p] be the scaled width and [k] the slice width as the code
    computes them, with [floor p] and [k] at least 1 and below 2^31. For
    any finite positive numSplits, slice [i] is [k] wide and shows the
    columns of the scaled canvas from [i * k] on; where a slice reaches
    beyond the scaled canvas (possible only when numSplits has a
    fraction), its columns are white. *)
Theorem slicer_overhang_is_white
    (resample : Bitmap -> Rect -> Rect -> Transform -> Z -> Z -> option RGBA)
    (img : Bitmap) (editorState : gmap string number) (p n : Q) (k : Z) :
  1 <= height img < 2 ^ 31 ->
  scaledWidth_of img editorState = Finite p -> 1 <= Qfloor p < 2 ^ 31 ->
  field editorState "numSplits" = Finite n -> (0 < n)%Q ->
  sliceWidth_of img editorState = of_Z k -> 1 <= k < 2 ^ 31 ->
  exists scaledCanvas slices,
    scaler resample img (scaledWidth_of img editorState) = Normal scaledCanvas
    /\ width scaledCanvas = Qfloor p
    /\ slicer resample (height img) scaledCanvas (sliceWidth_of img editorState)
              (field editorState "numSplits") = Normal slices
    /\ length slices = Z.to_nat (Qceiling n)
    /\ forall i, 0 <= i < Qceiling n ->
         exists u b,
           nth_error slices (Z.to_nat i) = Some u
           /\ load_image u = Some b
           /\ width b = k /\ height b = height img
           /\ forall x y, 0 <= x < k -> 0 <= y < height img ->
                pixel b x y
                = if i * k + x <? width scaledCanvas
                  then pixel scaledCanvas (i * k + x) y
                  else white.
Proof.
  intros Hh Hp HW Hn Hnpos Hk Hk1.
  destruct (scaler_shape resample img p) as (sc & Hsc & Hscw & Hsch & Hopaque);
    [apply Qfloor_pos; lia|lia|exact Hh|].
  rewrite <- Hp in Hsc.
  destruct (slicer_slices resample (height img) sc k n) as (slices & Hsl & Hlen & Hnth);
    try lia.
  exists sc, slices. split; [exact Hsc|]. split; [exact Hscw|]. rewrite Hk, Hn.
  split; [exact Hsl|]. split; [exact Hlen|].
  intros i Hi.
  destruct (nth_error slices (Z.to_nat i)) as [u|] eqn:Eu.
  2:{ apply nth_error_None in Eu. lia. }
  destruct (Hnth _ _ Eu) as (cv & -> & Hcw & Hch & Hcp).
  destruct (load_toDataURL cv) as (b & Hb & Hbw & Hbh & Hbp); try lia.
  exists (toDataURL cv), b. split; [reflexivity|]. split; [exact Hb|].
  split; [lia|]. split; [lia|].
  intros x y Hx Hy. rewrite Hbp by lia. rewrite Hcp, Z2Nat.id by lia.
  apply slice_pixel_weave; try assumption; lia.
Qed.

Lemma slicer_overhang_is_white_witness :
  exists scaledCanvas slices,
    scaler nearest (test_image 5 2)
           (scaledWidth_of (test_image 5 2) (editor (of_Z 1) (Finite (5 # 2)) (of_Z 1)))
    = Normal scaledCanvas
    /\ width scaledCanvas = 5
    /\ slicer nearest 2 scaledCanvas
              (sliceWidth_of (test_image 5 2) (editor (of_Z 1) (Finite (5 # 2)) (of_Z 1)))
              (field (editor (of_Z 1) (Finite (5 # 2)) (of_Z 1)) "numSplits")
       = Normal slices
    /\ length slices = 3%nat
    /\ forall i, 0 <= i < 3 ->
         exists u b,
           nth_error slices (Z.to_nat i) = Some u
           /\ load_image u = Some b
           /\ width b = 2 /\ height b = 2
           /\ forall x y, 0 <= x < 2 -> 0 <= y < 2 ->
                pixel b x y
                = if i * 2 + x <? width scaledCanvas
                  then pixel scaledCanvas (i * 2 + x) y
                  else white.
Proof.
  apply (slicer_overhang_is_white nearest (test_image 5 2)
           (editor (of_Z 1) (Finite (5 # 2)) (of_Z 1)) 5 (5 # 2) 2).
  - simpl. lia.
  - vm_compute. reflexivity.
  - vm_compute. split; discriminate || reflexivity.
  - reflexivity.
  - reflexivity.
  - vm_compute. reflexivity.
  - lia.
Defined.

(** X6. For an opaque composite [w] wide and any finite positive repeat
    count [c], let [r] be the product [w * c] as the code computes it,
    with [floor r] below 2^31. The loop runs ceil(c) times but the final
    canvas is only [floor r] wide: it holds the copies of the composite
    side by side as far as they fit, the last one cut off where the
    canvas ends. *)
Theorem repeatHorizontal_fraction
    (resample : Bitmap -> Rect -> Rect -> Transform -> Z -> Z -> option RGBA)
    (verticalCanvas : Bitmap) (c r : Q) :
  1 <= width verticalCanvas -> 1 <= height verticalCanvas < 2 ^ 31 -> (0 < c)%Q ->
  (forall x y, 0 <= x < width verticalCanvas -> 0 <= y < height verticalCanvas ->
     alpha (pixel verticalCanvas x y) = 255) ->
  mul (of_Z (width verticalCanvas)) (Finite c) = Finite r -> Qfloor r < 2 ^ 31 ->
  iterations (Finite c) = Times (Z.to_nat (Qceiling c))
  /\ exists finalCanvas,
       repeatHorizontal resample verticalCanvas (of_Z (width verticalCanvas))
                        (height verticalCanvas) (Finite c) = Normal finalCanvas
       /\ width finalCanvas = Qfloor r
       /\ height finalCanvas = height verticalCanvas
       /\ forall i x y,
            0 <= i -> 0 <= x < width verticalCanvas ->
            i * width verticalCanvas + x < width finalCanvas ->
            0 <= y < height verticalCanvas ->
            pixel finalCanvas (i * width verticalCanvas + x) y = pixel verticalCanvas x y.
Proof.
  intros Hw Hh Hc Hopaque Hr Hlt. split; [reflexivity|].
  destruct (repeat_fraction resample verticalCanvas c r Hw Hh Hc Hopaque Hr Hlt)
    as (fc & Hfc & Hfw & Hfh & Hfp).
  exists fc. split; [exact Hfc|]. split; [exact Hfw|]. split; [exact Hfh|].
  intros i x y Hi Hx Hfit Hy. rewrite Hfp by nia.
  f_equal. rewrite Z.add_comm, Z.mod_add by lia. apply Z.mod_small. lia.
Qed.

Lemma repeatHorizontal_fraction_witness :
  iterations (Finite (5 # 2)) = Times 3
  /\ exists finalCanvas,
       repeatHorizontal nearest test_composite (of_Z (width test_composite))
                        (height test_composite) (Finite (5 # 2)) = Normal finalCanvas
       /\ width finalCanvas = 5
       /\ height finalCanvas = height test_composite
       /\ forall i x y,
            0 <= i -> 0 <= x < width test_composite ->
            i * width test_composite + x < width finalCanvas ->
            0 <= y < height test_composite ->
            pixel finalCanvas (i * width test_composite + x) y = pixel test_composite x y.
Proof.
  apply (repeatHorizontal_fraction nearest test_composite (5 # 2) 5).
  - simpl. lia.
  - simpl. lia.
  - reflexivity.
  - intros x y _ _. reflexivity.
  - vm_compute. reflexivity.
  - vm_compute. reflexivity.
Defined.

(** ** Sequences of input events *)

Lemma run_events_app (es1 es2 : list ChangeEvent) (st : gmap string number) :
  run_events (es1 ++ es2) st = run_events es2 (run_events es1 st).
Proof. unfold run_events. apply fold_left_app. Qed.

Lemma last_for_snoc (key : string) (events : list ChangeEvent) (event : ChangeEvent) :
  last_for key (events ++ event :: nil)
  = if String.eqb (target_id event) key then Some event else last_for key events.
Proof. unfold last_for. rewrite rev_app_distr. reflexivity. Qed.

Lemma field_handleInputChange_same (event : ChangeEvent) (prev : gmap string number) :
  field (handleInputChange event prev) (target_id event)
  = clamp (parseFloat (target_value event)).
Proof. unfold field, handleInputChange. rewrite lookup_insert_eq. reflexivity. Qed.

Lemma clamp_positive (v : number) : gt (clamp v) (of_Z 0) = true.
Proof. unfold clamp. destruct (gt v (of_Z 0)) eqn:E; [exact E|reflexivity]. Qed.

Lemma field_run_events (events : list ChangeEvent) (st : gmap string number)
    (key : string) :
  field (run_events events st) key
  = match last_for key events with
    | Some event => clamp (parseFloat (target_value event))
    | None => field st key
    end.
Proof.
  induction events as [|event events IH] using rev_ind; [reflexivity|].
  rewrite run_events_app, last_for_snoc. cbn [run_events fold_left].
  destruct (String.eqb (target_id event) key) eqn:E.
  - apply String.eqb_eq in E. subst key. apply field_handleInputChange_same.
  - apply String.eqb_neq in E.
    rewrite field_handleInputChange_other by congruence. exact IH.
Qed.

(** X7. After any sequence of change events, an input's property holds
    the clamped value of the latest event that targeted it, and the value
    it had before the sequence if no event did: earlier events on the
    same input and all events on other inputs leave no trace in it. *)
Theorem last_event_wins (events : list ChangeEvent) (st : gmap string number)
    (key : string) :
  field (run_events events st) key
  = match last_for key events with
    | Some event => clamp (parseFloat (target_value event))
    | None => field st key
    end.
Proof. apply field_run_events. Qed.

Example run_last_event_wins :
  field (run_events [ {| target_id := "scale"; target_value := "3" |};
                      {| target_id := "numSplits"; target_value := "4" |};
                      {| target_id := "scale"; target_value := "-2" |} ]
                    initialState) "scale" = of_Z 1
  /\ field (run_events [ {| target_id := "scale"; target_value := "3" |};
                         {| target_id := "numSplits"; target_value := "4" |};
                         {| target_id := "scale"; target_value := "-2" |} ]
                       initialState) "numSplits" = of_Z 4
  /\ field (run_events [ {| target_id := "scale"; target_value := "3" |};
                         {| target_id := "numSplits"; target_value := "4" |};
                         {| target_id := "scale"; target_value := "-2" |} ]
                       initialState) "horizontalRepeat" = of_Z 1.
Proof. vm_compute. repeat split; reflexivity. Qed.

(** X8. From the initial state on, whatever is typed into the inputs,
    scale, numSplits and horizontalRepeat are numbers greater than 0 (never
    [NaN], 0 or negative) whenever [processAndDownload] reads them. *)
Theorem parameters_stay_positive (events : list ChangeEvent) :
  gt (field (run_events events initialState) "scale") (of_Z 0) = true
  /\ gt (field (run_events events initialState) "numSplits") (of_Z 0) = true
  /\ gt (field (run_events events initialState) "horizontalRepeat") (of_Z 0) = true.
Proof.
  assert (H : forall key,
             gt (field initialState key) (of_Z 0) = true ->
             gt (field (run_events events initialState) key) (of_Z 0) = true).
  { intros key Hinit. rewrite field_run_events.
    destruct (last_for key events); [apply clamp_positive|exact Hinit]. }
  split; [|split]; apply H; vm_compute; reflexivity.
Qed.

(** ** The two editors compared *)

Lemma iterate_add {St : Type} (body : Z -> St -> completion St) (k m : nat)
    (i0 : Z) (s : St) :
  iterate (k + m) i0 body s
  = let* s' := iterate k i0 body s in iterate m (i0 + Z.of_nat k) body s'.
Proof.
  revert i0 s. induction k as [|k IH]; intros i0 s.
  - cbn [Nat.add iterate bind Z.of_nat]. rewrite Z.add_0_r. reflexivity.
  - cbn [Nat.add iterate]. destruct (body i0 s) as [s1|r]; [|reflexivity].
    cbn [bind]. rewrite IH. replace (i0 + 1 + Z.of_nat k) with (i0 + Z.of_nat (S k)) by lia.
    reflexivity.
Qed.

Lemma array_length_finite (q : Q) :
  (0 <= q)%Q -> Qfloor q < 2 ^ 32 ->
  BackupEditor.array_length (Finite q) = Some (Z.to_nat (Qfloor q)).
Proof.
  intros Hq Hlt. unfold BackupEditor.array_length. rewrite truncate_nonneg by exact Hq.
  pose proof (Qfloor_nonneg q Hq) as H0.
  destruct (Qfloor q <? 0) eqn:E1; [apply Z.ltb_lt in E1; lia|].
  destruct (Qfloor q <? 2 ^ 32) eqn:E2; [reflexivity|apply Z.ltb_ge in E2; lia].
Qed.

Lemma array_length_of_Z (n : Z) :
  0 <= n < 2 ^ 32 -> BackupEditor.array_length (of_Z n) = Some (Z.to_nat n).
Proof.
  intros Hn. unfold of_Z. rewrite array_length_finite.
  - rewrite Qfloor_Z. reflexivity.
  - change (inject_Z 0 <= inject_Z n)%Q. rewrite <- Zle_Qle. lia.
  - rewrite Qfloor_Z. lia.
Qed.

Section CompareFacts.

Variable resample : Bitmap -> Rect -> Rect -> Transform -> Z -> Z -> option RGBA.

Lemma slices_extend (h : Z) (sc : Bitmap) (sliceWidth : number) (a b : nat) :
  1 <= width sc -> 1 <= height sc ->
  exists front rest,
    iterate a 0 (slice_body resample h sc sliceWidth) nil = Normal front
    /\ iterate (a + b) 0 (slice_body resample h sc sliceWidth) nil
       = Normal (front ++ rest)
    /\ length front = a /\ length rest = b.
Proof.
  intros Hw Hh.
  assert (Hbody : forall i s, 0 <= i ->
             exists u, slice_body resample h sc sliceWidth i s = Normal (s ++ u :: nil)
                       /\ True).
  { intros i s _. unfold slice_body.
    destruct (drawImage9_usable resample Identity (CanvasElement sc)
                (mul (of_Z i) sliceWidth) (of_Z 0) sliceWidth (of_Z h)
                (of_Z 0) (of_Z 0) sliceWidth (of_Z h)
                (createCanvas sliceWidth (of_Z h)) (usable_canvas sc Hw Hh)) as [c Hc].
    rewrite Hc. exists (toDataURL c). split; [reflexivity|exact I]. }
  destruct (iterate_push (fun _ _ => True) _ Hbody a 0 nil) as (front & Hf & Hlf & _);
    [lia|].
  destruct (iterate_push (fun _ _ => True) _ Hbody b (0 + Z.of_nat a) front)
    as (rest & Hr & Hlr & _); [lia|].
  exists front, rest. cbn [app] in Hf. split; [exact Hf|].
  rewrite iterate_add, Hf. cbn [bind]. auto.
Qed.

End CompareFacts.

(** X9. Take a finite positive numSplits below 2^32 and parameters for
    which the scaled canvas has at least one column and one row (the
    sizes that [createCanvas] gives it for [img.width * scale] and
    [img.height]). Then [splitImage] of ImageEditorBackup.tsx keeps
    floor(numSplits) slices where the loop of ImageEditor.tsx makes
    ceil(numSplits): the same slices in the same order, without the last
    one when numSplits has a fraction. *)
Theorem Backup_split_is_prefix
    (resample : Bitmap -> Rect -> Rect -> Transform -> Z -> Z -> option RGBA)
    (img : Bitmap) (editorState : gmap string number) (n : Q) :
  1 <= width (createCanvas (scaledWidth_of img editorState) (of_Z (height img))) ->
  1 <= height (createCanvas (scaledWidth_of img editorState) (of_Z (height img))) ->
  field editorState "numSplits" = Finite n -> (0 < n)%Q -> Qfloor n < 2 ^ 32 ->
  exists scaledCanvas imageSlices rest,
    scaler resample img (scaledWidth_of img editorState) = Normal scaledCanvas
    /\ BackupEditor.splitImage resample img editorState
       = BackupEditor.Ran (Normal imageSlices)
    /\ slicer resample (height img) scaledCanvas (sliceWidth_of img editorState)
              (field editorState "numSplits") = Normal (imageSlices ++ rest)
    /\ length imageSlices = Z.to_nat (Qfloor n)
    /\ length (imageSlices ++ rest) = Z.to_nat (Qceiling n).
Proof.
  intros HW HH Hn Hnpos Hbound.
  destruct (scaler_canvas resample img (scaledWidth_of img editorState))
    as (sc & Hsc & Hscw & Hsch & _).
  cbn [createCanvas width height] in HW, HH.
  pose proof (Qfloor_nonneg n (Qlt_le_weak _ _ Hnpos)) as Hfloor.
  assert (Hfc : Qfloor n <= Qceiling n) by (rewrite Zle_Qle; apply Qle_floor_ceiling).
  destruct (slices_extend resample (height img) sc (sliceWidth_of img editorState)
              (Z.to_nat (Qfloor n)) (Z.to_nat (Qceiling n - Qfloor n)))
    as (front & rest & Hfront & Hall & Hlf & Hlr); try lia.
  exists sc, front, rest. split; [exact Hsc|]. split; [|split; [|split]].
  - unfold BackupEditor.splitImage. rewrite Hsc, Hn.
    rewrite array_length_finite by (try apply Qlt_le_weak; assumption).
    rewrite Hfront. reflexivity.
  - rewrite Hn. unfold slicer, for_loop. cbn [iterations].
    replace (Z.to_nat (Qceiling n))
      with (Z.to_nat (Qfloor n) + Z.to_nat (Qceiling n - Qfloor n))%nat by lia.
    exact Hall.
  - exact Hlf.
  - rewrite length_app. lia.
Qed.

Lemma Backup_split_is_prefix_witness :
  exists scaledCanvas imageSlices rest,
    scaler nearest (test_image 5 2)
           (scaledWidth_of (test_image 5 2) (editor (of_Z 1) (Finite (5 # 2)) (of_Z 1)))
    = Normal scaledCanvas
    /\ BackupEditor.splitImage nearest (test_image 5 2)
         (editor (of_Z 1) (Finite (5 # 2)) (of_Z 1))
       = BackupEditor.Ran (Normal imageSlices)
    /\ slicer nearest 2 scaledCanvas
              (sliceWidth_of (test_image 5 2) (editor (of_Z 1) (Finite (5 # 2)) (of_Z 1)))
              (field (editor (of_Z 1) (Finite (5 # 2)) (of_Z 1)) "numSplits")
       = Normal (imageSlices ++ rest)
    /\ length imageSlices = 2%nat
    /\ length (imageSlices ++ rest) = 3%nat.
Proof.
  apply (Backup_split_is_prefix nearest (test_image 5 2)
           (editor (of_Z 1) (Finite (5 # 2)) (of_Z 1)) (5 # 2)).
  - vm_compute. discriminate.
  - vm_compute. discriminate.
  - reflexivity.
  - reflexivity.
  - vm_compute. reflexivity.
Defined.

(** X10. Take whole numbers [numSplits = n >= 1] and
    [horizontalRepeat = c >= 1], and let [p] be the scaled width that the
    code computes, with slices at least one column wide
    ([floor p / n >= 1]). When the image height, [floor p],
    [img.height * n] and [(floor p / n) * c] are all below 2^31, the two
    editors agree: [mergeAndDownload] applied to the slices that
    [splitImage] stored ends exactly as [processAndDownload] does, and
    both download the same PNG, [(floor p / n) * c] wide and
    [img.height * n] high. *)
Theorem Backup_agrees_on_whole_numbers
    (resample : Bitmap -> Rect -> Rect -> Transform -> Z -> Z -> option RGBA)
    (sched : list nat) (img : Bitmap) (editorState : gmap string number)
    (p : Q) (n c : Z) :
  1 <= height img < 2 ^ 31 ->
  scaledWidth_of img editorState = Finite p -> Qfloor p < 2 ^ 31 ->
  field editorState "numSplits" = of_Z n -> 1 <= n ->
  field editorState "horizontalRepeat" = of_Z c -> 1 <= c ->
  1 <= Qfloor p / n ->
  height img * n < 2 ^ 31 -> Qfloor p / n * c < 2 ^ 31 ->
  exists imageSlices out,
    BackupEditor.splitImage resample img editorState
    = BackupEditor.Ran (Normal imageSlices)
    /\ BackupEditor.mergeAndDownload resample sched imageSlices editorState
       = BackupEditor.Ran (processAndDownload resample sched img editorState)
    /\ processAndDownload resample sched img editorState
       = Normal (PngData (width out) (height out) (rows_of out))
    /\ width out = Qfloor p / n * c
    /\ height out = height img * n.
Proof.
  intros Hh Hp Hplt Hn Hn1 Hr Hc1 Hk1 Hfit Hwide.
  set (k := Qfloor p / n) in *.
  assert (HW : 1 <= Qfloor p).
  { assert (n * (Qfloor p / n) <= Qfloor p) by (apply Z.mul_div_le; lia).
    fold k in H. nia. }
  assert (Hp0 : (0 <= p)%Q) by (apply Qlt_le_weak, Qfloor_pos; lia).
  assert (H53 : 2 ^ 31 < 2 ^ 53) by reflexivity.
  assert (Hnpos : (0 < inject_Z n)%Q) by (apply inject_Z_pos; lia).
  assert (Hcpos : (0 < inject_Z c)%Q) by (apply inject_Z_pos; lia).
  assert (Hk : sliceWidth_of img editorState = of_Z k).
  { apply (sliceWidth_of_Z img editorState p n); try assumption; lia. }
  assert (Hklt : k < 2 ^ 31) by nia.
  assert (Hmul : mul (of_Z k) (Finite (inject_Z c)) = Finite (inject_Z (k * c))).
  { apply (mul_of_Z k c). nia. }
  destruct (pipeline_canvas resample sched img editorState p (inject_Z n) (inject_Z c)
              (inject_Z (k * c)) k)
    as (sc & fc & Hsc & Hscw & Hsch & _ & Hrun & Hfw & Hfh & _);
    rewrite ?Qceiling_Z, ?Qfloor_Z; try assumption; try lia.
  rewrite Qfloor_Z in Hfw. rewrite Qceiling_Z in Hfh.
  destruct (slicer_slices_of_size resample (height img) sc k (inject_Z n))
    as (slices & Hsl & Hlen & Hof); try lia.
  change (Finite (inject_Z n)) with (of_Z n) in Hsl.
  rewrite Qceiling_Z in Hlen.
  assert (Hiter : iterate (Z.to_nat n) 0 (slice_body resample (height img) sc (of_Z k)) nil
                  = Normal slices).
  { unfold slicer, for_loop in Hsl. rewrite iterations_of_Z in Hsl. exact Hsl. }
  exists slices, fc. split; [|split; [|split; [|split]]].
  - unfold BackupEditor.splitImage. rewrite Hsc, Hn, Hk.
    rewrite array_length_of_Z by nia. rewrite Hiter. reflexivity.
  - destruct slices as [|first rest] eqn:Eslices; [cbn [length] in Hlen; lia|].
    rewrite <- Eslices in *.
    assert (Hne : slices <> nil) by (rewrite Eslices; discriminate).
    destruct (Hof 0%nat first) as (b0 & Hb0 & Hw0 & Hh0 & _).
    { rewrite Eslices. reflexivity. }
    unfold BackupEditor.mergeAndDownload. rewrite Eslices at 1. rewrite Hb0.
    rewrite (Backup_mergeVertical_same resample sched (height img) k slices Hof Hne).
    unfold processAndDownload. rewrite Hsc. cbn [bind]. rewrite Hk, Hn, Hsl. cbn [bind].
    destruct (compositeVertical resample sched (height img) (of_Z k) slices) as [vc|r];
      [|reflexivity].
    cbn [bind]. rewrite Hr, array_length_of_Z by nia.
    unfold repeatHorizontal, for_loop, totalHeight. rewrite iterations_of_Z.
    rewrite Hw0, Hh0. reflexivity.
  - rewrite Hrun. f_equal. apply toDataURL_png; nia.
  - exact Hfw.
  - exact Hfh.
Qed.

Lemma Backup_agrees_on_whole_numbers_witness :
  exists imageSlices out,
    BackupEditor.splitImage nearest (test_image 4 2) (editor (of_Z 1) (of_Z 2) (of_Z 2))
    = BackupEditor.Ran (Normal imageSlices)
    /\ BackupEditor.mergeAndDownload nearest nil imageSlices
         (editor (of_Z 1) (of_Z 2) (of_Z 2))
       = BackupEditor.Ran
           (processAndDownload nearest nil (test_image 4 2)
              (editor (of_Z 1) (of_Z 2) (of_Z 2)))
    /\ processAndDownload nearest nil (test_image 4 2)
         (editor (of_Z 1) (of_Z 2) (of_Z 2))
       = Normal (PngData (width out) (height out) (rows_of out))
    /\ width out = Qfloor 4 / 2 * 2
    /\ height out = 2 * 2.
Proof.
  apply (Backup_agrees_on_whole_numbers nearest nil (test_image 4 2)
           (editor (of_Z 1) (of_Z 2) (of_Z 2)) 4 2 2).
  - simpl. lia.
  - vm_compute. reflexivity.
  - vm_compute. reflexivity.
  - reflexivity.
  - lia.
  - reflexivity.
  - lia.
  - vm_compute. discriminate.
  - vm_compute. reflexivity.
  - vm_compute. reflexivity.
Defined.

(** X11. With 0 < numSplits < 1 the two editors part ways. Let [p] be
    the scaled width, [k] the slice width and [r] the output width
    [k * horizontalRepeat] as the code computes them, for a finite
    positive horizontalRepeat, with the image height, [floor p], [k] and
    [floor r] all at least 1 and below 2^31. [splitImage] stores no slice,
    so the Download button of ImageEditorBackup.tsx returns at once and
    downloads nothing, while [processAndDownload] cuts one slice and
    downloads a PNG [floor r] wide and as high as the image. *)
Theorem Backup_ignores_split_below_one
    (resample : Bitmap -> Rect -> Rect -> Transform -> Z -> Z -> option RGBA)
    (sched : list nat) (img : Bitmap) (editorState : gmap string number)
    (p n c r : Q) (k : Z) :
  1 <= height img < 2 ^ 31 ->
  scaledWidth_of img editorState = Finite p -> 1 <= Qfloor p < 2 ^ 31 ->
  field editorState "numSplits" = Finite n -> (0 < n)%Q -> (n < 1)%Q ->
  sliceWidth_of img editorState = of_Z k -> 1 <= k < 2 ^ 31 ->
  field editorState "horizontalRepeat" = Finite c -> (0 < c)%Q ->
  mul (of_Z k) (Finite c) = Finite r -> 1 <= Qfloor r < 2 ^ 31 ->
  BackupEditor.splitImage resample img editorState = BackupEditor.Ran (Normal nil)
  /\ BackupEditor.mergeAndDownload resample sched nil editorState
     = BackupEditor.Ran (Abrupt EarlyReturn)
  /\ exists out,
       processAndDownload resample sched img editorState
       = Normal (PngData (width out) (height out) (rows_of out))
       /\ width out = Qfloor r
       /\ height out = height img.
Proof.
  intros Hh Hp HW Hn Hnpos Hn1 Hk Hk1 Hr Hcpos Hmul Hr1.
  assert (Hfloor : Qfloor n = 0).
  { apply Qfloor_unit; [apply Qlt_le_weak; exact Hnpos|exact Hn1]. }
  assert (Hceil : Qceiling n = 1).
  { pose proof (Qceiling_pos n Hnpos) as H1.
    assert (H2 : Qceiling n <= 1).
    { change 1 with (Qceiling (inject_Z 1)). apply Qceiling_resp_le.
      apply Qlt_le_weak. exact Hn1. }
    lia. }
  destruct (pipeline_canvas resample sched img editorState p n c r k)
    as (sc & fc & Hsc & _ & _ & _ & Hrun & Hfw & Hfh & _);
    rewrite ?Hceil; try assumption; try lia.
  rewrite Hceil in Hfh.
  split; [|split; [reflexivity|]].
  - unfold BackupEditor.splitImage. rewrite Hsc, Hn.
    rewrite array_length_finite
      by (try apply Qlt_le_weak; try assumption; rewrite Hfloor; lia).
    rewrite Hfloor. reflexivity.
  - exists fc. split; [|split; [exact Hfw|lia]].
    rewrite Hrun. f_equal. apply toDataURL_png; lia.
Qed.

Lemma Backup_ignores_split_below_one_witness :
  BackupEditor.splitImage nearest (test_image 3 2)
    (editor (of_Z 1) (Finite (1 # 2)) (of_Z 1)) = BackupEditor.Ran (Normal nil)
  /\ BackupEditor.mergeAndDownload nearest nil nil
       (editor (of_Z 1) (Finite (1 # 2)) (of_Z 1))
     = BackupEditor.Ran (Abrupt EarlyReturn)
  /\ exists out,
       processAndDownload nearest nil (test_image 3 2)
         (editor (of_Z 1) (Finite (1 # 2)) (of_Z 1))
       = Normal (PngData (width out) (height out) (rows_of out))
       /\ width out = Qfloor 6
       /\ height out = height (test_image 3 2).
Proof.
  apply (Backup_ignores_split_below_one nearest nil (test_image 3 2)
           (editor (of_Z 1) (Finite (1 # 2)) (of_Z 1)) 3 (1 # 2) 1 6 6).
  - simpl. lia.
  - vm_compute. reflexivity.
  - vm_compute. split; discriminate || reflexivity.
  - reflexivity.
  - reflexivity.
  - reflexivity.
  - vm_compute. reflexivity.
  - lia.
  - reflexivity.
  - reflexivity.
  - vm_compute. reflexivity.
  - vm_compute. split; discriminate || reflexivity.
Defined.

Example run_backup_below_one :
  BackupEditor.splitImage nearest (test_image 3 2)
    (editor (of_Z 1) (Finite (1 # 2)) (of_Z 1)) = BackupEditor.Ran (Normal nil)
  /\ greys (processAndDownload nearest nil (test_image 3 2)
              (editor (of_Z 1) (Finite (1 # 2)) (of_Z 1)))
     = [[0; 1; 2; 255; 255; 255]; [10; 11; 12; 255; 255; 255]].
Proof. vm_compute. split; reflexivity. Qed.

Example run_backup_fraction :
  match BackupEditor.splitImage nearest (test_image 5 2)
          (editor (of_Z 1) (Finite (5 # 2)) (of_Z 1)) with
  | BackupEditor.Ran (Normal imageSlices) =>
      match BackupEditor.mergeAndDownload nearest nil imageSlices
              (editor (of_Z 1) (Finite (5 # 2)) (of_Z 1)) with
      | BackupEditor.Ran href => greys href
      | BackupEditor.RangeError => nil
      end
  | _ => nil
  end = [[0; 1]; [10; 11]; [12; 13]; [2; 3]].
Proof. vm_compute. reflexivity. Qed.

(** ** Upload and preview *)

Section UploadFacts.

Variable File : Type.

Lemma onChange_consistent (p : Upload.Page File) (files : option (list File)) :
  Upload.page_consistent File p -> Upload.page_consistent File (Upload.onChange File p files).
Proof.
  intros (Hfresh & Hprev). unfold Upload.onChange, Upload.handleFileChange, Upload.createObjectURL.
  destruct (Upload.first_file File files) as [file|]; [|split; assumption].
  unfold Upload.page_consistent. cbn. split.
  - intros url Hurl. destruct (decide (url = Upload.next_url File p)) as [->|Hne]; [lia|].
    rewrite lookup_insert_ne in Hurl by congruence. apply Hfresh in Hurl. lia.
  - exists file. rewrite lookup_insert_eq. split; reflexivity.
Qed.

Lemma fold_onChange_consistent (history : list (option (list File)))
    (p : Upload.Page File) :
  Upload.page_consistent File p -> Upload.page_consistent File (fold_left (Upload.onChange File) history p).
Proof.
  revert p. induction history as [|files history IH]; intros p Hp; [exact Hp|].
  cbn [fold_left]. apply IH, onChange_consistent, Hp.
Qed.

Lemma after_changes_snoc (history : list (option (list File)))
    (files : option (list File)) :
  Upload.after_changes File (history ++ files :: nil)
  = Upload.onChange File (Upload.after_changes File history) files.
Proof. unfold Upload.after_changes. rewrite fold_left_app. reflexivity. Qed.

(** X12. After any sequence of changes of the file input, the preview URL
    (when there is one) is a live object URL of the very file that was
    handed to the editor; and there is no preview exactly when no file was
    handed over.  The function that [handleFileChange] returns is dropped
    by the caller, so no object URL is revoked under a preview. *)
Theorem preview_shows_uploaded_file (history : list (option (list File))) :
  match Upload.preview File (Upload.after_changes File history) with
  | Some url =>
      exists file,
        Upload.blobs File (Upload.after_changes File history) !! url = Some file
        /\ Upload.imageFile File (Upload.after_changes File history) = Some file
  | None => Upload.imageFile File (Upload.after_changes File history) = None
  end.
Proof.
  assert (H : Upload.page_consistent File (Upload.after_changes File history)).
  { apply fold_onChange_consistent. split.
    - intros url [f Hf]. cbn in Hf. rewrite lookup_empty in Hf. discriminate.
    - reflexivity. }
  exact (proj2 H).
Qed.

(** X13. The editor is on the page exactly when some change of the file
    input so far carried a file: a change without a file (the dialog
    cancelled) neither shows nor removes it, and the uploaded file is the
    first file of the latest change that carried one. *)
Theorem editor_rendered_once_uploaded (history : list (option (list File))) :
  Upload.editor_rendered File (Upload.after_changes File history)
  = existsb (Upload.has_file File) history
  /\ Upload.imageFile File (Upload.after_changes File history)
     = match find (Upload.has_file File) (rev history) with
       | Some files => Upload.first_file File files
       | None => None
       end.
Proof.
  induction history as [|files history [IH1 IH2]] using rev_ind.
  - split; reflexivity.
  - rewrite after_changes_snoc, existsb_app, rev_app_distr. cbn [existsb rev app find].
    unfold Upload.onChange, Upload.handleFileChange, Upload.createObjectURL, Upload.has_file in *.
    destruct (Upload.first_file File files) as [file|] eqn:E.
    + cbn. rewrite orb_true_r. split; [reflexivity|congruence].
    + cbn [fst]. rewrite orb_false_r. split; [exact IH1|exact IH2].
Qed.

(** X14. Each change that carries a file creates one object URL and none
    is ever revoked: the number of live object URLs is the number of
    such changes. *)
Theorem object_urls_accumulate (history : list (option (list File))) :
  size (Upload.blobs File (Upload.after_changes File history))
  = length (List.filter (Upload.has_file File) history)
  /\ Upload.next_url File (Upload.after_changes File history)
     = length (List.filter (Upload.has_file File) history).
Proof.
  assert (Hfresh : forall h url,
             is_Some (Upload.blobs File (Upload.after_changes File h) !! url) ->
             (url < Upload.next_url File (Upload.after_changes File h))%nat).
  { intros h. assert (H : Upload.page_consistent File (Upload.after_changes File h)).
    { apply fold_onChange_consistent. split.
      - intros url [f Hf]. cbn in Hf. rewrite lookup_empty in Hf. discriminate.
      - reflexivity. }
    exact (proj1 H). }
  induction history as [|files history [IH1 IH2]] using rev_ind.
  - split; reflexivity.
  - rewrite after_changes_snoc, List.filter_app, length_app. cbn [List.filter].
    unfold Upload.onChange, Upload.handleFileChange, Upload.createObjectURL, Upload.has_file in *.
    destruct (Upload.first_file File files) as [file|] eqn:E.
    + cbn. rewrite map_size_insert_None.
      * split; lia.
      * destruct (Upload.blobs File (Upload.after_changes File history)
                    !! Upload.next_url File (Upload.after_changes File history))
          as [f|] eqn:Ef; [|reflexivity].
        exfalso. pose proof (Hfresh history _ (ex_intro _ f Ef)). lia.
    + cbn [fst length]. split; lia.
Qed.

End UploadFacts.

(** ** [createCanvas] as a whole *)

(** X15. [createCanvas(w, h)] with positive finite arguments whose
    whole parts are below 2^31, the range in which a canvas size is kept
    as given, is a canvas [floor w] by [floor h] that is white all over;
    its data URL loads back as that white image when both sizes are at
    least 1, and is the empty ["data:,"], which no image loads from, when
    one is below 1. *)
Theorem createCanvas_white_or_empty (w h : Q) :
  (0 < w)%Q -> (0 < h)%Q -> Qfloor w < 2 ^ 31 -> Qfloor h < 2 ^ 31 ->
  width (createCanvas (Finite w) (Finite h)) = Qfloor w
  /\ height (createCanvas (Finite w) (Finite h)) = Qfloor h
  /\ (forall X Y, pixel (createCanvas (Finite w) (Finite h)) X Y = white)
  /\ (1 <= Qfloor w -> 1 <= Qfloor h ->
      exists b,
        load_image (toDataURL (createCanvas (Finite w) (Finite h))) = Some b
        /\ width b = Qfloor w /\ height b = Qfloor h
        /\ forall x y, 0 <= x < Qfloor w -> 0 <= y < Qfloor h -> pixel b x y = white)
  /\ ((w < 1)%Q \/ (h < 1)%Q ->
      toDataURL (createCanvas (Finite w) (Finite h)) = EmptyData
      /\ load_image (toDataURL (createCanvas (Finite w) (Finite h))) = None).
Proof.
  intros Hw Hh Hwlt Hhlt.
  assert (Ew : width (createCanvas (Finite w) (Finite h)) = Qfloor w).
  { cbn [createCanvas width]. apply dimension_finite; [apply Qlt_le_weak, Hw|exact Hwlt]. }
  assert (Eh : height (createCanvas (Finite w) (Finite h)) = Qfloor h).
  { cbn [createCanvas height]. apply dimension_finite; [apply Qlt_le_weak, Hh|exact Hhlt]. }
  split; [exact Ew|]. split; [exact Eh|]. split.
  { intros X Y. apply createCanvas_white; assumption. }
  split.
  - intros Hw1 Hh1.
    destruct (load_toDataURL (createCanvas (Finite w) (Finite h)))
      as (b & Hb & Hbw & Hbh & Hbp); try lia.
    exists b. split; [exact Hb|]. split; [lia|]. split; [lia|].
    intros x y Hx Hy. rewrite Hbp by lia. apply createCanvas_white; assumption.
  - intros Hsmall.
    assert (E : toDataURL (createCanvas (Finite w) (Finite h)) = EmptyData).
    { apply toDataURL_empty. rewrite Ew, Eh.
      destruct Hsmall as [H1|H1]; [left|right];
        rewrite Qfloor_unit; try lia; try exact H1; apply Qlt_le_weak; assumption. }
    rewrite E. split; reflexivity.
Qed.

Lemma createCanvas_white_or_empty_witness :
  width (createCanvas (Finite (5 # 2)) (Finite (1 # 2))) = 2
  /\ height (createCanvas (Finite (5 # 2)) (Finite (1 # 2))) = 0
  /\ (forall X Y, pixel (createCanvas (Finite (5 # 2)) (Finite (1 # 2))) X Y = white)
  /\ (1 <= 2 -> 1 <= 0 ->
      exists b,
        load_image (toDataURL (createCanvas (Finite (5 # 2)) (Finite (1 # 2)))) = Some b
        /\ width b = 2 /\ height b = 0
        /\ forall x y, 0 <= x < 2 -> 0 <= y < 0 -> pixel b x y = white)
  /\ ((5 # 2 < 1)%Q \/ (1 # 2 < 1)%Q ->
      toDataURL (createCanvas (Finite (5 # 2)) (Finite (1 # 2))) = EmptyData
      /\ load_image (toDataURL (createCanvas (Finite (5 # 2)) (Finite (1 # 2)))) = None).
Proof.
  apply (createCanvas_white_or_empty (5 # 2) (1 # 2)).
  - reflexivity.
  - reflexivity.
  - vm_compute. reflexivity.
  - vm_compute. reflexivity.
Defined.
